(** * ARS MATHICA: the fractal evaluation kernel and the gesture-to-control
      pipeline

    A shallow embedding of the particle vertex shader ([vertexShader]) and of
    the [FractalVis] component (tracking callback [onResults], render loop
    [animate], pointer handlers), with the properties the specification
    states about them.

    Numbers.  GLSL floats and JavaScript numbers are idealised as real
    numbers.  An operation whose result GLSL leaves undefined, or that
    IEEE arithmetic answers with an infinity or a NaN (division by zero,
    logarithm of a non-positive number, normalisation of the zero vector),
    is partial: it returns [None].  "Finite" in the specification therefore
    reads "the result is [Some _]".  Rounding and overflow are outside the
    model. *)

From Stdlib Require Import Reals Lra Lia List Bool String ZArith Zfloor.
Import ListNotations.
Open Scope R_scope.

(** ** Comparisons and partial arithmetic *)

Module Num.

Definition Rltb (a b : R) : bool := if Rlt_dec a b then true else false.
Definition Rleb (a b : R) : bool := if Rle_dec a b then true else false.

(** [a > b] and [a >= b] of the source are written with the arguments
    swapped: [Rltb b a] and [Rleb b a]. *)

(** Option monad for the partial operations. *)
Definition obind {A B : Type} (m : option A) (k : A -> option B) : option B :=
  match m with
  | Some a => k a
  | None => None
  end.

Declare Scope part_scope.
Delimit Scope part_scope with part.
Notation "v <- m ;; k" := (obind m (fun v => k))
  (at level 61, m at next level, right associativity) : part_scope.

(** [a / b]: no finite result when [b] is zero. *)
Definition fdiv (a b : R) : option R :=
  if Req_dec_T b 0 then None else Some (a / b).

(** Natural and binary logarithm; GLSL: undefined if [x <= 0]. *)
Definition flog (x : R) : option R :=
  if Rlt_dec 0 x then Some (ln x) else None.

Definition flog2 (x : R) : option R :=
  if Rlt_dec 0 x then Some (ln x / ln 2) else None.

(** GLSL [pow(x, y)]: undefined if [x < 0], or if [x = 0] and [y <= 0]. *)
Definition fpow (x y : R) : option R :=
  if Rlt_dec 0 x then Some (Rpower x y)
  else if Req_dec_T x 0 then (if Rlt_dec 0 y then Some 0 else None)
  else None.

(** GLSL [acos(x)]: undefined if [|x| > 1]. *)
Definition facos (x : R) : option R :=
  if Rle_dec (-1) x then (if Rle_dec x 1 then Some (acos x) else None)
  else None.

(** GLSL two-argument [atan(y, x)]: undefined if both arguments are zero. *)
Definition fatan2 (y x : R) : option R :=
  if Rlt_dec 0 x then Some (atan (y / x))
  else if Rlt_dec x 0 then
    (if Rle_dec 0 y then Some (atan (y / x) + PI) else Some (atan (y / x) - PI))
  else if Rlt_dec 0 y then Some (PI / 2)
  else if Rlt_dec y 0 then Some (- (PI / 2))
  else None.

Definition floorR (x : R) : R := IZR (Zfloor x).

(** GLSL [mod(x, y) = x - y * floor(x / y)]; every use has a literal,
    non-zero [y]. *)
Definition fmod (x y : R) : R := x - y * floorR (x / y).

Definition clamp (x lo hi : R) : R := Rmin (Rmax x lo) hi.

(** GLSL [mix(a, b, t) = a * (1 - t) + b * t]. *)
Definition mix (a b t : R) : R := a * (1 - t) + b * t.

(** GLSL [smoothstep]; every use has literal edges [e0 < e1]. *)
Definition smoothstep (e0 e1 x : R) : R :=
  let t := clamp ((x - e0) / (e1 - e0)) 0 1 in
  t * t * (3 - 2 * t).

(** JavaScript [Math.sign]. *)
Definition sign (x : R) : R :=
  if Rlt_dec 0 x then 1 else if Rlt_dec x 0 then -1 else 0.

End Num.

Import Num.

(** ** Vectors *)

Record vec2 : Type := Vec2 { vx : R; vy : R }.
Record vec3 : Type := Vec3 { px : R; py : R; pz : R }.

Definition add2 (a b : vec2) : vec2 := Vec2 (vx a + vx b) (vy a + vy b).
Definition dot2 (a b : vec2) : R := vx a * vx b + vy a * vy b.

Definition add3 (a b : vec3) : vec3 :=
  Vec3 (px a + px b) (py a + py b) (pz a + pz b).
Definition sub3 (a b : vec3) : vec3 :=
  Vec3 (px a - px b) (py a - py b) (pz a - pz b).
Definition scale3 (a : vec3) (s : R) : vec3 :=
  Vec3 (px a * s) (py a * s) (pz a * s).
Definition length3 (a : vec3) : R :=
  sqrt (px a * px a + py a * py a + pz a * pz a).
Definition distance3 (a b : vec3) : R := length3 (sub3 a b).
Definition mix3 (a b : vec3) (t : R) : vec3 :=
  Vec3 (mix (px a) (px b) t) (mix (py a) (py b) t) (mix (pz a) (pz b) t).

(** GLSL [normalize]: [v / length(v)], no finite result for the zero
    vector. *)
Definition normalize3 (a : vec3) : option vec3 :=
  if Req_dec_T (length3 a) 0 then None
  else Some (scale3 a (/ length3 a)).

(** ** Damping (FractalVis, [damp]) *)

(** [THREE.MathUtils.lerp(x, y, t)] of the three.js library: linear
    interpolation, [(1 - t) * x + t * y]. *)
Definition lerp (x y t : R) : R := (1 - t) * x + t * y.

(** [const damp = (current, target, lambda, dt) =>
      THREE.MathUtils.lerp(current, target, 1 - Math.exp(-lambda * dt))] *)
Definition damp (current target lambda dt : R) : R :=
  lerp current target (1 - exp (- lambda * dt)).

(** The render loop applies [damp] once per frame; a run over several
    frames folds it over the frames' time steps [dts], a partition of the
    elapsed time [elapsed dts]. *)
Definition damp_frames (current target lambda : R) (dts : list R) : R :=
  fold_left (fun x dt => damp x target lambda dt) dts current.

Definition elapsed (dts : list R) : R := fold_right Rplus 0 dts.

(** ** The particle vertex shader ([vertexShader]) *)

Module Shader.

(** The uniforms of the shader material. *)
Record Uniforms : Type := {
  uTime : R;
  uMode : R;
  uHandPos : vec3;
  uAttractStrength : R;
  uRepelStrength : R;
  uPower : R;
  uJuliaC : vec2;
  uPinchScale : R;
  uExplosion : R;
  uChaos : R;
  uSnap : R;
  uMaxIter : R;
  uVisualMode : R;
  uColorMode : R;
  uZoom : R;
  uPan : vec2
}.

(** The per-particle attributes: the immutable seed [position], [aSize] and
    the random triplet [aRandom]. *)
Record Particle : Type := {
  position : vec3;
  aSize : R;
  aRandom : vec3
}.

(** What [main] computes for a particle.  [gl_Position] and [gl_PointSize]
    are [targetPos] pushed through the camera matrices of the host scene and
    are not modelled. *)
Record VertexOut : Type := {
  targetPos : vec3;
  vColor : vec3;
  vAlpha : R
}.

(** Assignments [u.<name>.value = v] of the host program. *)
Definition set_uTime (v : R) (u : Uniforms) : Uniforms :=
  {| uTime := v; uMode := uMode u; uHandPos := uHandPos u;
     uAttractStrength := uAttractStrength u; uRepelStrength := uRepelStrength u;
     uPower := uPower u; uJuliaC := uJuliaC u; uPinchScale := uPinchScale u;
     uExplosion := uExplosion u; uChaos := uChaos u; uSnap := uSnap u;
     uMaxIter := uMaxIter u; uVisualMode := uVisualMode u;
     uColorMode := uColorMode u; uZoom := uZoom u; uPan := uPan u |}.

Definition set_uMode (v : R) (u : Uniforms) : Uniforms :=
  {| uTime := uTime u; uMode := v; uHandPos := uHandPos u;
     uAttractStrength := uAttractStrength u; uRepelStrength := uRepelStrength u;
     uPower := uPower u; uJuliaC := uJuliaC u; uPinchScale := uPinchScale u;
     uExplosion := uExplosion u; uChaos := uChaos u; uSnap := uSnap u;
     uMaxIter := uMaxIter u; uVisualMode := uVisualMode u;
     uColorMode := uColorMode u; uZoom := uZoom u; uPan := uPan u |}.

Definition set_uHandPos (v : vec3) (u : Uniforms) : Uniforms :=
  {| uTime := uTime u; uMode := uMode u; uHandPos := v;
     uAttractStrength := uAttractStrength u; uRepelStrength := uRepelStrength u;
     uPower := uPower u; uJuliaC := uJuliaC u; uPinchScale := uPinchScale u;
     uExplosion := uExplosion u; uChaos := uChaos u; uSnap := uSnap u;
     uMaxIter := uMaxIter u; uVisualMode := uVisualMode u;
     uColorMode := uColorMode u; uZoom := uZoom u; uPan := uPan u |}.

Definition set_uAttractStrength (v : R) (u : Uniforms) : Uniforms :=
  {| uTime := uTime u; uMode := uMode u; uHandPos := uHandPos u;
     uAttractStrength := v; uRepelStrength := uRepelStrength u;
     uPower := uPower u; uJuliaC := uJuliaC u; uPinchScale := uPinchScale u;
     uExplosion := uExplosion u; uChaos := uChaos u; uSnap := uSnap u;
     uMaxIter := uMaxIter u; uVisualMode := uVisualMode u;
     uColorMode := uColorMode u; uZoom := uZoom u; uPan := uPan u |}.

Definition set_uRepelStrength (v : R) (u : Uniforms) : Uniforms :=
  {| uTime := uTime u; uMode := uMode u; uHandPos := uHandPos u;
     uAttractStrength := uAttractStrength u; uRepelStrength := v;
     uPower := uPower u; uJuliaC := uJuliaC u; uPinchScale := uPinchScale u;
     uExplosion := uExplosion u; uChaos := uChaos u; uSnap := uSnap u;
     uMaxIter := uMaxIter u; uVisualMode := uVisualMode u;
     uColorMode := uColorMode u; uZoom := uZoom u; uPan := uPan u |}.

Definition set_uPower (v : R) (u : Uniforms) : Uniforms :=
  {| uTime := uTime u; uMode := uMode u; uHandPos := uHandPos u;
     uAttractStrength := uAttractStrength u; uRepelStrength := uRepelStrength u;
     uPower := v; uJuliaC := uJuliaC u; uPinchScale := uPinchScale u;
     uExplosion := uExplosion u; uChaos := uChaos u; uSnap := uSnap u;
     uMaxIter := uMaxIter u; uVisualMode := uVisualMode u;
     uColorMode := uColorMode u; uZoom := uZoom u; uPan := uPan u |}.

Definition set_uJuliaC (v : vec2) (u : Uniforms) : Uniforms :=
  {| uTime := uTime u; uMode := uMode u; uHandPos := uHandPos u;
     uAttractStrength := uAttractStrength u; uRepelStrength := uRepelStrength u;
     uPower := uPower u; uJuliaC := v; uPinchScale := uPinchScale u;
     uExplosion := uExplosion u; uChaos := uChaos u; uSnap := uSnap u;
     uMaxIter := uMaxIter u; uVisualMode := uVisualMode u;
     uColorMode := uColorMode u; uZoom := uZoom u; uPan := uPan u |}.

Definition set_uPinchScale (v : R) (u : Uniforms) : Uniforms :=
  {| uTime := uTime u; uMode := uMode u; uHandPos := uHandPos u;
     uAttractStrength := uAttractStrength u; uRepelStrength := uRepelStrength u;
     uPower := uPower u; uJuliaC := uJuliaC u; uPinchScale := v;
     uExplosion := uExplosion u; uChaos := uChaos u; uSnap := uSnap u;
     uMaxIter := uMaxIter u; uVisualMode := uVisualMode u;
     uColorMode := uColorMode u; uZoom := uZoom u; uPan := uPan u |}.

Definition set_uExplosion (v : R) (u : Uniforms) : Uniforms :=
  {| uTime := uTime u; uMode := uMode u; uHandPos := uHandPos u;
     uAttractStrength := uAttractStrength u; uRepelStrength := uRepelStrength u;
     uPower := uPower u; uJuliaC := uJuliaC u; uPinchScale := uPinchScale u;
     uExplosion := v; uChaos := uChaos u; uSnap := uSnap u;
     uMaxIter := uMaxIter u; uVisualMode := uVisualMode u;
     uColorMode := uColorMode u; uZoom := uZoom u; uPan := uPan u |}.

Definition set_uChaos (v : R) (u : Uniforms) : Uniforms :=
  {| uTime := uTime u; uMode := uMode u; uHandPos := uHandPos u;
     uAttractStrength := uAttractStrength u; uRepelStrength := uRepelStrength u;
     uPower := uPower u; uJuliaC := uJuliaC u; uPinchScale := uPinchScale u;
     uExplosion := uExplosion u; uChaos := v; uSnap := uSnap u;
     uMaxIter := uMaxIter u; uVisualMode := uVisualMode u;
     uColorMode := uColorMode u; uZoom := uZoom u; uPan := uPan u |}.

Definition set_uSnap (v : R) (u : Uniforms) : Uniforms :=
  {| uTime := uTime u; uMode := uMode u; uHandPos := uHandPos u;
     uAttractStrength := uAttractStrength u; uRepelStrength := uRepelStrength u;
     uPower := uPower u; uJuliaC := uJuliaC u; uPinchScale := uPinchScale u;
     uExplosion := uExplosion u; uChaos := uChaos u; uSnap := v;
     uMaxIter := uMaxIter u; uVisualMode := uVisualMode u;
     uColorMode := uColorMode u; uZoom := uZoom u; uPan := uPan u |}.

Definition set_uMaxIter (v : R) (u : Uniforms) : Uniforms :=
  {| uTime := uTime u; uMode := uMode u; uHandPos := uHandPos u;
     uAttractStrength := uAttractStrength u; uRepelStrength := uRepelStrength u;
     uPower := uPower u; uJuliaC := uJuliaC u; uPinchScale := uPinchScale u;
     uExplosion := uExplosion u; uChaos := uChaos u; uSnap := uSnap u;
     uMaxIter := v; uVisualMode := uVisualMode u;
     uColorMode := uColorMode u; uZoom := uZoom u; uPan := uPan u |}.

Definition set_uVisualMode (v : R) (u : Uniforms) : Uniforms :=
  {| uTime := uTime u; uMode := uMode u; uHandPos := uHandPos u;
     uAttractStrength := uAttractStrength u; uRepelStrength := uRepelStrength u;
     uPower := uPower u; uJuliaC := uJuliaC u; uPinchScale := uPinchScale u;
     uExplosion := uExplosion u; uChaos := uChaos u; uSnap := uSnap u;
     uMaxIter := uMaxIter u; uVisualMode := v;
     uColorMode := uColorMode u; uZoom := uZoom u; uPan := uPan u |}.

Definition set_uColorMode (v : R) (u : Uniforms) : Uniforms :=
  {| uTime := uTime u; uMode := uMode u; uHandPos := uHandPos u;
     uAttractStrength := uAttractStrength u; uRepelStrength := uRepelStrength u;
     uPower := uPower u; uJuliaC := uJuliaC u; uPinchScale := uPinchScale u;
     uExplosion := uExplosion u; uChaos := uChaos u; uSnap := uSnap u;
     uMaxIter := uMaxIter u; uVisualMode := uVisualMode u;
     uColorMode := v; uZoom := uZoom u; uPan := uPan u |}.

Definition set_uZoom (v : R) (u : Uniforms) : Uniforms :=
  {| uTime := uTime u; uMode := uMode u; uHandPos := uHandPos u;
     uAttractStrength := uAttractStrength u; uRepelStrength := uRepelStrength u;
     uPower := uPower u; uJuliaC := uJuliaC u; uPinchScale := uPinchScale u;
     uExplosion := uExplosion u; uChaos := uChaos u; uSnap := uSnap u;
     uMaxIter := uMaxIter u; uVisualMode := uVisualMode u;
     uColorMode := uColorMode u; uZoom := v; uPan := uPan u |}.

Definition set_uPan (v : vec2) (u : Uniforms) : Uniforms :=
  {| uTime := uTime u; uMode := uMode u; uHandPos := uHandPos u;
     uAttractStrength := uAttractStrength u; uRepelStrength := uRepelStrength u;
     uPower := uPower u; uJuliaC := uJuliaC u; uPinchScale := uPinchScale u;
     uExplosion := uExplosion u; uChaos := uChaos u; uSnap := uSnap u;
     uMaxIter := uMaxIter u; uVisualMode := uVisualMode u;
     uColorMode := uColorMode u; uZoom := uZoom u; uPan := v |}.

Section Kernel.

Variable u : Uniforms.

Local Open Scope part_scope.

(** [DE_Mandelbulb]: the body of [for (int i = 0; i < 8; i++)]; the result is
    the pair [(r, dr)] at loop exit. *)
Fixpoint bulbLoop (fuel : nat) (p : vec3) (power : R) (z : vec3) (dr r : R)
  : option (R * R) :=
  match fuel with
  | O => Some (r, dr)
  | S k =>
      let r := length3 z in
      if Rlt_dec 2 r then Some (r, dr)
      else
        q <- fdiv (pz z) r ;;
        theta <- facos q ;;
        phi <- fatan2 (py z) (px z) ;;
        pw <- fpow r (power - 1) ;;
        let dr := pw * power * dr + 1 in
        zr <- fpow r power ;;
        let theta := theta * power + uTime u * 0.1 in
        let phi := phi * power + uTime u * 0.05 in
        let z := scale3 (Vec3 (sin theta * cos phi) (sin theta * sin phi)
                              (cos theta)) zr in
        let z := add3 z p in
        bulbLoop k p power z dr r
  end.

Definition DE_Mandelbulb (p : vec3) (power : R) : option R :=
  rd <- bulbLoop 8 p power p 1 0 ;;
  let '(r, dr) := rd in
  l <- flog r ;;
  fdiv (0.5 * l * r) dr.

(** [DE_MengerSponge]: four folding iterations. *)
Fixpoint mengerLoop (fuel : nat) (p : vec3) (s d : R) : option R :=
  match fuel with
  | O => Some d
  | S k =>
      let a := Vec3 (fmod (px p * s) 2 - 1) (fmod (py p * s) 2 - 1)
                    (fmod (pz p * s) 2 - 1) in
      let s := s * 3 in
      let r := Vec3 (Rabs (1 - 3 * Rabs (px a))) (Rabs (1 - 3 * Rabs (py a)))
                    (Rabs (1 - 3 * Rabs (pz a))) in
      let da := Rmax (px r) (py r) in
      let db := Rmax (py r) (pz r) in
      let dc := Rmax (pz r) (px r) in
      c <- fdiv (Rmin da (Rmin db dc) - 1) s ;;
      mengerLoop k p s (Rmax d c)
  end.

Definition DE_MengerSponge (p : vec3) : option R :=
  let d := length3 (Vec3 (Rmax (Rabs (px p) - 1) 0) (Rmax (Rabs (py p) - 1) 0)
                         (Rmax (Rabs (pz p) - 1) 0)) in
  mengerLoop 4 p 1 d.

(** [DE_Sierpinski]: eight reflections about the nearest vertex. *)
Definition a1 : vec3 := Vec3 1 1 1.
Definition a2 : vec3 := Vec3 (-1) (-1) 1.
Definition a3 : vec3 := Vec3 1 (-1) (-1).
Definition a4 : vec3 := Vec3 (-1) 1 (-1).

Definition nearestVertex (p : vec3) : vec3 :=
  let c := a1 in let dist := length3 (sub3 p a1) in
  let d := length3 (sub3 p a2) in
  let '(c, dist) := if Rlt_dec d dist then (a2, d) else (c, dist) in
  let d := length3 (sub3 p a3) in
  let '(c, dist) := if Rlt_dec d dist then (a3, d) else (c, dist) in
  let d := length3 (sub3 p a4) in
  let '(c, dist) := if Rlt_dec d dist then (a4, d) else (c, dist) in
  c.

Fixpoint sierpinskiLoop (fuel : nat) (p : vec3) (n : nat) : vec3 * nat :=
  match fuel with
  | O => (p, n)
  | S k => sierpinskiLoop k (sub3 (scale3 p 2) (nearestVertex p)) (S n)
  end.

Definition DE_Sierpinski (p : vec3) : option R :=
  let p := scale3 p 1.5 in
  let '(p, n) := sierpinskiLoop 8 p 0 in
  w <- fpow 2 (- INR n) ;;
  Some (length3 p * w).

Definition csqr (a : vec2) : vec2 :=
  Vec2 (vx a * vx a - vy a * vy a) (2 * vx a * vy a).

(** [float loopLimit = uMaxIter > 0.0 ? uMaxIter : 20.0;] *)
Definition loopLimit : R := if Rlt_dec 0 (uMaxIter u) then uMaxIter u else 20.

(** One application of the recurrence [z <- f(z) + c] selected by [mode]. *)
Definition fractalStep (mode : R) (c z : vec2) : vec2 :=
  if Rlt_dec mode 2.5 then add2 (csqr z) c
  else if Rlt_dec (Rabs (mode - 3)) 0.1 then
    add2 (csqr (Vec2 (vx z) (- vy z))) c
  else add2 (csqr (Vec2 (Rabs (vx z)) (Rabs (vy z)))) c.

(** [for (float i = 0.0; i < 100.0; i++)]: [fuel] counts the iterations the
    hard cap still allows, [i] is the loop counter, [iter] the count of
    iterations that did not escape.  The result is [(z, iter)] at exit. *)
Fixpoint escapeLoop (fuel : nat) (mode : R) (c : vec2) (i : R) (z : vec2)
  (iter : R) : vec2 * R :=
  match fuel with
  | O => (z, iter)
  | S k =>
      if Rle_dec loopLimit i then (z, iter)
      else
        let z := fractalStep mode c z in
        if Rlt_dec 4 (dot2 z z) then (z, iter)
        else escapeLoop k mode c (i + 1) z (iter + 1)
  end.

Definition IterateFractal (pos : vec2) (mode : R) : option vec3 :=
  let uv := pos in
  let isJulia := Rltb (Rabs (mode - 1)) 0.1 in
  let '(z, c) := if isJulia then (uv, uJuliaC u) else (Vec2 0 0, uv) in
  let '(z, iter) := escapeLoop 100 mode c 0 z 0 in
  l <- flog2 (dot2 z z) ;;
  ll <- flog2 l ;;
  let smoothIter := iter - ll + 4 in
  depth <- fdiv smoothIter loopLimit ;;
  Some (Vec3 (vx z) (vy z) depth).

(** [getPalette]: three-stop gradient with a palette-specific exponent. *)
Definition gradient (c1 c2 c3 : vec3) (pulse gamma weight : R) : option vec3 :=
  let col := mix3 c1 c2 pulse in
  w <- fpow pulse gamma ;;
  Some (mix3 col c3 (w * weight)).

Definition getPalette (t mode : R) : option vec3 :=
  let pulse := 0.5 + 0.5 * sin (t * 3 + uTime u * 0.1) in
  let pulse :=
    if Rlt_dec 0.5 (uVisualMode u) then 0.5 + 0.5 * sin (t * 3) else pulse in
  if Rlt_dec mode 0.5 then
    gradient (Vec3 0.02 0.01 0.10) (Vec3 0.15 0.05 0.25) (Vec3 0.30 0.20 0.50)
             pulse 4 0.4
  else if Rlt_dec mode 1.5 then
    gradient (Vec3 0.1 0 0) (Vec3 0.6 0.1 0) (Vec3 1 0.7 0.1) pulse 3 1
  else if Rlt_dec mode 2.5 then
    gradient (Vec3 0 0.1 0.2) (Vec3 0 0.4 0.6) (Vec3 0.6 0.9 1) pulse 5 0.5
  else if Rlt_dec mode 3.5 then
    gradient (Vec3 0 0.1 0) (Vec3 0.1 0.4 0.1) (Vec3 0.4 1 0.4) pulse 8 0.8
  else
    gradient (Vec3 0.15 0 0.3) (Vec3 0 0.2 0.5) (Vec3 1 0 0.8) pulse 2 0.5.

(** [main], 3-D calculation: the distance-estimator branches. *)
Definition pos3D (originalPos : vec3) (mode : R) : option vec3 :=
  if Rlt_dec mode 0.5 then
    n <- normalize3 originalPos ;;
    dist <- DE_Mandelbulb (scale3 n 1.2) (uPower u) ;;
    Some (scale3 n (1.2 - dist))
  else if Rltb 4.5 mode && Rltb mode 5.5 then
    dist <- DE_MengerSponge (scale3 originalPos 1.5) ;;
    n <- normalize3 originalPos ;;
    Some (scale3 (scale3 n (1.5 - dist)) 1.2)
  else if Rlt_dec 5.5 mode then
    dist <- DE_Sierpinski (scale3 originalPos 1.5) ;;
    n <- normalize3 originalPos ;;
    Some (scale3 (scale3 n (1.5 - dist)) 1)
  else Some originalPos.

(** [main], 2-D calculation: the pair [(fractalResult, pos2D)]. *)
Definition calc2D (originalPos : vec3) (mode : R) : option (vec3 * vec3) :=
  if Rleb 0.5 mode && Rleb mode 4.5 then
    let flatPos := Vec2 (px originalPos * 2) (py originalPos * 2) in
    nx <- fdiv (vx flatPos) (uZoom u) ;;
    ny <- fdiv (vy flatPos) (uZoom u) ;;
    let navPos := add2 (Vec2 nx ny) (uPan u) in
    fractalResult <- IterateFractal navPos mode ;;
    let zDepth := pz fractalResult * 0.5 in
    let zDepth := if Rlt_dec (pz fractalResult) 0.05 then -20 else zDepth in
    Some (fractalResult,
          Vec3 (px originalPos * 4) (py originalPos * 3) (zDepth * 3))
  else Some (Vec3 0 0 0, Vec3 0 0 0).

(** [main], interactions: chaos, explosion, snap, attraction, repulsion and
    the pinch scale, each reading the position the previous one left. *)
Definition chaos (t : vec3) : vec3 :=
  if Rlt_dec 0.05 (uChaos u) then
    let x := px t + sin (py t * 20 + uTime u * 50) * uChaos u * 0.5 in
    let y := py t + cos (pz t * 20 + uTime u * 50) * uChaos u * 0.5 in
    let z := pz t + sin (x * 20 + uTime u * 50) * uChaos u * 0.5 in
    Vec3 x y z
  else t.

Definition explosion (originalPos aRandom : vec3) (t : vec3) : option vec3 :=
  if Rlt_dec 0.05 (uExplosion u) then
    explodeDir <- normalize3 (add3 originalPos (Vec3 0.001 0.001 0.001)) ;;
    Some (add3 t (scale3 explodeDir (uExplosion u * 30 * (0.5 + px aRandom))))
  else Some t.

Definition snap (originalPos : vec3) (t : vec3) : option vec3 :=
  if Rlt_dec 0.05 (uSnap u) then
    let ripple := sin (length3 originalPos * 10 - uTime u * 20) in
    n <- normalize3 originalPos ;;
    Some (add3 t (scale3 n (ripple * uSnap u * 0.8)))
  else Some t.

Definition attract (dHand : R) (t : vec3) : option vec3 :=
  if Rltb 0 (uAttractStrength u) && Rltb dHand 4 then
    dir <- normalize3 (sub3 (uHandPos u) t) ;;
    let force := (1 - smoothstep 0 4 dHand) * uAttractStrength u * 2 in
    Some (add3 t (scale3 dir force))
  else Some t.

Definition repel (dHand : R) (t : vec3) : option vec3 :=
  if Rltb 0 (uRepelStrength u) && Rltb dHand 6 then
    dir <- normalize3 (sub3 t (uHandPos u)) ;;
    let force := (1 - smoothstep 0 6 dHand) * uRepelStrength u * 3 in
    Some (add3 t (scale3 dir force))
  else Some t.

Definition interactions (originalPos aRandom : vec3) (t : vec3) : option vec3 :=
  if Rlt_dec (uVisualMode u) 0.5 then
    let t := chaos t in
    t <- explosion originalPos aRandom t ;;
    t <- snap originalPos t ;;
    let dHand := distance3 t (uHandPos u) in
    t <- attract dHand t ;;
    t <- repel dHand t ;;
    Some (scale3 t (1 + uPinchScale u * 0.3))
  else Some t.

Definition is3D (mode : R) : bool := Rltb mode 0.5 || Rltb 4.5 mode.

Definition main (v : Particle) : option VertexOut :=
  let originalPos := position v in
  let mode := uMode u in
  p3 <- pos3D originalPos mode ;;
  r2 <- calc2D originalPos mode ;;
  let '(fractalResult, p2) := r2 in
  let targetPos := if is3D mode then p3 else p2 in
  targetPos <- interactions originalPos (aRandom v) targetPos ;;
  let t := pz fractalResult + uTime u * 0.05 + px (aRandom v) * 0.2 in
  let t := if is3D mode then length3 targetPos * 0.2 + uTime u * 0.1 else t in
  color <- getPalette t (uColorMode u) ;;
  let darkBase := Vec3 0 0 0.02 in
  if Rlt_dec 0.5 (uVisualMode u) then
    let alpha :=
      if Rltb (pz fractalResult) 0.05 && Rleb 0.5 mode && Rleb mode 4.5
      then 0 else 0.8 in
    Some {| targetPos := targetPos; vColor := color; vAlpha := alpha |}
  else
    let c := mix3 darkBase color 0.6 in
    let c := mix3 c (Vec3 0.6 0.5 0.8) (uExplosion u) in
    let c := mix3 c (Vec3 0.4 0 0.2) (uChaos u) in
    let c := mix3 c (Vec3 0.5 0.3 0.9) (uSnap u) in
    Some {| targetPos := targetPos; vColor := c;
            vAlpha := 0.4 + uExplosion u * 0.4 + uSnap u * 0.4 |}.

End Kernel.

End Shader.

(** ** Shared declarations of the component ([types]) *)

Inductive FractalMode : Type :=
  | MANDELBULB_3D | JULIA_2D | MANDELBROT | TRICORN | BURNING_SHIP
  | MENGER_SPONGE | SIERPINSKI.

Inductive AnimationPreset : Type :=
  | NONE | MANDELBROT_DIVE | JULIA_MORPH | UNIVERSE_TOUR | GEOMETRIC_PATTERNS
  | COLOR_SYMPHONY | INFINITY_ZOOM.

(** The two interaction sub-modes the render loop switches between. *)
Inductive InteractionMode : Type := OBJECT_ORBIT | IMMERSIVE_FLY.

Definition isNONE (a : AnimationPreset) : bool :=
  match a with NONE => true | _ => false end.

(** One landmark of the hand tracker: normalised [x], [y] and an approximate
    depth [z]. *)
Record Landmark : Type := { lx : R; ly : R; lz : R }.

(** A hand is the tracker's array of 21 landmarks; [h[i]] is [lm h i].  The
    tracker always delivers 21 entries, an index outside the array is not
    modelled. *)
Definition Hand : Type := list Landmark.
Definition lm (h : Hand) (i : nat) : Landmark := nth i h {| lx := 0; ly := 0; lz := 0 |}.

(** [const dist = (p1, p2) =>
      Math.sqrt(Math.pow(p1.x - p2.x, 2) + Math.pow(p1.y - p2.y, 2))] *)
Definition dist (p1 p2 : Landmark) : R :=
  sqrt ((lx p1 - lx p2) ^ 2 + (ly p1 - ly p2) ^ 2).

(** [[8,12,16,20].forEach(i => tipSum += dist(h[i], h[0]))] *)
Definition tipSum (h : Hand) : R :=
  fold_left (fun acc i => acc + dist (lm h i) (lm h 0)) [8; 12; 16; 20]%nat 0.

(** A vibration pattern handed to [triggerHaptic]. *)
Definition Haptic : Type := list nat.

(** JavaScript [a % b] on numbers: the remainder of the division truncated
    toward zero. *)
Definition truncR (x : R) : R :=
  if Rle_dec 0 x then floorR x else - floorR (- x).
Definition jsrem (a b : R) : R := a - b * truncR (a / b).

(** JavaScript [a || b] on numbers: [b] when [a] is zero. *)
Definition orDefault (a b : R) : R := if Req_dec_T a 0 then b else a.

(** [Vector2.lerp(v, alpha)] of three.js:
    [this.x += (v.x - this.x) * alpha], and the same for [y]. *)
Definition lerp2 (this v : vec2) (alpha : R) : vec2 :=
  Vec2 (vx this + (vx v - vx this) * alpha) (vy this + (vy v - vy this) * alpha).

(** ** The component with gesture navigation ([FractalVis], orbit and fly
       sub-modes) *)

Module Vis.

Import Shader.

(** [gesturesRef]: the cell the tracking callback writes and the render loop
    reads. *)
Record HandGestures : Type := {
  indexTip : vec3;
  wristPos : vec3;
  isPinching : bool;
  isPalmOpen : bool;
  isFist : bool;
  isPointing : bool;
  isVictory : bool;
  isSnapping : bool;
  isWaving : bool;
  isClapping : bool;
  isPunching : bool;
  isTwoHandSmash : bool;
  handsDistance : R;
  handsCount : nat;
  gestureName : string
}.

(** [physicsRef]. *)
Record Physics : Type := {
  prevWristZ : R;
  punchVelocity : R;
  clapCooldown : R;
  snapCooldown : R;
  lastHandPos : vec3;
  wasFist : bool;
  wasPunching : bool;
  wasVictory : bool;
  wasSmash : bool
}.

(** [navRef]: the navigation targets.  The pointer-drag fields take no part
    in the properties below and are left out. *)
Record Nav : Type := { zoom : R; pan : vec2 }.

(** [propsRef]. *)
Record Props : Type := {
  mode : FractalMode;
  attractionSensitivity : R;
  pinchSensitivity : R;
  morphSpeed : R;
  iterations : R;
  power : R;
  interactiveMode : bool;
  activeAnimation : AnimationPreset;
  colorMode : R
}.

Definition initialGestures : HandGestures := {|
  indexTip := Vec3 0 0 0;
  wristPos := Vec3 0 0 0;
  isPinching := false;
  isPalmOpen := false;
  isFist := false;
  isPointing := false;
  isVictory := false;
  isSnapping := false;
  isWaving := false;
  isClapping := false;
  isPunching := false;
  isTwoHandSmash := false;
  handsDistance := 100;
  handsCount := 0;
  gestureName := "Searching..."
|}.

Definition initialPhysics : Physics := {|
  prevWristZ := 0;
  punchVelocity := 0;
  clapCooldown := 0;
  snapCooldown := 0;
  lastHandPos := Vec3 0 0 0;
  wasFist := false;
  wasPunching := false;
  wasVictory := false;
  wasSmash := false
|}.

Definition initialNav : Nav := {| zoom := 1; pan := Vec2 0 0 |}.

(** The uniforms the two materials are created with; a uniform a material
    does not declare is given 0 here. *)
Definition initialQuadU : Uniforms := {|
  uTime := 0; uMode := 0; uHandPos := Vec3 0 0 0;
  uAttractStrength := 0; uRepelStrength := 0;
  uPower := 8; uJuliaC := Vec2 (-0.7) 0.27015; uPinchScale := 0;
  uExplosion := 0; uChaos := 0; uSnap := 0;
  uMaxIter := 100; uVisualMode := 0; uColorMode := 0;
  uZoom := 1; uPan := Vec2 0 0
|}.

Definition initialPartU : Uniforms := {|
  uTime := 0; uMode := 0; uHandPos := Vec3 100 100 100;
  uAttractStrength := 0; uRepelStrength := 0;
  uPower := 8; uJuliaC := Vec2 (-0.7) 0.27015; uPinchScale := 0;
  uExplosion := 0; uChaos := 0; uSnap := 0;
  uMaxIter := 0; uVisualMode := 0; uColorMode := 0;
  uZoom := 1; uPan := Vec2 0 0
|}.

(** *** The wheel handler *)

(** [handleWheel]: the new zoom is stored only inside the safety range. *)
Definition handleWheel (deltaY : R) (n : Nav) : Nav :=
  let zoomSpeed := 0.15 in
  let delta := - sign deltaY * zoomSpeed in
  let newZoom := zoom n * (1 + delta) in
  if Rltb 0.0001 newZoom && Rltb newZoom 100000
  then {| zoom := newZoom; pan := pan n |}
  else n.

(** *** The tracking callback *)

Definition mapX (x : R) : R := (x - 0.5) * 4.
Definition mapY (y : R) : R := (y - 0.5) * -4.

Definition gestureLabel (clap smash snap victory punch fist pinch palm : bool)
  : string :=
  if clap then "CLAP (MODE SWITCH)"
  else if smash then "SMASH (RESET)"
  else if snap then "SNAP (COLOR)"
  else if victory then "VICTORY (FREEZE)"
  else if punch then "PUNCH (ZOOM)"
  else if fist then "FIST (GRAB)"
  else if pinch then "PINCH (DRAG)"
  else if palm then "PALM (HOVER)"
  else "TRACKING...".

(** [hands.onResults]: one callback on the landmarks of 0 to 2 hands.  It
    updates [gesturesRef] and [physicsRef] in place. *)
Definition onResults (landmarks : list Hand) (g : HandGestures) (ph : Physics)
  : HandGestures * Physics :=
  let count := List.length landmarks in
  match landmarks with
  | [] =>
      ({| indexTip := indexTip g; wristPos := wristPos g;
          isPinching := isPinching g; isPalmOpen := isPalmOpen g;
          isFist := isFist g; isPointing := isPointing g;
          isVictory := isVictory g; isSnapping := isSnapping g;
          isWaving := isWaving g; isClapping := isClapping g;
          isPunching := isPunching g; isTwoHandSmash := isTwoHandSmash g;
          handsDistance := handsDistance g;
          handsCount := count;
          gestureName := "NO HANDS" |}, ph)
  | h1 :: _ =>
      let tip := Vec3 (mapX (lx (lm h1 8))) (mapY (ly (lm h1 8))) (lz (lm h1 8)) in
      let wrist := Vec3 (mapX (lx (lm h1 0))) (mapY (ly (lm h1 0))) (lz (lm h1 0)) in
      (* 1. pinch *)
      let pinchDist := dist (lm h1 4) (lm h1 8) in
      let pinching := Rltb pinchDist 0.05 in
      (* 2. fist *)
      let avgTipDist := tipSum h1 / 4 in
      let fist := Rltb avgTipDist 0.25 in
      (* 3. palm open *)
      let palm := negb fist && negb pinching && Rltb 0.4 avgTipDist in
      (* 4. victory *)
      let ringDist := dist (lm h1 16) (lm h1 0) in
      let pinkyDist := dist (lm h1 20) (lm h1 0) in
      let indexDist := dist (lm h1 8) (lm h1 0) in
      let middleDist := dist (lm h1 12) (lm h1 0) in
      let victory := Rltb 0.4 indexDist && Rltb 0.4 middleDist
                     && Rltb ringDist 0.3 && Rltb pinkyDist 0.3 in
      (* 5. punch *)
      let currentZ := lz (lm h1 0) in
      let deltaZ := currentZ - prevWristZ ph in
      let velocity := Rabs deltaZ in
      let punching := Rltb 0.1 velocity && fist in
      (* 6. two hands: both flags are cleared, then set from the second hand *)
      let '(clapping, smash, handDistance) :=
        if Nat.eqb count 2 then
          let h2 := nth 1 landmarks [] in
          let handDist := dist (lm h1 0) (lm h2 0) in
          let isH2Fist := Rltb (tipSum h2 / 4) 0.25 in
          (Rltb handDist 0.1,
           fist && isH2Fist && Rltb handDist 0.15,
           handDist)
        else (false, false, handsDistance g) in
      (* 7. snap *)
      let middleThumbDist := dist (lm h1 12) (lm h1 4) in
      let snapping := Rltb middleThumbDist 0.04
                      && Rltb 0.4 (dist (lm h1 8) (lm h1 0)) in
      ({| indexTip := tip; wristPos := wrist;
          isPinching := pinching; isPalmOpen := palm;
          isFist := fist; isPointing := isPointing g;
          isVictory := victory; isSnapping := snapping;
          isWaving := isWaving g; isClapping := clapping;
          isPunching := punching; isTwoHandSmash := smash;
          handsDistance := handDistance;
          handsCount := count;
          gestureName :=
            gestureLabel clapping smash snapping victory punching fist
                         pinching palm |},
       {| prevWristZ := currentZ; punchVelocity := velocity;
          clapCooldown := clapCooldown ph; snapCooldown := snapCooldown ph;
          lastHandPos := lastHandPos ph;
          wasFist := wasFist ph; wasPunching := wasPunching ph;
          wasVictory := wasVictory ph; wasSmash := wasSmash ph |})
  end.

(** What [hands.send] does with a video frame: it delivers the landmarks to
    the callback, or it fails and the error is swallowed. *)
Inductive Exchange : Type :=
  | Failed
  | Delivered (landmarks : list Hand).

(** [processVideoFrame]: one tracking exchange.  [ready] is the video
    element's [readyState >= 2] with the tracker in place. *)
Definition processVideoFrame (interactive ready : bool) (x : Exchange)
  (g : HandGestures) (ph : Physics) : HandGestures * Physics :=
  if negb interactive then (g, ph)
  else if ready then
    match x with
    | Failed => (g, ph)
    | Delivered landmarks => onResults landmarks g ph
    end
  else (g, ph).

(** *** The render loop *)

(** Everything [animate] reads and writes across frames: the React state
    [interactionMode] with the ref the loop reads it through, the physics and
    navigation refs, the uniforms of the two materials, the loop's own
    variables and the vibration patterns handed to [triggerHaptic]. *)
Record Loop : Type := {
  interactionMode : InteractionMode;
  interactionModeRef : InteractionMode;
  physics : Physics;
  nav : Nav;
  quadU : Uniforms;
  partU : Uniforms;
  currentModeVal : R;
  evolutionTime : R;
  targetMode : R;
  animPhase : R;
  haptics : list Haptic
}.

Definition initialLoop : Loop := {|
  interactionMode := OBJECT_ORBIT;
  interactionModeRef := OBJECT_ORBIT;
  physics := initialPhysics;
  nav := initialNav;
  quadU := initialQuadU;
  partU := initialPartU;
  currentModeVal := 0;
  evolutionTime := 0;
  targetMode := 0;
  animPhase := 0;
  haptics := []
|}.

Definition set_physics (v : Physics) (w : Loop) : Loop :=
  {| interactionMode := interactionMode w;
     interactionModeRef := interactionModeRef w;
     physics := v; nav := nav w; quadU := quadU w; partU := partU w;
     currentModeVal := currentModeVal w; evolutionTime := evolutionTime w;
     targetMode := targetMode w; animPhase := animPhase w;
     haptics := haptics w |}.

Definition set_nav (v : Nav) (w : Loop) : Loop :=
  {| interactionMode := interactionMode w;
     interactionModeRef := interactionModeRef w;
     physics := physics w; nav := v; quadU := quadU w; partU := partU w;
     currentModeVal := currentModeVal w; evolutionTime := evolutionTime w;
     targetMode := targetMode w; animPhase := animPhase w;
     haptics := haptics w |}.

Definition set_quadU (v : Uniforms) (w : Loop) : Loop :=
  {| interactionMode := interactionMode w;
     interactionModeRef := interactionModeRef w;
     physics := physics w; nav := nav w; quadU := v; partU := partU w;
     currentModeVal := currentModeVal w; evolutionTime := evolutionTime w;
     targetMode := targetMode w; animPhase := animPhase w;
     haptics := haptics w |}.

Definition set_partU (v : Uniforms) (w : Loop) : Loop :=
  {| interactionMode := interactionMode w;
     interactionModeRef := interactionModeRef w;
     physics := physics w; nav := nav w; quadU := quadU w; partU := v;
     currentModeVal := currentModeVal w; evolutionTime := evolutionTime w;
     targetMode := targetMode w; animPhase := animPhase w;
     haptics := haptics w |}.

Definition set_currentModeVal (v : R) (w : Loop) : Loop :=
  {| interactionMode := interactionMode w;
     interactionModeRef := interactionModeRef w;
     physics := physics w; nav := nav w; quadU := quadU w; partU := partU w;
     currentModeVal := v; evolutionTime := evolutionTime w;
     targetMode := targetMode w; animPhase := animPhase w;
     haptics := haptics w |}.

Definition set_evolutionTime (v : R) (w : Loop) : Loop :=
  {| interactionMode := interactionMode w;
     interactionModeRef := interactionModeRef w;
     physics := physics w; nav := nav w; quadU := quadU w; partU := partU w;
     currentModeVal := currentModeVal w; evolutionTime := v;
     targetMode := targetMode w; animPhase := animPhase w;
     haptics := haptics w |}.

Definition set_targetMode (v : R) (w : Loop) : Loop :=
  {| interactionMode := interactionMode w;
     interactionModeRef := interactionModeRef w;
     physics := physics w; nav := nav w; quadU := quadU w; partU := partU w;
     currentModeVal := currentModeVal w; evolutionTime := evolutionTime w;
     targetMode := v; animPhase := animPhase w;
     haptics := haptics w |}.

Definition set_animPhase (v : R) (w : Loop) : Loop :=
  {| interactionMode := interactionMode w;
     interactionModeRef := interactionModeRef w;
     physics := physics w; nav := nav w; quadU := quadU w; partU := partU w;
     currentModeVal := currentModeVal w; evolutionTime := evolutionTime w;
     targetMode := targetMode w; animPhase := v;
     haptics := haptics w |}.

(** [setInteractionMode(newMode)]: the React state changes now; the ref
    follows when the effect [syncInteractionMode] runs after the re-render. *)
Definition setInteractionMode (v : InteractionMode) (w : Loop) : Loop :=
  {| interactionMode := v;
     interactionModeRef := interactionModeRef w;
     physics := physics w; nav := nav w; quadU := quadU w; partU := partU w;
     currentModeVal := currentModeVal w; evolutionTime := evolutionTime w;
     targetMode := targetMode w; animPhase := animPhase w;
     haptics := haptics w |}.

(** [useEffect(() => { interactionModeRef.current = interactionMode; },
                [interactionMode])] *)
Definition syncInteractionMode (w : Loop) : Loop :=
  {| interactionMode := interactionMode w;
     interactionModeRef := interactionMode w;
     physics := physics w; nav := nav w; quadU := quadU w; partU := partU w;
     currentModeVal := currentModeVal w; evolutionTime := evolutionTime w;
     targetMode := targetMode w; animPhase := animPhase w;
     haptics := haptics w |}.

(** [triggerHaptic(pattern)]: the pattern is appended to the log. *)
Definition triggerHaptic (pattern : Haptic) (w : Loop) : Loop :=
  {| interactionMode := interactionMode w;
     interactionModeRef := interactionModeRef w;
     physics := physics w; nav := nav w; quadU := quadU w; partU := partU w;
     currentModeVal := currentModeVal w; evolutionTime := evolutionTime w;
     targetMode := targetMode w; animPhase := animPhase w;
     haptics := haptics w ++ [pattern] |}.

(** Field assignments on the refs. *)
Definition set_clapCooldown (v : R) (w : Loop) : Loop :=
  let ph := physics w in
  set_physics {| prevWristZ := prevWristZ ph; punchVelocity := punchVelocity ph;
                 clapCooldown := v; snapCooldown := snapCooldown ph;
                 lastHandPos := lastHandPos ph; wasFist := wasFist ph;
                 wasPunching := wasPunching ph; wasVictory := wasVictory ph;
                 wasSmash := wasSmash ph |} w.

Definition set_snapCooldown (v : R) (w : Loop) : Loop :=
  let ph := physics w in
  set_physics {| prevWristZ := prevWristZ ph; punchVelocity := punchVelocity ph;
                 clapCooldown := clapCooldown ph; snapCooldown := v;
                 lastHandPos := lastHandPos ph; wasFist := wasFist ph;
                 wasPunching := wasPunching ph; wasVictory := wasVictory ph;
                 wasSmash := wasSmash ph |} w.

Definition set_lastHandPos (v : vec3) (w : Loop) : Loop :=
  let ph := physics w in
  set_physics {| prevWristZ := prevWristZ ph; punchVelocity := punchVelocity ph;
                 clapCooldown := clapCooldown ph;
                 snapCooldown := snapCooldown ph;
                 lastHandPos := v; wasFist := wasFist ph;
                 wasPunching := wasPunching ph; wasVictory := wasVictory ph;
                 wasSmash := wasSmash ph |} w.

Definition set_was (fist punching victory smash : bool) (w : Loop) : Loop :=
  let ph := physics w in
  set_physics {| prevWristZ := prevWristZ ph; punchVelocity := punchVelocity ph;
                 clapCooldown := clapCooldown ph;
                 snapCooldown := snapCooldown ph;
                 lastHandPos := lastHandPos ph; wasFist := fist;
                 wasPunching := punching; wasVictory := victory;
                 wasSmash := smash |} w.

Definition set_zoom (v : R) (w : Loop) : Loop :=
  set_nav {| zoom := v; pan := pan (nav w) |} w.

Definition set_pan (v : vec2) (w : Loop) : Loop :=
  set_nav {| zoom := zoom (nav w); pan := v |} w.

(** [u]: the uniforms of the material in use,
    [p.interactiveMode ? particles : quad]. *)
Definition getU (interactive : bool) (w : Loop) : Uniforms :=
  if interactive then partU w else quadU w.

Definition updU (interactive : bool) (f : Uniforms -> Uniforms) (w : Loop)
  : Loop :=
  if interactive then set_partU (f (partU w)) w else set_quadU (f (quadU w)) w.

Definition toggleMode (m : InteractionMode) : InteractionMode :=
  match m with
  | OBJECT_ORBIT => IMMERSIVE_FLY
  | IMMERSIVE_FLY => OBJECT_ORBIT
  end.

Section Frame.

Variable p : Props.
Variable g : HandGestures.
(** [dt = Math.min(clock.getDelta(), 0.1)] and
    [mode = interactionModeRef.current], both read once at the top of the
    frame. *)
Variable dt : R.
Variable imode : InteractionMode.

Let inter : bool := interactiveMode p.

(** 1. Clap: toggle the interaction mode, then count the cooldown down. *)
Definition clapStep (w : Loop) : Loop :=
  let w :=
    if isClapping g && Rleb (clapCooldown (physics w)) 0 then
      let newMode := toggleMode imode in
      let w := setInteractionMode newMode w in
      let w := triggerHaptic [50; 50; 50]%nat w in
      set_clapCooldown 1 w
    else w in
  if Rlt_dec 0 (clapCooldown (physics w))
  then set_clapCooldown (clapCooldown (physics w) - dt) w
  else w.

(** 2. Snap: advance the palette, then count the cooldown down. *)
Definition snapStep (w : Loop) : Loop :=
  let w :=
    if isSnapping g && Rleb (snapCooldown (physics w)) 0 then
      let w := updU inter (fun u => set_uColorMode (jsrem (uColorMode u + 1) 5) u) w in
      let w := triggerHaptic [50]%nat w in
      set_snapCooldown 0.5 w
    else w in
  if Rlt_dec 0 (snapCooldown (physics w))
  then set_snapCooldown (snapCooldown (physics w) - dt) w
  else w.

(** 3. Punch: rapid zoom pulse. *)
Definition punchStep (w : Loop) : Loop :=
  if isPunching g then
    let w := set_zoom (zoom (nav w) * (1 + dt * 3)) w in
    if negb (wasPunching (physics w)) then triggerHaptic [40]%nat w else w
  else w.

(** 4. Two-hand smash: reset the navigation, massive repel. *)
Definition smashStep (w : Loop) : Loop :=
  if isTwoHandSmash g then
    let w := set_zoom 1 w in
    let w := set_pan (Vec2 0 0) w in
    let w := updU inter (set_uRepelStrength 5) w in
    if negb (wasSmash (physics w)) then triggerHaptic [80; 50; 80]%nat w else w
  else w.

(** 5. Victory: freeze time. *)
Definition victoryStep (w : Loop) : Loop :=
  if isVictory g then
    let w := set_evolutionTime (evolutionTime w - dt) w in
    if negb (wasVictory (physics w)) then triggerHaptic [30; 30]%nat w else w
  else w.

(** 6. Fist: a click on grab. *)
Definition fistStep (w : Loop) : Loop :=
  if isFist g && negb (wasFist (physics w)) then triggerHaptic [20]%nat w
  else w.

(** Navigation in the two interaction sub-modes. *)
Definition navigationStep (w : Loop) : Loop :=
  match imode with
  | OBJECT_ORBIT =>
      if isFist g then
        let deltaX := (px (indexTip g) - px (lastHandPos (physics w))) * 2.5 in
        let deltaY := (py (indexTip g) - py (lastHandPos (physics w))) * 2.5 in
        set_pan (Vec2 (vx (pan (nav w)) + deltaX) (vy (pan (nav w)) - deltaY)) w
      else if isPinching g then
        let zoomFactor :=
          1 + (py (indexTip g) - py (lastHandPos (physics w))) * 1.5 in
        set_zoom (zoom (nav w) * zoomFactor) w
      else w
  | IMMERSIVE_FLY =>
      if isFist g then set_zoom (zoom (nav w) * (1 + dt * 0.8)) w
      else if isPalmOpen g then
        let steerX := px (indexTip g) * 0.8 in
        let steerY := py (indexTip g) * 0.8 in
        set_pan (Vec2 (vx (pan (nav w)) + steerX * dt)
                      (vy (pan (nav w)) + steerY * dt)) w
      else w
  end.

(** The gesture-based state machine:
    [if (p.interactiveMode && g.handsCount > 0) { ... } else { ... }]. *)
Definition gestureBlock (w : Loop) : Loop :=
  if inter && Nat.ltb 0 (handsCount g) then
    let w := clapStep w in
    let w := snapStep w in
    let w := punchStep w in
    let w := smashStep w in
    let w := victoryStep w in
    let w := fistStep w in
    let w := set_was (isFist g) (isPunching g) (isVictory g)
                     (isTwoHandSmash g) w in
    let w := navigationStep w in
    set_lastHandPos (indexTip g) w
  else
    set_was false false (wasVictory (physics w)) (wasSmash (physics w)) w.

(** The animation presets. *)
Definition presetBlock (w : Loop) : Loop :=
  let w := set_animPhase (animPhase w + dt) w in
  let w :=
    match activeAnimation p with
    | MANDELBROT_DIVE =>
        let w := set_targetMode 2 w in
        let w := set_zoom (Rpower 1.8 (animPhase w)) w in
        set_pan (Vec2 (-0.74364388703) 0.13182590421) w
    | JULIA_MORPH =>
        let w := set_targetMode 1 w in
        updU inter
          (fun u => set_uJuliaC (Vec2 (cos (animPhase w * 0.5) * 0.7885)
                                      (sin (animPhase w * 0.3) * 0.7885)) u) w
    | _ => set_targetMode (jsrem (floorR (animPhase w / 5)) 7) w
    end in
  let w := updU inter (set_uZoom (zoom (nav w))) w in
  updU inter (fun u => set_uPan (lerp2 (uPan u) (pan (nav w)) 0.1) u) w.

Definition modeIndex (m : FractalMode) : R :=
  match m with
  | JULIA_2D => 1
  | MANDELBROT => 2
  | TRICORN => 3
  | BURNING_SHIP => 4
  | MANDELBULB_3D => 0
  | MENGER_SPONGE => 5
  | SIERPINSKI => 6
  end.

(** The force targets by priority: smash, fist, pinch, hover.  The result is
    the pair [(attract, repel)]. *)
Definition forceTargets : R * R :=
  if isTwoHandSmash g then (0, 10)
  else if isFist g then (3, 0)
  else if isPinching g then (1, 0)
  else (0, 0.5).

(** The manual updates. *)
Definition manualBlock (w : Loop) : Loop :=
  let w := set_targetMode (modeIndex (mode p)) w in
  let w :=
    if negb inter
    then updU inter (set_uMaxIter (orDefault (iterations p) 100)) w
    else w in
  let w := updU inter (set_uPower (orDefault (power p) 8)) w in
  let smoothLambda := 10 in
  let w := updU inter
             (fun u => set_uZoom (damp (uZoom u) (zoom (nav w)) smoothLambda dt) u)
             w in
  let vecDampFactor := 1 - exp (- smoothLambda * dt) in
  let w := updU inter
             (fun u => set_uPan (lerp2 (uPan u) (pan (nav w)) vecDampFactor) u)
             w in
  if inter && Nat.ltb 0 (handsCount g) then
    let w := updU inter
               (set_uHandPos (Vec3 (px (indexTip g)) (py (indexTip g)) 0)) w in
    let '(attract, repel) := forceTargets in
    let w := updU inter
               (fun u => set_uAttractStrength
                           (damp (uAttractStrength u)
                                 (attract * attractionSensitivity p) 8 dt) u)
               w in
    updU inter
      (fun u => set_uRepelStrength
                  (damp (uRepelStrength u)
                        (repel * attractionSensitivity p) 8 dt) u)
      w
  else w.

(** The tail of the frame: time and the damped mode value. *)
Definition publishStep (w : Loop) : Loop :=
  let w := set_evolutionTime (evolutionTime w + dt * 0.2) w in
  let w := updU inter (set_uTime (evolutionTime w)) w in
  let w := set_currentModeVal (damp (currentModeVal w) (targetMode w) 5 dt) w in
  updU inter (set_uMode (currentModeVal w)) w.

Definition frameBody (w : Loop) : Loop :=
  let w := gestureBlock w in
  let w := if negb (isNONE (activeAnimation p)) then presetBlock w
           else manualBlock w in
  publishStep w.

End Frame.

(** [animate]: one display frame; [delta] is [clock.getDelta()].  Mesh
    visibility, the resize handling and the draw call write none of the
    state kept here and are left out. *)
Definition animate (p : Props) (g : HandGestures) (delta : R) (w : Loop)
  : Loop :=
  let dt := Rmin delta 0.1 in
  frameBody p g dt (interactionModeRef w) w.

(** One frame of a run: [animate], then the React effect. *)
Definition frame (p : Props) (g : HandGestures) (delta : R) (w : Loop) : Loop :=
  syncInteractionMode (animate p g delta w).

(** A run of frames over one held gesture state. *)
Fixpoint run (p : Props) (g : HandGestures) (deltas : list R) (w : Loop)
  : Loop :=
  match deltas with
  | [] => w
  | d :: rest => run p g rest (frame p g d w)
  end.

(** The number of times the clap action has fired: each firing hands the
    pattern [50, 50, 50] to [triggerHaptic], and nothing else does. *)
Definition clapPattern (h : Haptic) : bool :=
  match h with
  | [50; 50; 50]%nat => true
  | _ => false
  end.

Definition clapFires (w : Loop) : nat :=
  List.length (filter clapPattern (haptics w)).

(** The clap timer together with the count of firings. *)
Definition clapView (w : Loop) : R * nat :=
  (clapCooldown (physics w), clapFires w).

End Vis.

(** ** The reduced component ([components/FractalVis], "reduced +
       stabilized" gestures) *)

Module Reduced.

Import Shader Vis.

(** [onWheel]: the same guard as [Vis.handleWheel] with a lower ceiling. *)
Definition onWheel (deltaY : R) (n : Nav) : Nav :=
  let delta := - sign deltaY * 0.15 in
  let nextZoom := zoom n * (1 + delta) in
  if Rltb 0.0001 nextZoom && Rltb nextZoom 50000
  then {| zoom := nextZoom; pan := pan n |}
  else n.

(** [hands.onResults]: it returns right after the label on an empty frame, and
    leaves the two-hand flags, the punch flag and [physicsRef] alone. *)
Definition onResults (lms : list Hand) (g : HandGestures) : HandGestures :=
  let count := List.length lms in
  match lms with
  | [] =>
      {| indexTip := indexTip g; wristPos := wristPos g;
         isPinching := isPinching g; isPalmOpen := isPalmOpen g;
         isFist := isFist g; isPointing := isPointing g;
         isVictory := isVictory g; isSnapping := isSnapping g;
         isWaving := isWaving g; isClapping := isClapping g;
         isPunching := isPunching g; isTwoHandSmash := isTwoHandSmash g;
         handsDistance := handsDistance g;
         handsCount := count;
         gestureName := "NO HANDS" |}
  | h1 :: _ =>
      let tip := Vec3 (mapX (lx (lm h1 8))) (mapY (ly (lm h1 8))) (lz (lm h1 8)) in
      let pinch := dist (lm h1 4) (lm h1 8) in
      let pinching := Rltb pinch 0.05 in
      let avg := tipSum h1 / 4 in
      let fist := Rltb avg 0.25 in
      let palm := negb fist && negb pinching && Rltb 0.4 avg in
      let middle := dist (lm h1 12) (lm h1 0) in
      let victory := Rltb 0.4 middle && Rltb avg 0.3 in
      let snapDist := dist (lm h1 12) (lm h1 4) in
      let snapping := Rltb snapDist 0.04 in
      {| indexTip := tip; wristPos := wristPos g;
         isPinching := pinching; isPalmOpen := palm;
         isFist := fist; isPointing := isPointing g;
         isVictory := victory; isSnapping := snapping;
         isWaving := isWaving g; isClapping := isClapping g;
         isPunching := isPunching g; isTwoHandSmash := isTwoHandSmash g;
         handsDistance := handsDistance g;
         handsCount := count;
         gestureName :=
           if snapping then "SNAP"
           else if fist then "FIST"
           else if palm then "PALM"
           else if pinching then "PINCH"
           else "TRACKING..." |}
  end.

Section Frame.

Variable p : Props.
Variable g : HandGestures.
Variable dt : R.
Variable imode : InteractionMode.

Let inter : bool := interactiveMode p.

(** Clap: toggle the mode; cooldown 0.8 s. *)
Definition clapStep (w : Loop) : Loop :=
  let w :=
    if isClapping g && Rleb (clapCooldown (physics w)) 0 then
      let newMode := toggleMode imode in
      let w := setInteractionMode newMode w in
      let w := triggerHaptic [40; 40]%nat w in
      set_clapCooldown 0.8 w
    else w in
  if Rlt_dec 0 (clapCooldown (physics w))
  then set_clapCooldown (clapCooldown (physics w) - dt) w
  else w.

(** Snap: change the colour palette; cooldown 0.4 s. *)
Definition snapStep (w : Loop) : Loop :=
  let w :=
    if isSnapping g && Rleb (snapCooldown (physics w)) 0 then
      let w := updU inter (fun u => set_uColorMode (jsrem (uColorMode u + 1) 5) u) w in
      let w := triggerHaptic [30]%nat w in
      set_snapCooldown 0.4 w
    else w in
  if Rlt_dec 0 (snapCooldown (physics w))
  then set_snapCooldown (snapCooldown (physics w) - dt) w
  else w.

(** The hand position and the forces for the particles. *)
Definition forceStep (w : Loop) : Loop :=
  if inter then
    let w := updU inter
               (set_uHandPos (Vec3 (px (indexTip g)) (py (indexTip g)) 0)) w in
    let attract := if isFist g then 3 else if isPinching g then 1.2 else 0 in
    let repel := if isPalmOpen g then 0.8 else 0 in
    let w := updU inter
               (fun u => set_uAttractStrength
                           (damp (uAttractStrength u)
                                 (attract * attractionSensitivity p) 10 dt) u)
               w in
    updU inter
      (fun u => set_uRepelStrength
                  (damp (uRepelStrength u)
                        (repel * attractionSensitivity p) 10 dt) u)
      w
  else w.

(** Movement in the orbit and fly modes. *)
Definition movementStep (w : Loop) : Loop :=
  match imode with
  | OBJECT_ORBIT =>
      if isFist g then
        set_pan
          (Vec2 (vx (pan (nav w))
                 + (px (indexTip g) - px (lastHandPos (physics w))) * 1.4)
                (vy (pan (nav w))
                 - (py (indexTip g) - py (lastHandPos (physics w))) * 1.4)) w
      else w
  | IMMERSIVE_FLY =>
      if isPalmOpen g then
        set_pan (Vec2 (vx (pan (nav w)) + px (indexTip g) * dt * 0.5)
                      (vy (pan (nav w)) + py (indexTip g) * dt * 0.5)) w
      else w
  end.

Definition gestureBlock (w : Loop) : Loop :=
  if inter && Nat.ltb 0 (handsCount g) then
    let w := clapStep w in
    let w := snapStep w in
    let w := forceStep w in
    let w := movementStep w in
    set_lastHandPos (indexTip g) w
  else w.

Definition modeIndex (m : FractalMode) : R :=
  match m with
  | JULIA_2D => 1
  | MANDELBROT => 2
  | TRICORN => 3
  | BURNING_SHIP => 4
  | MANDELBULB_3D => 0
  | MENGER_SPONGE => 5
  | SIERPINSKI => 6
  end.

Definition presetBlock (w : Loop) : Loop :=
  let w := set_animPhase (animPhase w + dt) w in
  match activeAnimation p with
  | MANDELBROT_DIVE =>
      let w := set_targetMode 2 w in
      let w := set_zoom (zoom (nav w) * 1.015) w in
      set_pan (Vec2 (-0.74364388703) 0.13182590421) w
  | JULIA_MORPH =>
      let w := set_targetMode 1 w in
      updU inter
        (fun u => set_uJuliaC (Vec2 (sin (animPhase w * 0.4) * 0.7)
                                    (cos (animPhase w * 0.3) * 0.7)) u) w
  | _ => w
  end.

Definition normalBlock (w : Loop) : Loop :=
  let w := set_targetMode (modeIndex (mode p)) w in
  if negb inter then updU inter (set_uMaxIter (iterations p)) w else w.

Definition syncStep (w : Loop) : Loop :=
  let w := set_evolutionTime (evolutionTime w + dt * 0.2) w in
  let w := updU inter (set_uTime (evolutionTime w)) w in
  let w := set_currentModeVal (damp (currentModeVal w) (targetMode w) 6 dt) w in
  let w := updU inter (set_uMode (currentModeVal w)) w in
  let w := updU inter (fun u => set_uZoom (damp (uZoom u) (zoom (nav w)) 8 dt) u) w in
  let vecDamp := 1 - exp (- 8 * dt) in
  updU inter (fun u => set_uPan (lerp2 (uPan u) (pan (nav w)) vecDamp) u) w.

Definition frameBody (w : Loop) : Loop :=
  let w := gestureBlock w in
  let w := if negb (isNONE (activeAnimation p)) then presetBlock w
           else normalBlock w in
  syncStep w.

End Frame.

Definition animate (p : Props) (g : HandGestures) (delta : R) (w : Loop)
  : Loop :=
  let dt := Rmin delta 0.1 in
  frameBody p g dt (interactionModeRef w) w.

Definition frame (p : Props) (g : HandGestures) (delta : R) (w : Loop) : Loop :=
  syncInteractionMode (animate p g delta w).

Fixpoint run (p : Props) (g : HandGestures) (deltas : list R) (w : Loop)
  : Loop :=
  match deltas with
  | [] => w
  | d :: rest => run p g rest (frame p g d w)
  end.

(** Each firing of the clap action hands the pattern [40, 40] to
    [triggerHaptic], and nothing else does. *)
Definition clapPattern (h : Haptic) : bool :=
  match h with
  | [40; 40]%nat => true
  | _ => false
  end.

Definition clapFires (w : Loop) : nat :=
  List.length (filter clapPattern (haptics w)).

Definition clapView (w : Loop) : R * nat :=
  (clapCooldown (physics w), clapFires w).

End Reduced.

(** ** The particle component with the preset engine ([FractalVis] over the
       particle shader) *)

Module Legacy.

Import Shader.

(** [HandGestures] as this component declares it. *)
Record HandGestures : Type := {
  indexTip : vec3;
  isPinching : bool;
  pinchDistance : R;
  isPalmOpen : bool;
  isFist : bool;
  isSnapping : bool;
  isWaving : bool;
  isStopped : bool;
  wristRotation : R;
  isVisible : bool;
  isClapping : bool;
  handsDistance : R
}.

Record Nav : Type := { zoom : R; pan : vec2 }.

(** [smoothedRef]. *)
Record Smoothed : Type := {
  handPos : vec3;
  pinch : R;
  rotation : R;
  attract : R;
  repel : R
}.

Record Params : Type := {
  attractionSensitivity : R;
  pinchSensitivity : R;
  morphSpeed : R;
  iterations : R;
  power : R;
  interactiveMode : bool;
  colorMode : R
}.

(** [const lerp = (start, end, t) => start * (1 - t) + end * t] *)
Definition lerp (start end_ t : R) : R := start * (1 - t) + end_ * t.

(** [Vector3.lerp(v, alpha)] of three.js. *)
Definition lerp3 (this v : vec3) (alpha : R) : vec3 :=
  Vec3 (px this + (px v - px this) * alpha) (py this + (py v - py this) * alpha)
       (pz this + (pz v - pz this) * alpha).

(** [handleWheel]: the zoom is clamped after every step. *)
Definition handleWheel (deltaY : R) (n : Nav) : Nav :=
  let zoomSpeed := 0.05 in
  let delta := - sign deltaY * zoomSpeed in
  let z := zoom n * (1 + delta) in
  {| zoom := Rmax 0.1 (Rmin z 10000); pan := pan n |}.

(** JavaScript [Math.atan2], which answers 0 where GLSL leaves the value
    open. *)
Definition atan2 (y x : R) : R :=
  match fatan2 y x with
  | Some a => a
  | None => 0
  end.

Definition d2 (a b : Landmark) : R :=
  sqrt ((lx a - lx b) ^ 2 + (ly a - ly b) ^ 2).

Definition maxList (l : list R) : R :=
  match l with
  | [] => 0
  | a :: r => fold_left Rmax r a
  end.

Definition minList (l : list R) : R :=
  match l with
  | [] => 0
  | a :: r => fold_left Rmin r a
  end.

(** [hands.onResults], on [gesturesRef] and the wave history. *)
Definition onResults (landmarks : list Hand) (g : HandGestures)
  (waveHistory : list R) : HandGestures * list R :=
  match landmarks with
  | [] =>
      ({| indexTip := indexTip g; isPinching := isPinching g;
          pinchDistance := pinchDistance g; isPalmOpen := isPalmOpen g;
          isFist := isFist g; isSnapping := isSnapping g;
          isWaving := isWaving g; isStopped := isStopped g;
          wristRotation := wristRotation g; isVisible := false;
          isClapping := isClapping g; handsDistance := handsDistance g |},
       waveHistory)
  | hand1 :: _ =>
      let tip := Vec3 ((lx (lm hand1 8) - 0.5) * -12)
                      ((ly (lm hand1 8) - 0.5) * -8) 0 in
      let dist := d2 (lm hand1 4) (lm hand1 8) in
      let pinching := Rltb dist 0.05 in
      let snapping := Rltb (d2 (lm hand1 4) (lm hand1 12)) 0.04
                      && Rltb 0.06 dist in
      let rot := atan2 (ly (lm hand1 0) - ly (lm hand1 9))
                       (lx (lm hand1 0) - lx (lm hand1 9)) in
      let palmDist := d2 (lm hand1 5) (lm hand1 17) in
      let palm := Rltb 0.15 palmDist && negb pinching in
      let stopped := palm in
      (* fist check *)
      let tipSum :=
        fold_left (fun acc i => acc + d2 (lm hand1 i) (lm hand1 0))
                  [8; 12; 16; 20]%nat 0 in
      let fist := Rltb (tipSum / 4) 0.3 && negb palm in
      (* wave check *)
      let h := waveHistory ++ [lx (lm hand1 9)] in
      let h := if Nat.ltb 20 (List.length h) then tl h else h in
      let range :=
        if Nat.ltb 10 (List.length h) then maxList h - minList h else 0 in
      let waving := Rltb 0.25 range && negb fist in
      (* clap check *)
      let clapping :=
        if Nat.eqb (List.length landmarks) 2
        then Rltb (d2 (lm hand1 9) (lm (nth 1 landmarks []) 9)) 0.12
        else false in
      ({| indexTip := tip; isPinching := pinching;
          pinchDistance := dist; isPalmOpen := palm;
          isFist := fist; isSnapping := snapping;
          isWaving := waving; isStopped := stopped;
          wristRotation := rot; isVisible := true;
          isClapping := clapping; handsDistance := handsDistance g |},
       h)
  end.

(** What [animate] reads and writes across frames.  [u.uPan.value] is made
    the very object [navRef.current.pan]; at the end of a frame, where the
    scene is drawn, the two hold the same value. *)
Record Loop : Type := {
  nav : Nav;
  u : Uniforms;
  smoothed : Smoothed;
  evolutionTime : R;
  currentModeVal : R;
  currentJulia : vec2;
  animPhase : R;
  targetMode : R;
  cameraPos : vec3;
  rotationY : R
}.

Definition modeIndex (m : FractalMode) : R :=
  match m with
  | JULIA_2D => 1
  | MANDELBROT => 2
  | TRICORN => 3
  | BURNING_SHIP => 4
  | MENGER_SPONGE => 5
  | SIERPINSKI => 6
  | MANDELBULB_3D => 0
  end.

Definition b2r (b : bool) : R := if b then 1 else 0.

Section Frame.

Variable mode : FractalMode.
Variable anim : AnimationPreset.
Variable prm : Params.
Variable g : HandGestures.
Variable dt : R.

(** The animation presets engine: the controls are overridden by the
    preset.  The result is the new
    [(nav, u, evolutionTime, animPhase, targetMode)]. *)
Definition presetEngine (w : Loop) : Nav * Uniforms * R * R * R :=
  let animPhase := animPhase w + dt in
  let n := nav w in
  let '(n, un, evo, target) :=
    match anim with
    | MANDELBROT_DIVE =>
        let z := zoom n * (1 + dt * 0.5) in
        let tx := -0.745 in
        let ty := 0.186 in
        ({| zoom := z;
            pan := Vec2 (lerp (vx (pan n)) tx (dt * 0.1))
                        (lerp (vy (pan n)) ty (dt * 0.1)) |},
         set_uMaxIter 100 (u w), evolutionTime w, 2)
    | JULIA_MORPH =>
        ({| zoom := 1.2; pan := Vec2 0 0 |},
         set_uJuliaC (Vec2 (sin (animPhase * 0.5) * 0.7)
                           (cos (animPhase * 0.3) * 0.7)) (u w),
         evolutionTime w, 1)
    | UNIVERSE_TOUR =>
        let cycle := jsrem (animPhase * 0.2) 7 in
        (n, set_uVisualMode 1 (u w), evolutionTime w, floorR cycle)
    | COLOR_SYMPHONY =>
        (n, u w, evolutionTime w + dt * 5, currentModeVal w)
    | INFINITY_ZOOM =>
        let z := zoom n * 1.01 in
        let z := if Rlt_dec 1000 z then 1 else z in
        ({| zoom := z; pan := pan n |}, u w, evolutionTime w, 2)
    | _ => (n, u w, evolutionTime w, targetMode w)
    end in
  (n, set_uVisualMode 1 un, evo, animPhase, target).

(** The standard interactive logic.  The result is the new
    [(u, smoothed, evolutionTime, currentJulia, targetMode, cameraPos)]. *)
Definition standardLogic (w : Loop)
  : Uniforms * Smoothed * R * vec2 * R * vec3 :=
  let un := set_uMaxIter (iterations prm) (u w) in
  let un := set_uPower (power prm) un in
  let un := set_uColorMode (colorMode prm) un in
  let target := modeIndex mode in
  if interactiveMode prm then
    let evo := if negb (isStopped g) then evolutionTime w + dt
               else evolutionTime w in
    let un := set_uVisualMode 0 un in
    if isVisible g then
      let rawPos := indexTip g in
      let hp := lerp3 (handPos (smoothed w)) rawPos 0.1 in
      let un := set_uHandPos hp un in
      let un := set_uAttractStrength
                  (lerp (uAttractStrength un)
                        (b2r (negb (isPinching g || isStopped g))
                         * attractionSensitivity prm) 0.1) un in
      let un := set_uRepelStrength
                  (lerp (uRepelStrength un)
                        (b2r (isStopped g) * attractionSensitivity prm) 0.1)
                  un in
      let un := set_uPinchScale
                  (lerp (uPinchScale un)
                        (b2r (isPinching g) * pinchSensitivity prm) 0.1) un in
      let un := set_uExplosion
                  (lerp (uExplosion un) (b2r (isClapping g)) 0.1) un in
      let un := set_uChaos (lerp (uChaos un) (b2r (isFist g)) 0.1) un in
      let un := set_uSnap (lerp (uSnap un) (b2r (isSnapping g)) 0.1) un in
      let rot := lerp (rotation (smoothed w)) (wristRotation g)
                      (morphSpeed prm) in
      let julia := Vec2 (0.7885 * cos (rot * 2.5)) (0.7885 * sin (rot * 2.5)) in
      let un := set_uJuliaC julia un in
      let cam :=
        if isWaving g
        then Vec3 (lerp (px (cameraPos w)) (px (indexTip g) * 0.5) 0.05)
                  (py (cameraPos w)) (pz (cameraPos w))
        else cameraPos w in
      (un,
       {| handPos := hp; pinch := pinch (smoothed w); rotation := rot;
          attract := attract (smoothed w); repel := repel (smoothed w) |},
       evo, julia, target, cam)
    else
      let un := set_uHandPos (Vec3 100 100 100) un in
      let un := set_uAttractStrength (uAttractStrength un * 0.95) un in
      (un, smoothed w, evo, currentJulia w, target, cameraPos w)
  else
    let un := set_uVisualMode 1 un in
    let un := set_uHandPos (Vec3 100 100 100) un in
    (un, smoothed w, evolutionTime w, currentJulia w, target, cameraPos w).

(** [animate]: one display frame with [dt = clock.getDelta()]. *)
Definition animate (w : Loop) : Loop :=
  let '(n, un, sm, evo, julia, phase, target, cam) :=
    if negb (isNONE anim) then
      let '(n, un, evo, phase, target) := presetEngine w in
      (n, un, smoothed w, evo, currentJulia w, phase, target, cameraPos w)
    else
      let '(un, sm, evo, julia, target, cam) := standardLogic w in
      (nav w, un, sm, evo, julia, animPhase w, target, cam) in
  (* the common uniforms *)
  let un := set_uMode (uMode un + (target - uMode un) * dt * 3) un in
  let un := set_uTime evo un in
  let un := set_uZoom (zoom n) un in
  let un := set_uPan (pan n) un in
  (* camera orbit *)
  let cam :=
    if interactiveMode prm && (negb (isVisible g) || negb (isWaving g)) then
      Vec3 (sin (evo * 0.1) * 0.5) (cos (evo * 0.15) * 0.5) (pz cam)
    else if negb (interactiveMode prm) || negb (isNONE anim) then Vec3 0 0 5
    else cam in
  {| nav := n; u := un; smoothed := sm; evolutionTime := evo;
     currentModeVal := currentModeVal w; currentJulia := julia;
     animPhase := phase; targetMode := target; cameraPos := cam;
     rotationY := if interactiveMode prm then evo * 0.05 else 0 |}.

End Frame.

(** The initial values of the refs, the uniforms and the loop variables. *)
Definition initialGestures : HandGestures := {|
  indexTip := Vec3 0 0 0;
  isPinching := false;
  pinchDistance := 0;
  isPalmOpen := false;
  isFist := false;
  isSnapping := false;
  isWaving := false;
  isStopped := false;
  wristRotation := 0;
  isVisible := false;
  isClapping := false;
  handsDistance := 100
|}.

Definition initialUniforms : Uniforms := {|
  uTime := 0; uMode := 0; uHandPos := Vec3 100 100 100;
  uAttractStrength := 0; uRepelStrength := 0;
  uPower := 8; uJuliaC := Vec2 0.355 0.355; uPinchScale := 0;
  uExplosion := 0; uChaos := 0; uSnap := 0;
  uMaxIter := 20; uVisualMode := 0; uColorMode := 0;
  uZoom := 1; uPan := Vec2 0 0
|}.

Definition initialLoop : Loop := {|
  nav := {| zoom := 1; pan := Vec2 0 0 |};
  u := initialUniforms;
  smoothed := {| handPos := Vec3 100 100 100; pinch := 0; rotation := 0;
                 attract := 0; repel := 0 |};
  evolutionTime := 0;
  currentModeVal := 0;
  currentJulia := Vec2 0.355 0.355;
  animPhase := 0;
  targetMode := 0;
  cameraPos := Vec3 0 0 5;
  rotationY := 0
|}.

(** The component's default parameters (20 iterations, power 8, interactive
    mode), with unit sensitivities. *)
Definition defaultParams : Params := {|
  attractionSensitivity := 1;
  pinchSensitivity := 1;
  morphSpeed := 1;
  iterations := 20;
  power := 8;
  interactiveMode := true;
  colorMode := 0
|}.

(** A visible pair of hands held together. *)
Definition clapSeen : HandGestures := {|
  indexTip := Vec3 0 0 0;
  isPinching := false;
  pinchDistance := 0.2;
  isPalmOpen := false;
  isFist := false;
  isSnapping := false;
  isWaving := false;
  isStopped := false;
  wristRotation := 0;
  isVisible := true;
  isClapping := true;
  handsDistance := 100
|}.

End Legacy.

(** ** Statements about the tracking callback *)

(** Two gesture states agree on every field but the hands count and the
    display label. *)
Definition sameButCountAndLabel (g g' : Vis.HandGestures) : Prop :=
  Vis.indexTip g' = Vis.indexTip g
  /\ Vis.wristPos g' = Vis.wristPos g
  /\ Vis.isPinching g' = Vis.isPinching g
  /\ Vis.isPalmOpen g' = Vis.isPalmOpen g
  /\ Vis.isFist g' = Vis.isFist g
  /\ Vis.isPointing g' = Vis.isPointing g
  /\ Vis.isVictory g' = Vis.isVictory g
  /\ Vis.isSnapping g' = Vis.isSnapping g
  /\ Vis.isWaving g' = Vis.isWaving g
  /\ Vis.isClapping g' = Vis.isClapping g
  /\ Vis.isPunching g' = Vis.isPunching g
  /\ Vis.isTwoHandSmash g' = Vis.isTwoHandSmash g
  /\ Vis.handsDistance g' = Vis.handsDistance g.

(** Two closed fists, for the two-hand scenario: every landmark of a hand
    sits on one point, the wrists are 0.05 apart. *)
Definition fistAt (x y : R) : Hand := repeat {| lx := x; ly := y; lz := 0 |} 21.
Definition fistA : Hand := fistAt 0.5 0.5.
Definition fistB : Hand := fistAt 0.55 0.5.

(** ** The held-clap scenario *)

(** 1000 frames at 60 frames per second. *)
Definition frames60 : list R := repeat (1 / 60) 1000.

(** The gesture state of two hands held together: the clap boolean is true
    on every frame. *)
Definition clapHeld : Vis.HandGestures := {|
  Vis.indexTip := Vec3 0 0 0;
  Vis.wristPos := Vec3 0 0 0;
  Vis.isPinching := false;
  Vis.isPalmOpen := false;
  Vis.isFist := false;
  Vis.isPointing := false;
  Vis.isVictory := false;
  Vis.isSnapping := false;
  Vis.isWaving := false;
  Vis.isClapping := true;
  Vis.isPunching := false;
  Vis.isTwoHandSmash := false;
  Vis.handsDistance := 0.05;
  Vis.handsCount := 2;
  Vis.gestureName := "CLAP (MODE SWITCH)"
|}.

(** Props of the component: the Mandelbrot mode, the default iteration cap,
    power and palette, unit sensitivities; interactive mode and the preset
    are given. *)
Definition propsWith (interactive : bool) (a : AnimationPreset) : Vis.Props := {|
  Vis.mode := MANDELBROT;
  Vis.attractionSensitivity := 1;
  Vis.pinchSensitivity := 1;
  Vis.morphSpeed := 1;
  Vis.iterations := 100;
  Vis.power := 8;
  Vis.interactiveMode := interactive;
  Vis.activeAnimation := a;
  Vis.colorMode := 1
|}.

(** ** Statements about the navigation zoom *)

(** The range the wheel handler keeps the zoom in ("safety clamp to prevent
    infinity or zero"). *)
Definition zoomSafe (z : R) : Prop := 0.0001 < z < 100000.

(** A pinching hand low in the picture: thumb tip and index tip together at
    [(0.5, 0.75)], the wrist at [(0.5, 0.95)], the other landmarks at
    [(0.5, 0.65)]. *)
Definition pinchHand : Hand :=
  map (fun i : nat =>
         if Nat.eqb i 0 then {| lx := 0.5; ly := 0.95; lz := 0 |}
         else if Nat.eqb i 4 || Nat.eqb i 8
              then {| lx := 0.5; ly := 0.75; lz := 0 |}
              else {| lx := 0.5; ly := 0.65; lz := 0 |})
      (seq 0 21).

(** The gesture state after the first callback on that hand. *)
Definition pinchSeen : Vis.HandGestures :=
  fst (Vis.onResults [pinchHand] Vis.initialGestures Vis.initialPhysics).

(** ** Statements about presets and gestures *)

(** What a frame of the gesture-navigation loop publishes: the zoom and pan
    targets and their smoothed uniforms, the palette id, the interaction
    sub-mode and the force uniforms, read from the material in use. *)
Record Published : Type := {
  pubZoom : R;
  pubPan : vec2;
  pubUZoom : R;
  pubUPan : vec2;
  pubPalette : R;
  pubSubMode : InteractionMode;
  pubAttract : R;
  pubRepel : R
}.

Definition publishedBy (interactive : bool) (w : Vis.Loop) : Published := {|
  pubZoom := Vis.zoom (Vis.nav w);
  pubPan := Vis.pan (Vis.nav w);
  pubUZoom := Shader.uZoom (Vis.getU interactive w);
  pubUPan := Shader.uPan (Vis.getU interactive w);
  pubPalette := Shader.uColorMode (Vis.getU interactive w);
  pubSubMode := Vis.interactionMode w;
  pubAttract := Shader.uAttractStrength (Vis.getU interactive w);
  pubRepel := Shader.uRepelStrength (Vis.getU interactive w)
|}.

(** An active preset makes the published parameters of the
    gesture-navigation loop independent of the gesture state. *)
Definition presetsDisableGestures : Prop :=
  forall (p : Vis.Props) (g1 g2 : Vis.HandGestures) (delta : R) (w : Vis.Loop),
    Vis.activeAnimation p <> NONE ->
    publishedBy (Vis.interactiveMode p) (Vis.animate p g1 delta w)
    = publishedBy (Vis.interactiveMode p) (Vis.animate p g2 delta w).

(** ** Statements about the kernel *)

(** The colour of [getPalette] is a function of its two arguments alone,
    for the palette ids 0 to 4. *)
Definition paletteOfArgsOnly : Prop :=
  forall (u1 u2 : Shader.Uniforms) (t id : R),
    In id [0; 1; 2; 3; 4] ->
    Shader.getPalette u1 t id = Shader.getPalette u2 t id.

(** All channels of a colour lie in [0, 1]. *)
Definition unitColor (c : vec3) : Prop :=
  0 <= px c <= 1 /\ 0 <= py c <= 1 /\ 0 <= pz c <= 1.

(** The binary logarithm where it is defined. *)
Definition log2 (x : R) : R := ln x / ln 2.

(** The start value and the constant of the recurrence, as [IterateFractal]
    picks them. *)
Definition startOf (u : Shader.Uniforms) (pos : vec2) (mode : R) : vec2 :=
  if Rltb (Rabs (mode - 1)) 0.1 then pos else Vec2 0 0.

Definition constOf (u : Shader.Uniforms) (pos : vec2) (mode : R) : vec2 :=
  if Rltb (Rabs (mode - 1)) 0.1 then Shader.uJuliaC u else pos.

(** The [n]-th iterate of the recurrence. *)
Definition orbit (mode : R) (c z0 : vec2) (n : nat) : vec2 :=
  Nat.iter n (Shader.fractalStep mode c) z0.

(** The orbit escapes at count [n]: the iterates 1 to [n] stay within
    [|z|^2 <= 4] and iterate [n + 1] is the first one outside. *)
Definition escapesAt (mode : R) (c z0 : vec2) (n : nat) : Prop :=
  (forall k, (1 <= k <= n)%nat ->
             dot2 (orbit mode c z0 k) (orbit mode c z0 k) <= 4)
  /\ 4 < dot2 (orbit mode c z0 (S n)) (orbit mode c z0 (S n)).

(** A seed inside the Mandelbrot set, and the uniforms of the Mandelbrot
    mode at the initial navigation. *)
Definition insideSeed : Shader.Particle := {|
  Shader.position := Vec3 0.0625 0 0;
  Shader.aSize := 1;
  Shader.aRandom := Vec3 0.5 0.5 0.5
|}.

Definition mandelbrotUniforms : Shader.Uniforms :=
  Shader.set_uMode 2 Legacy.initialUniforms.

(** ** The pointer handlers of the gesture-navigation component *)

Module Mouse.

Import Vis.

(** The drag fields of [navRef]: [isDragging] and [lastMouse].  The
    [velocity] field is only ever reset to zero and is left out. *)
Record Drag : Type := { isDragging : bool; lastMouse : vec2 }.

Definition initialDrag : Drag := {| isDragging := false; lastMouse := Vec2 0 0 |}.

(** [handleMouseDown]: remember the position, start dragging. *)
Definition handleMouseDown (clientX clientY : R) (d : Drag) : Drag :=
  {| isDragging := true; lastMouse := Vec2 clientX clientY |}.

(** [handleMouseMove]: pan against the pointer movement, scaled by
    [0.003 / zoom]; nothing happens outside a drag.  There is no finite pan
    speed at zoom zero. *)
Definition handleMouseMove (clientX clientY : R) (n : Nav) (d : Drag)
  : option (Nav * Drag) :=
  if negb (isDragging d) then Some (n, d)
  else
    let dx := clientX - orDefault (vx (lastMouse d)) 0 in
    let dy := clientY - orDefault (vy (lastMouse d)) 0 in
    obind (fdiv 0.003 (zoom n)) (fun panSpeed =>
    Some ({| zoom := zoom n;
             pan := Vec2 (vx (pan n) - dx * panSpeed)
                         (vy (pan n) + dy * panSpeed) |},
          {| isDragging := isDragging d;
             lastMouse := Vec2 clientX clientY |})).

(** [handleMouseUp]. *)
Definition handleMouseUp (d : Drag) : Drag :=
  {| isDragging := false; lastMouse := lastMouse d |}.

(** A drag: the pointer goes down at [start] and moves through the
    positions [path]. *)
Fixpoint moves (path : list vec2) (n : Nav) (d : Drag) : option (Nav * Drag) :=
  match path with
  | [] => Some (n, d)
  | m :: rest =>
      obind (handleMouseMove (vx m) (vy m) n d)
            (fun nd => moves rest (fst nd) (snd nd))
  end.

Definition drag (start : vec2) (path : list vec2) (n : Nav) (d : Drag)
  : option (Nav * Drag) :=
  moves path n (handleMouseDown (vx start) (vy start) d).

End Mouse.

(** ** The recursive drawing tool ([AlgorithmicArt]) *)

Module Art.

Inductive ArtPatternType : Type :=
  | FRACTAL_TREE | PYTHAGORAS_TREE | KOCH_SNOWFLAKE | SIERPINSKI_TRIANGLE
  | BINARY_TREE.

Inductive ColorScheme : Type := COSMIC | FIRE | OCEAN | RAINBOW | FOREST.

(** A colour [hsl(hue, sat%, light%)]; the text of the CSS string is not
    modelled. *)
Record Hsl : Type := { hue : R; sat : R; light : R }.

(** The calls on the 2-D drawing context, in the order they are made.  A
    style is [None] when its string would carry a NaN. *)
Inductive Cmd : Type :=
  | ClearRect (x y w h : R)
  | FillStyleBackdrop (cx cy r : R)
  | BeginPath
  | Save
  | Restore
  | StrokeStyle (c : option Hsl)
  | FillStyle (c : option Hsl)
  | LineWidth (w : R)
  | Translate (x y : R)
  | Rotate (a : R)
  | MoveTo (p : vec2)
  | LineTo (p : vec2)
  | Stroke
  | Fill
  | FillRect (x y w h : R).

Section Drawing.

(** The props of the component. *)
Variable depth : nat.
Variables angle ratio randomness : R.
Variable colorScheme : ColorScheme.

(** [Math.random()]: the [k]-th number the generator hands out. *)
Variable random : nat -> R.

(** [getColor(step, totalSteps)]. *)
Definition getColor (step totalSteps : R) : option Hsl :=
  obind (fdiv step totalSteps) (fun t =>
  Some match colorScheme with
       | COSMIC => {| hue := 240 + t * 60; sat := 70 + t * 30;
                      light := 60 - t * 20 |}
       | FIRE => {| hue := 10 + t * 50; sat := 100; light := 50 + t * 20 |}
       | OCEAN => {| hue := 200 + t * 40; sat := 80; light := 40 + t * 30 |}
       | FOREST => {| hue := 100 - t * 60; sat := 60; light := 30 + t * 40 |}
       | RAINBOW => {| hue := t * 360; sat := 80; light := 60 |}
       end).

(** What [drawTree] does for one branch before it recurses. *)
Definition branch (x y len ang : R) (d : nat) : list Cmd :=
  [ BeginPath; Save;
    StrokeStyle (getColor (INR depth - INR d) (INR depth));
    LineWidth (if Nat.ltb 2 d then INR d * 0.8 else 1);
    Translate x y; Rotate (ang * PI / 180);
    MoveTo (Vec2 0 0); LineTo (Vec2 0 (- len)); Stroke ].

(** [drawTree(x, y, len, ang, d)]: the calls made and the number of random
    numbers drawn so far, starting from [k]. *)
Fixpoint drawTree (d : nat) (x y len ang : R) (k : nat) : list Cmd * nat :=
  match d with
  | O => (branch x y len ang O ++ [Restore], k)
  | S d' =>
      let rAngle := randomness * (random k - 0.5) * 30 in
      let rLen := 1 + randomness * (random (S k) - 0.5) * 0.2 in
      let left := drawTree d' 0 (- len) (len * ratio * rLen)
                           (angle + rAngle) (S (S k)) in
      let right := drawTree d' 0 (- len) (len * ratio * rLen)
                            (- angle + rAngle) (snd left) in
      (branch x y len ang (S d') ++ fst left ++ fst right ++ [Restore],
       snd right)
  end.

(** [drawPythagoras(x, y, side, ang, d)]. *)
Fixpoint drawPythagoras (d : nat) (x y side ang : R) : list Cmd :=
  match d with
  | O => []
  | S d' =>
      [ Save; Translate x y; Rotate (ang * PI / 180);
        FillStyle (getColor (INR depth - INR d) (INR depth));
        FillRect (- side / 2) (- side) side side ]
      ++ (if Nat.ltb 1 d then
            [ Save; Translate (- side / 4) (- side);
              Rotate (- angle * PI / 180) ]
            ++ drawPythagoras d' 0 0 (side * ratio) 0
            ++ [ Restore;
                 Save; Translate (side / 4) (- side);
                 Rotate (angle * PI / 180) ]
            ++ drawPythagoras d' 0 0 (side * ratio) 0
            ++ [ Restore ]
          else [])
      ++ [ Restore ]
  end.

(** [drawKoch(p1, p2, d)]. *)
Fixpoint drawKoch (d : nat) (p1 p2 : vec2) : list Cmd :=
  match d with
  | O => [ BeginPath; MoveTo p1; LineTo p2; Stroke ]
  | S d' =>
      let dx := vx p2 - vx p1 in
      let dy := vy p2 - vy p1 in
      let dist := sqrt (dx * dx + dy * dy) in
      let unit := dist / 3 in
      let ang := Legacy.atan2 dy dx in
      let pA := Vec2 (vx p1 + dx / 3) (vy p1 + dy / 3) in
      let pC := Vec2 (vx p1 + 2 * dx / 3) (vy p1 + 2 * dy / 3) in
      let pB := Vec2 (vx pA + cos (ang - PI / 3) * unit)
                     (vy pA + sin (ang - PI / 3) * unit) in
      drawKoch d' p1 pA ++ drawKoch d' pA pB ++ drawKoch d' pB pC
      ++ drawKoch d' pC p2
  end.

(** [drawSierpinski(p1, p2, p3, d)]. *)
Fixpoint drawSierpinski (d : nat) (p1 p2 p3 : vec2) : list Cmd :=
  match d with
  | O => [ FillStyle (getColor (INR depth) (INR depth));
           BeginPath; MoveTo p1; LineTo p2; LineTo p3; Fill ]
  | S d' =>
      let pA := Vec2 ((vx p1 + vx p2) / 2) ((vy p1 + vy p2) / 2) in
      let pB := Vec2 ((vx p2 + vx p3) / 2) ((vy p2 + vy p3) / 2) in
      let pC := Vec2 ((vx p3 + vx p1) / 2) ((vy p3 + vy p1) / 2) in
      drawSierpinski d' p1 pA pC ++ drawSierpinski d' pA p2 pB
      ++ drawSierpinski d' pC pB p3
  end.

(** [render]: the backdrop, then the pattern, with its depth limit.  The
    result is the calls made and the count of random numbers drawn. *)
Definition render (pattern : ArtPatternType) (width height : R)
  : list Cmd * nat :=
  let backdrop :=
    [ ClearRect 0 0 width height;
      FillStyleBackdrop (width / 2) (height / 2) width;
      FillRect 0 0 width height ] in
  match pattern with
  | FRACTAL_TREE =>
      let t := drawTree depth (width / 2) height (height * 0.25) 0 0 in
      (backdrop ++ fst t, snd t)
  | PYTHAGORAS_TREE =>
      (backdrop
       ++ drawPythagoras (Nat.min depth 10) (width / 2) (height - 50) 80 0, 0%nat)
  | KOCH_SNOWFLAKE =>
      let size := Rmin width height * 0.8 in
      let h := size * sqrt 3 / 2 in
      let p1 := Vec2 (width / 2 - size / 2) (height / 2 + h / 3) in
      let p2 := Vec2 (width / 2 + size / 2) (height / 2 + h / 3) in
      let p3 := Vec2 (width / 2) (height / 2 - 2 * h / 3) in
      let kDepth := Nat.min depth 6 in
      (backdrop ++ [ StrokeStyle (getColor 1 1); LineWidth 1 ]
       ++ drawKoch kDepth p1 p3 ++ drawKoch kDepth p3 p2
       ++ drawKoch kDepth p2 p1, 0%nat)
  | SIERPINSKI_TRIANGLE =>
      let size := Rmin width height * 0.9 in
      let h := size * sqrt 3 / 2 in
      let p1 := Vec2 (width / 2) 50 in
      let p2 := Vec2 (width / 2 - size / 2) (50 + h) in
      let p3 := Vec2 (width / 2 + size / 2) (50 + h) in
      (backdrop ++ drawSierpinski (Nat.min depth 8) p1 p2 p3, 0%nat)
  | BINARY_TREE =>
      let t := drawTree depth (width / 2) height (height * 0.2) 0 0 in
      (backdrop ++ fst t, snd t)
  end.

End Drawing.

(** *** Reading a trace *)

(** The number of calls of one kind. *)
Definition isStroke (c : Cmd) : bool := match c with Stroke => true | _ => false end.
Definition isFill (c : Cmd) : bool := match c with Fill => true | _ => false end.
Definition isFillRect (c : Cmd) : bool :=
  match c with FillRect _ _ _ _ => true | _ => false end.

Definition count (f : Cmd -> bool) (t : list Cmd) : nat :=
  List.length (filter f t).

(** The depth of the stack of saved states after a trace that starts at
    depth [n]; [None] if a [restore] finds the stack empty. *)
Fixpoint stackAfter (t : list Cmd) (n : nat) : option nat :=
  match t with
  | [] => Some n
  | Save :: r => stackAfter r (S n)
  | Restore :: r =>
      match n with
      | O => None
      | S m => stackAfter r m
      end
  | _ :: r => stackAfter r n
  end.

(** The line segments a trace draws, as the context would follow them:
    [moveTo] sets the current point, [lineTo] draws from it.  The result is
    the segments and the current point at the end. *)
Fixpoint segments (t : list Cmd) (cur : vec2) : list (vec2 * vec2) * vec2 :=
  match t with
  | [] => ([], cur)
  | MoveTo p :: r => segments r p
  | LineTo p :: r =>
      let '(s, e) := segments r p in ((cur, p) :: s, e)
  | _ :: r => segments r cur
  end.

(** A list of segments is a connected line from [a] to [b]. *)
Fixpoint connected (a : vec2) (s : list (vec2 * vec2)) (b : vec2) : Prop :=
  match s with
  | [] => a = b
  | (p, q) :: r => p = a /\ connected q r b
  end.

(** The polygons a trace fills: [beginPath] empties the path, [moveTo] and
    [lineTo] add a point, [fill] paints the path. *)
Fixpoint filled (t : list Cmd) (path : list vec2) : list (list vec2) :=
  match t with
  | [] => []
  | BeginPath :: r => filled r []
  | MoveTo p :: r => filled r (path ++ [p])
  | LineTo p :: r => filled r (path ++ [p])
  | Fill :: r => path :: filled r path
  | _ :: r => filled r path
  end.

(** Twice the signed area of a triangle, and of a filled path that is a
    triangle. *)
Definition area2 (p1 p2 p3 : vec2) : R :=
  (vx p2 - vx p1) * (vy p3 - vy p1) - (vx p3 - vx p1) * (vy p2 - vy p1).

Definition pathArea2 (path : list vec2) : R :=
  match path with
  | [p1; p2; p3] => area2 p1 p2 p3
  | _ => 0
  end.

Definition totalArea2 (paths : list (list vec2)) : R :=
  fold_right (fun p acc => pathArea2 p + acc) 0 paths.

End Art.
(** ** Further statements *)

(** A run of wheel events, through each of the three wheel handlers. *)
Definition wheels (events : list R) (n : Vis.Nav) : Vis.Nav :=
  fold_left (fun n e => Vis.handleWheel e n) events n.

Definition reducedWheels (events : list R) (n : Vis.Nav) : Vis.Nav :=
  fold_left (fun n e => Reduced.onWheel e n) events n.

Definition legacyWheels (events : list R) (n : Legacy.Nav) : Legacy.Nav :=
  fold_left (fun n e => Legacy.handleWheel e n) events n.

(** The palette ids: 0, 1, 2, 3, 4. *)
Definition paletteId (k : R) : Prop := exists n : nat, (n < 5)%nat /\ k = INR n.

(** The range of the blended mode value. *)
Definition inModeRange (m : R) : Prop := 0 <= m <= 6.

(** The unit interval of the interaction intensities. *)
Definition unit01 (x : R) : Prop := 0 <= x <= 1.

(** A hand moved in the picture plane: every landmark shifted by
    [(dx, dy)], depths kept. *)
Definition shiftLandmark (dx dy : R) (l : Landmark) : Landmark :=
  {| lx := lx l + dx; ly := ly l + dy; lz := lz l |}.

Definition shiftHand (dx dy : R) (h : Hand) : Hand := map (shiftLandmark dx dy) h.

(** The tracker's frames carry 21 landmarks per hand. *)
Definition wellFormed (landmarks : list Hand) : Prop :=
  Forall (fun h => List.length h = 21%nat) landmarks.

(** The gesture booleans and values that do not record a position. *)
Definition sameGestures (g g' : Vis.HandGestures) : Prop :=
  Vis.isPinching g' = Vis.isPinching g
  /\ Vis.isPalmOpen g' = Vis.isPalmOpen g
  /\ Vis.isFist g' = Vis.isFist g
  /\ Vis.isPointing g' = Vis.isPointing g
  /\ Vis.isVictory g' = Vis.isVictory g
  /\ Vis.isSnapping g' = Vis.isSnapping g
  /\ Vis.isWaving g' = Vis.isWaving g
  /\ Vis.isClapping g' = Vis.isClapping g
  /\ Vis.isPunching g' = Vis.isPunching g
  /\ Vis.isTwoHandSmash g' = Vis.isTwoHandSmash g
  /\ Vis.handsDistance g' = Vis.handsDistance g
  /\ Vis.handsCount g' = Vis.handsCount g
  /\ Vis.gestureName g' = Vis.gestureName g.

(** A sequence of tracking callbacks of the particle component, threading
    the gesture state and the wave history. *)
Fixpoint legacyCallbacks (frames : list (list Hand)) (g : Legacy.HandGestures)
  (history : list R) : Legacy.HandGestures * list R :=
  match frames with
  | [] => (g, history)
  | f :: rest =>
      let '(g', h') := Legacy.onResults f g history in
      legacyCallbacks rest g' h'
  end.

(** A colour the canvas accepts: hue in [0, 360], saturation and lightness
    in [0, 100]. *)
Definition validHsl (c : Art.Hsl) : Prop :=
  0 <= Art.hue c <= 360 /\ 0 <= Art.sat c <= 100 /\ 0 <= Art.light c <= 100.

(** A call that sets a stroke or fill colour sets a valid one. *)
Definition validStyle (c : Art.Cmd) : Prop :=
  match c with
  | Art.StrokeStyle s | Art.FillStyle s => exists h, s = Some h /\ validHsl h
  | _ => True
  end.

(** A filled path is a triangle. *)
Definition isTriangle (path : list vec2) : Prop := List.length path = 3%nat.

(** The length of a drawn segment and of a list of segments. *)
Definition segLength (s : vec2 * vec2) : R :=
  sqrt ((vx (snd s) - vx (fst s)) ^ 2 + (vy (snd s) - vy (fst s)) ^ 2).

Definition totalLength (s : list (vec2 * vec2)) : R :=
  fold_right (fun g acc => segLength g + acc) 0 s.

(** A sequence of tracking callbacks of the gesture-navigation component,
    threading the gesture and physics state. *)
Fixpoint callbacks (frames : list (list Hand)) (g : Vis.HandGestures)
  (ph : Vis.Physics) : Vis.HandGestures * Vis.Physics :=
  match frames with
  | [] => (g, ph)
  | f :: rest =>
      let '(g', ph') := Vis.onResults f g ph in
      callbacks rest g' ph'
  end.

(** The fist test of the classifier on one hand. *)
Definition fistLike (h : Hand) : bool := Rltb (tipSum h / 4) 0.25.

(** The props with another [colorMode]. *)
Definition withColorMode (c : R) (p : Vis.Props) : Vis.Props :=
  {| Vis.mode := Vis.mode p;
     Vis.attractionSensitivity := Vis.attractionSensitivity p;
     Vis.pinchSensitivity := Vis.pinchSensitivity p;
     Vis.morphSpeed := Vis.morphSpeed p;
     Vis.iterations := Vis.iterations p;
     Vis.power := Vis.power p;
     Vis.interactiveMode := Vis.interactiveMode p;
     Vis.activeAnimation := Vis.activeAnimation p;
     Vis.colorMode := c |}.

(** The gesture block of a frame runs: interactive mode with a hand in
    view. *)
Definition gesturesLive (p : Vis.Props) (g : Vis.HandGestures) : bool :=
  Vis.interactiveMode p && Nat.ltb 0 (Vis.handsCount g).

(** The range the two cooldown timers move in. *)
Definition timersInRange (ph : Vis.Physics) : Prop :=
  -0.1 < Vis.clapCooldown ph <= 1 /\ -0.1 < Vis.snapCooldown ph <= 0.5.

(** The uniforms the hand forces are made of. *)
Definition forces (u : Shader.Uniforms) : vec3 * R * R :=
  (Shader.uHandPos u, Shader.uAttractStrength u, Shader.uRepelStrength u).

(** The gesture state of two fists held together, the index tip of the first
    at (0.2, 0.1). *)
Definition smashHeld : Vis.HandGestures := {|
  Vis.indexTip := Vec3 0.2 0.1 0;
  Vis.wristPos := Vec3 0 0 0;
  Vis.isPinching := false;
  Vis.isPalmOpen := false;
  Vis.isFist := true;
  Vis.isPointing := false;
  Vis.isVictory := false;
  Vis.isSnapping := false;
  Vis.isWaving := false;
  Vis.isClapping := false;
  Vis.isPunching := false;
  Vis.isTwoHandSmash := true;
  Vis.handsDistance := 0.12;
  Vis.handsCount := 2;
  Vis.gestureName := "SMASH (RESET)"
|}.

(** The uniforms of the particle component while a preset shows the Menger
    sponge: mode 5, visual style. *)
Definition spongeUniforms : Shader.Uniforms :=
  Shader.set_uVisualMode 1 (Shader.set_uMode 5 Legacy.initialUniforms).

(** A seed on the x-axis. *)
Definition axisSeed : Shader.Particle := {|
  Shader.position := Vec3 1 0 0;
  Shader.aSize := 1;
  Shader.aRandom := Vec3 0.5 0.5 0.5
|}.

(** What [main] hands to the fragment shader is a colour with a usable
    opacity. *)
Definition validVertex (o : Shader.VertexOut) : Prop :=
  unitColor (Shader.vColor o) /\ 0 <= Shader.vAlpha o <= 1.2.

(** The uniforms of the particle component while a preset shows the
    Mandelbrot set, and a seed that maps to the point [3 + 0i]. *)
Definition diveUniforms : Shader.Uniforms :=
  Shader.set_uVisualMode 1 mandelbrotUniforms.

Definition farSeed : Shader.Particle := {|
  Shader.position := Vec3 1.5 0 0;
  Shader.aSize := 1;
  Shader.aRandom := Vec3 0.5 0.5 0.5
|}.

(** The point of the complex plane a seed is mapped to by the navigation
    uniforms. *)
Definition navPoint (u : Shader.Uniforms) (v : Shader.Particle) : vec2 :=
  add2 (Vec2 (px (Shader.position v) * 2 / Shader.uZoom u)
             (py (Shader.position v) * 2 / Shader.uZoom u))
       (Shader.uPan u).

(** ** Statements about the hard cap of the escape-time loop *)

(** The pseudo-depth as the specification words it, for every escape count
    below the configured cap: [iter] is the escape count and [z] the first
    iterate with [|z|^2 > 4]. *)
Definition pseudoDepthOfEveryEscape : Prop :=
  forall (u : Shader.Uniforms) (pos : vec2) (mode : R) (n : nat),
    0 < Shader.uMaxIter u ->
    INR n < Shader.uMaxIter u ->
    escapesAt mode (constOf u pos mode) (startOf u pos mode) n ->
    let z := orbit mode (constOf u pos mode) (startOf u pos mode) (S n) in
    Shader.IterateFractal u pos mode
    = Some (Vec3 (vx z) (vy z)
                 ((INR n - log2 (log2 (dot2 z z)) + 4) / Shader.uMaxIter u)).

(** A point of the Mandelbrot family just right of the cusp at 1/4, and the
    uniforms of the Mandelbrot mode with the iteration cap at 500. *)
Definition cuspPoint : vec2 := Vec2 0.2502 0.

Definition deepUniforms : Shader.Uniforms :=
  Shader.set_uMaxIter 500 mandelbrotUniforms.

(** The orbit of [cuspPoint] stays on the real axis: [x <- x * x + 0.2502],
    from 0. *)
Definition cuspOrbit (k : nat) : R := Nat.iter k (fun x => x * x + 0.2502) 0.

(** An enclosure of that orbit in fixed-point arithmetic with 30 decimal
    digits: the lower end is rounded down, the upper end up. *)
Definition scale : Z := (10 ^ 30)%Z.

Definition cuspC : Z := (2502 * 10 ^ 26)%Z.

Definition encloseStep (b : Z * Z) : Z * Z :=
  ((fst b * fst b / scale + cuspC)%Z,
   ((snd b * snd b + scale - 1) / scale + cuspC)%Z).

Definition enclosure (k : nat) : Z * Z := Nat.iter k encloseStep (0%Z, 0%Z).
(** * Properties *)

(** ** Comparisons *)

Lemma Rltb_true a b : Rltb a b = true <-> a < b.
Proof. unfold Rltb; destruct (Rlt_dec a b); split; intros; try easy. Qed.

Lemma Rltb_false a b : Rltb a b = false <-> b <= a.
Proof.
  unfold Rltb; destruct (Rlt_dec a b); split; intros; try easy; lra.
Qed.

Lemma Rleb_true a b : Rleb a b = true <-> a <= b.
Proof. unfold Rleb; destruct (Rle_dec a b); split; intros; try easy. Qed.

Lemma Rleb_false a b : Rleb a b = false <-> b < a.
Proof.
  unfold Rleb; destruct (Rle_dec a b); split; intros; try easy; lra.
Qed.

Lemma mix_bounds a b t lo hi :
  lo <= a <= hi -> lo <= b <= hi -> 0 <= t <= 1 -> lo <= mix a b t <= hi.
Proof. unfold mix; intros; nra. Qed.

(** ** Damping *)

Section Damping.

Variables target lambda : R.

(** One step written against the decay factor [exp (- lambda * dt)]. *)
Lemma damp_decay (x dt : R) :
  damp x target lambda dt
  = target * (1 - exp (- lambda * dt)) + x * exp (- lambda * dt).
Proof. unfold damp, lerp; ring. Qed.

(** Two steps in a row are one step over the sum of the two. *)
Lemma damp_compose (x dt1 dt2 : R) :
  damp (damp x target lambda dt1) target lambda dt2
  = damp x target lambda (dt1 + dt2).
Proof.
  rewrite !damp_decay.
  replace (- lambda * (dt1 + dt2)) with (- lambda * dt1 + - lambda * dt2)
    by ring.
  rewrite exp_plus; ring.
Qed.

Lemma damp_zero (x : R) : damp x target lambda 0 = x.
Proof. rewrite damp_decay, Rmult_0_r, exp_0; ring. Qed.

Lemma damp_frames_single (dts : list R) :
  forall x, damp_frames x target lambda dts = damp x target lambda (elapsed dts).
Proof.
  induction dts as [|dt dts IH]; intros x; cbn [damp_frames fold_left elapsed fold_right].
  - now rewrite damp_zero.
  - fold (damp_frames (damp x target lambda dt) target lambda dts).
    fold (elapsed dts).
    now rewrite IH, damp_compose.
Qed.

End Damping.

(** C6.  Iterating [damp] over any partition [dts] of an elapsed time gives
    [target * (1 - e^(-lambda t)) + initial * e^(-lambda t)] with
    [t = elapsed dts], which is also what one single step of size [t] gives.
    It holds for every rate and every list of steps, so in particular for
    [lambda > 0] and positive steps. *)
Theorem damp_step_granularity_independent :
  forall (initial target lambda : R) (dts : list R),
    damp_frames initial target lambda dts
    = target * (1 - exp (- lambda * elapsed dts))
      + initial * exp (- lambda * elapsed dts)
    /\ damp_frames initial target lambda dts
       = damp initial target lambda (elapsed dts).
Proof.
  intros initial target lambda dts.
  rewrite damp_frames_single; split; [apply damp_decay | reflexivity].
Qed.

(** ** The tracking callback *)

(** C9.  A callback that reports zero hands leaves every field of the
    gesture state other than the hands count and the display label as it was,
    and does not touch the physics state: the earlier gesture booleans and
    continuous values persist.  This holds for the callback of the
    gesture-navigation component and for the one of the reduced component.
    A tracking exchange that fails outright changes nothing at all. *)
Theorem zero_hands_keeps_gesture_state :
  forall (g : Vis.HandGestures) (ph : Vis.Physics),
    sameButCountAndLabel g (fst (Vis.onResults [] g ph))
    /\ Vis.handsCount (fst (Vis.onResults [] g ph)) = 0%nat
    /\ snd (Vis.onResults [] g ph) = ph
    /\ sameButCountAndLabel g (Reduced.onResults [] g)
    /\ Vis.handsCount (Reduced.onResults [] g) = 0%nat
    /\ Vis.processVideoFrame true true Vis.Failed g ph = (g, ph)
    /\ Vis.processVideoFrame true true (Vis.Delivered []) g ph
       = Vis.onResults [] g ph.
Proof.
  intros g ph; unfold sameButCountAndLabel; cbn.
  repeat split; reflexivity.
Qed.

(** C10.  After a callback on exactly one hand the two-hand booleans are
    false, whatever the gesture state held before: [isClapping] and
    [isTwoHandSmash] in the gesture-navigation component, [isClapping] in the
    component with the clap check. *)
Theorem one_hand_clears_two_hand_gestures :
  forall (h : Hand) (g : Vis.HandGestures) (ph : Vis.Physics)
         (lg : Legacy.HandGestures) (wave : list R),
    Vis.isClapping (fst (Vis.onResults [h] g ph)) = false
    /\ Vis.isTwoHandSmash (fst (Vis.onResults [h] g ph)) = false
    /\ Legacy.isClapping (fst (Legacy.onResults [h] lg wave)) = false.
Proof.
  intros h g ph lg wave; repeat split; reflexivity.
Qed.

Lemma dist_self (a : Landmark) : dist a a = 0.
Proof.
  unfold dist.
  replace ((lx a - lx a) ^ 2 + (ly a - ly a) ^ 2) with 0 by ring.
  apply sqrt_0.
Qed.

Lemma dist_lt (a b : Landmark) (r : R) :
  0 < r -> (lx a - lx b) ^ 2 + (ly a - ly b) ^ 2 < r * r -> dist a b < r.
Proof.
  intros Hr H; unfold dist.
  rewrite <- (sqrt_square r) by lra.
  apply sqrt_lt_1_alt; split; [| exact H].
  apply Rplus_le_le_0_compat; apply pow2_ge_0.
Qed.

Lemma fistAt_lm (x y : R) (i : nat) :
  (i < 21)%nat -> lm (fistAt x y) i = {| lx := x; ly := y; lz := 0 |}.
Proof.
  intros Hi; unfold lm, fistAt.
  rewrite nth_repeat_lt by exact Hi; reflexivity.
Qed.

Lemma fistAt_tipSum (x y : R) : tipSum (fistAt x y) = 0.
Proof.
  unfold tipSum; cbn [fold_left].
  rewrite !fistAt_lm by lia.
  rewrite dist_self; ring.
Qed.

(** ** Reading the loop state through a chain of assignments *)

Ltac split_ifs :=
  repeat match goal with
         | |- context [if ?c then _ else _] => destruct c
         | |- context [match ?m with OBJECT_ORBIT => _ | IMMERSIVE_FLY => _ end] =>
             destruct m
         end.

Section LoopProjections.

Import Shader Vis.

Variables (b : bool) (f : Uniforms -> Uniforms) (w : Loop).

Lemma physics_updU : physics (updU b f w) = physics w.
Proof. unfold updU; destruct b; reflexivity. Qed.

Lemma nav_updU : nav (updU b f w) = nav w.
Proof. unfold updU; destruct b; reflexivity. Qed.

Lemma haptics_updU : haptics (updU b f w) = haptics w.
Proof. unfold updU; destruct b; reflexivity. Qed.

Lemma interactionMode_updU : interactionMode (updU b f w) = interactionMode w.
Proof. unfold updU; destruct b; reflexivity. Qed.

Lemma interactionModeRef_updU :
  interactionModeRef (updU b f w) = interactionModeRef w.
Proof. unfold updU; destruct b; reflexivity. Qed.

Lemma evolutionTime_updU : evolutionTime (updU b f w) = evolutionTime w.
Proof. unfold updU; destruct b; reflexivity. Qed.

Lemma currentModeVal_updU : currentModeVal (updU b f w) = currentModeVal w.
Proof. unfold updU; destruct b; reflexivity. Qed.

Lemma targetMode_updU : targetMode (updU b f w) = targetMode w.
Proof. unfold updU; destruct b; reflexivity. Qed.

Lemma animPhase_updU : animPhase (updU b f w) = animPhase w.
Proof. unfold updU; destruct b; reflexivity. Qed.

Lemma partU_updU : partU (updU b f w) = if b then f (partU w) else partU w.
Proof. unfold updU; destruct b; reflexivity. Qed.

Lemma quadU_updU : quadU (updU b f w) = if b then quadU w else f (quadU w).
Proof. unfold updU; destruct b; reflexivity. Qed.

End LoopProjections.

(** Reads a field of the loop state through a chain of assignments. *)
Ltac loop_simpl :=
  repeat (progress
    (rewrite ?physics_updU, ?nav_updU, ?haptics_updU, ?interactionMode_updU,
       ?interactionModeRef_updU, ?evolutionTime_updU, ?currentModeVal_updU,
       ?targetMode_updU, ?animPhase_updU, ?partU_updU, ?quadU_updU;
     cbn [Vis.physics Vis.nav Vis.haptics Vis.interactionMode
          Vis.interactionModeRef Vis.evolutionTime Vis.currentModeVal
          Vis.targetMode Vis.animPhase Vis.partU Vis.quadU
          Vis.set_physics Vis.set_nav Vis.set_quadU Vis.set_partU
          Vis.set_currentModeVal Vis.set_evolutionTime Vis.set_targetMode
          Vis.set_animPhase Vis.setInteractionMode Vis.syncInteractionMode
          Vis.triggerHaptic Vis.set_clapCooldown Vis.set_snapCooldown
          Vis.set_lastHandPos Vis.set_was Vis.set_zoom Vis.set_pan
          Vis.zoom Vis.pan Vis.clapCooldown Vis.snapCooldown Vis.lastHandPos
          Vis.wasFist Vis.wasPunching Vis.wasVictory Vis.wasSmash
          Vis.prevWristZ Vis.punchVelocity])).

(** A step that leaves a field alone: case analysis on its guards, then
    reading the field back. *)
Ltac keeps := repeat (progress (split_ifs; loop_simpl)); reflexivity.
(** ** Frames of the gesture-navigation loop *)

Section VisFrame.

Import Shader Vis.

Variables (p : Props) (g : HandGestures) (dt : R) (im : InteractionMode).

Lemma clapStep_partU w : partU (clapStep g dt im w) = partU w.
Proof. unfold clapStep; keeps. Qed.

Lemma snapStep_repel w :
  uRepelStrength (partU (snapStep p g dt w)) = uRepelStrength (partU w).
Proof. unfold snapStep; keeps. Qed.

Lemma punchStep_partU w : partU (punchStep g dt w) = partU w.
Proof. unfold punchStep; keeps. Qed.

Lemma smashStep_repel w :
  interactiveMode p = true -> isTwoHandSmash g = true ->
  uRepelStrength (partU (smashStep p g w)) = 5.
Proof.
  intros Hi Hs; unfold smashStep; rewrite Hi, Hs; keeps.
Qed.

Lemma victoryStep_partU w : partU (victoryStep g dt w) = partU w.
Proof. unfold victoryStep; keeps. Qed.

Lemma fistStep_partU w : partU (fistStep g w) = partU w.
Proof. unfold fistStep; keeps. Qed.

Lemma navigationStep_partU w : partU (navigationStep g dt im w) = partU w.
Proof. unfold navigationStep; keeps. Qed.

(** The gesture block of a smash frame leaves the repel uniform at 5. *)
Lemma gestureBlock_repel_smash w :
  interactiveMode p = true -> (0 < handsCount g)%nat ->
  isTwoHandSmash g = true ->
  uRepelStrength (partU (gestureBlock p g dt im w)) = 5.
Proof.
  intros Hi Hc Hs; unfold gestureBlock.
  apply Nat.ltb_lt in Hc; rewrite Hi, Hc; cbn [andb].
  cbn [set_lastHandPos set_physics partU].
  rewrite navigationStep_partU.
  cbn [set_was set_physics partU].
  rewrite fistStep_partU, victoryStep_partU.
  now apply smashStep_repel.
Qed.

(** The manual updates damp the repel uniform toward the selected tier. *)
Lemma manualBlock_repel w :
  interactiveMode p = true -> (0 < handsCount g)%nat ->
  uRepelStrength (partU (manualBlock p g dt w))
  = damp (uRepelStrength (partU w))
         (snd (forceTargets g) * attractionSensitivity p) 8 dt.
Proof.
  intros Hi Hc; unfold manualBlock.
  apply Nat.ltb_lt in Hc; rewrite Hi, Hc; cbn [andb negb].
  destruct (forceTargets g) as [a r]; loop_simpl; reflexivity.
Qed.

Lemma publishStep_repel w :
  uRepelStrength (partU (publishStep p dt w)) = uRepelStrength (partU w).
Proof. unfold publishStep; keeps. Qed.

End VisFrame.

(** The repel tiers are 10 (smash), 0 and 0.5: none is above the smash
    tier. *)
Lemma forceTargets_repel_max (g : Vis.HandGestures) :
  snd (Vis.forceTargets g) <= 10.
Proof. unfold Vis.forceTargets; split_ifs; cbn [snd]; lra. Qed.

(** C7.  Two hands, each one a fist by the classifier's own measure (mean
    tip-to-wrist distance below 0.25), wrists closer than 0.15: the callback
    sets [isTwoHandSmash]; the tier selection of a frame on that state picks
    the repel target 10 and the attract target 0, the strongest repel tier,
    whatever the pinch, palm and fist booleans are; and the frame damps the
    repel uniform toward [10 * attractionSensitivity]. *)
Theorem two_hand_smash_selects_strongest_repel :
  forall (h1 h2 : Hand) (g : Vis.HandGestures) (ph : Vis.Physics),
    tipSum h1 / 4 < 0.25 ->
    tipSum h2 / 4 < 0.25 ->
    dist (lm h1 0) (lm h2 0) < 0.15 ->
    let g' := fst (Vis.onResults [h1; h2] g ph) in
    Vis.isTwoHandSmash g' = true
    /\ Vis.forceTargets g' = (0, 10)
    /\ (forall g0, Vis.isTwoHandSmash g0 = true -> Vis.forceTargets g0 = (0, 10))
    /\ (forall g0, snd (Vis.forceTargets g0) <= 10)
    /\ (forall p dt im w,
          Vis.interactiveMode p = true ->
          Vis.activeAnimation p = NONE ->
          Shader.uRepelStrength (Vis.partU (Vis.frameBody p g' dt im w))
          = damp 5 (10 * Vis.attractionSensitivity p) 8 dt).
Proof.
  intros h1 h2 g ph H1 H2 Hd g'.
  assert (Hs : Vis.isTwoHandSmash g' = true).
  { unfold g', Vis.onResults.
    cbn [fst Vis.isTwoHandSmash List.length Nat.eqb nth].
    apply Rltb_true in H1, H2, Hd. now rewrite H1, H2, Hd. }
  assert (Hc : (0 < Vis.handsCount g')%nat) by (cbn; lia).
  assert (Hsel : forall g0, Vis.isTwoHandSmash g0 = true ->
                            Vis.forceTargets g0 = (0, 10)).
  { intros g0 H0; unfold Vis.forceTargets; now rewrite H0. }
  repeat split; auto using forceTargets_repel_max.
  intros p dt im w Hi Ha.
  unfold Vis.frameBody; rewrite Ha; cbn [isNONE negb].
  rewrite publishStep_repel, manualBlock_repel by assumption.
  rewrite gestureBlock_repel_smash, (Hsel g' Hs) by assumption.
  reflexivity.
Qed.

(** The scenario of the specification: two fists, wrist distance 0.05. *)
Lemma two_hand_smash_scenario :
  Vis.isTwoHandSmash
    (fst (Vis.onResults [fistA; fistB] Vis.initialGestures Vis.initialPhysics))
  = true.
Proof.
  refine (proj1 (two_hand_smash_selects_strongest_repel
                   fistA fistB Vis.initialGestures Vis.initialPhysics _ _ _)).
  - unfold fistA; rewrite fistAt_tipSum; lra.
  - unfold fistB; rewrite fistAt_tipSum; lra.
  - unfold fistA, fistB; rewrite !fistAt_lm by lia.
    apply dist_lt; cbn [lx ly]; lra.
Defined.

(** ** Counting the firings of a cooldown-gated action *)

Section CooldownCount.

Variables (State : Type) (step : State -> State).
Variables (cool : State -> R) (fires : State -> nat).
Variables (D dt : R) (N : nat).

(** The cooldown lasts [N] frames of [dt]; a frame with the timer at or
    below zero fires and restarts it, any other frame only counts down. *)
Hypothesis duration : D = INR N * dt.
Hypothesis dt_pos : 0 < dt.
Hypothesis N_pos : (0 < N)%nat.
Hypothesis step_fire :
  forall s, cool s <= 0 -> cool (step s) = D - dt /\ fires (step s) = S (fires s).
Hypothesis step_wait :
  forall s, 0 < cool s -> cool (step s) = cool s - dt /\ fires (step s) = fires s.

(** After a firing frame the timer runs down for the rest of the period. *)
Lemma after_fire (s : State) (k : nat) :
  (k < N)%nat -> cool s <= 0 ->
  cool (Nat.iter (S k) step s) = D - INR (S k) * dt
  /\ fires (Nat.iter (S k) step s) = S (fires s).
Proof.
  intros Hk Hs; induction k as [|k IH].
  - cbn [Nat.iter nat_rect]. destruct (step_fire s Hs) as [Hc Hf].
    rewrite Hc, Hf; split; [cbn [INR]; ring | reflexivity].
  - destruct IH as [Hc Hf]; [lia|].
    change (Nat.iter (S (S k)) step s) with (step (Nat.iter (S k) step s)).
    assert (Hpos : 0 < cool (Nat.iter (S k) step s)).
    { rewrite Hc, duration. apply lt_INR in Hk.
      rewrite <- Rmult_minus_distr_r. apply Rmult_lt_0_compat; lra. }
    destruct (step_wait _ Hpos) as [Hc' Hf'].
    rewrite Hc', Hf', Hc, Hf; split; [|reflexivity].
    rewrite (S_INR (S k)); ring.
Qed.

(** A whole period ends with the timer at zero, ready to fire again. *)
Lemma one_period (s : State) :
  cool s <= 0 ->
  cool (Nat.iter N step s) = 0 /\ fires (Nat.iter N step s) = S (fires s).
Proof.
  intros Hs.
  pose proof (after_fire s (pred N)) as H.
  replace (S (pred N)) with N in H by lia.
  destruct H as [Hc Hf]; [lia | exact Hs |].
  rewrite Hc, Hf, duration; split; [ring | reflexivity].
Qed.

Lemma periods (s : State) (m : nat) :
  cool s <= 0 ->
  cool (Nat.iter (m * N) step s) <= 0
  /\ fires (Nat.iter (m * N) step s) = (fires s + m)%nat.
Proof.
  intros Hs; induction m as [|m [Hc Hf]].
  - cbn; split; [exact Hs | lia].
  - replace (S m * N)%nat with (N + m * N)%nat by lia.
    rewrite Nat.iter_add.
    destruct (one_period _ Hc) as [Hc' Hf'].
    rewrite Hc', Hf', Hf; split; [lra | lia].
Qed.

(** In [q] whole periods and [r] further frames, [0 < r <= N], the action
    fires [q + 1] times. *)
Lemma fires_count (s : State) (q r : nat) :
  cool s <= 0 -> (0 < r <= N)%nat ->
  fires (Nat.iter (q * N + r) step s) = (fires s + q + 1)%nat.
Proof.
  intros Hs Hr.
  replace (q * N + r)%nat with (r + q * N)%nat by lia.
  rewrite Nat.iter_add.
  destruct (periods s q Hs) as [Hc Hf].
  destruct r as [|k]; [lia|].
  destruct (after_fire (Nat.iter (q * N) step s) k) as [_ Hf'];
    [lia | exact Hc |].
  rewrite Hf', Hf; lia.
Qed.

End CooldownCount.

(** ** The clap timer through a frame *)

Section VisClap.

Import Shader Vis.

(** Steps that neither touch the clap timer nor fire the clap action. *)
Ltac keeps_clap :=
  unfold clapView, clapFires, Reduced.clapView, Reduced.clapFires;
  split_ifs; loop_simpl;
  rewrite ?filter_app; cbn [filter clapPattern Reduced.clapPattern];
  rewrite ?app_nil_r; reflexivity.

Variables (p : Props) (g : HandGestures) (dt : R) (im : InteractionMode).

Lemma snapStep_clapView w : clapView (snapStep p g dt w) = clapView w.
Proof. unfold snapStep; keeps_clap. Qed.

Lemma punchStep_clapView w : clapView (punchStep g dt w) = clapView w.
Proof. unfold punchStep; keeps_clap. Qed.

Lemma smashStep_clapView w : clapView (smashStep p g w) = clapView w.
Proof. unfold smashStep; keeps_clap. Qed.

Lemma victoryStep_clapView w : clapView (victoryStep g dt w) = clapView w.
Proof. unfold victoryStep; keeps_clap. Qed.

Lemma fistStep_clapView w : clapView (fistStep g w) = clapView w.
Proof. unfold fistStep; keeps_clap. Qed.

Lemma navigationStep_clapView w :
  clapView (navigationStep g dt im w) = clapView w.
Proof. unfold navigationStep; keeps_clap. Qed.

Lemma presetBlock_clapView w : clapView (presetBlock p dt w) = clapView w.
Proof. unfold presetBlock; destruct (activeAnimation p); keeps_clap. Qed.

Lemma manualBlock_clapView w : clapView (manualBlock p g dt w) = clapView w.
Proof. unfold manualBlock; destruct (forceTargets g); keeps_clap. Qed.

Lemma publishStep_clapView w : clapView (publishStep p dt w) = clapView w.
Proof. unfold publishStep; keeps_clap. Qed.

(** The reduced component: its steps other than the clap step. *)
Lemma reduced_snapStep_clapView w :
  Reduced.clapView (Reduced.snapStep p g dt w) = Reduced.clapView w.
Proof. unfold Reduced.snapStep; keeps_clap. Qed.

Lemma reduced_forceStep_clapView w :
  Reduced.clapView (Reduced.forceStep p g dt w) = Reduced.clapView w.
Proof. unfold Reduced.forceStep; keeps_clap. Qed.

Lemma reduced_movementStep_clapView w :
  Reduced.clapView (Reduced.movementStep g dt im w) = Reduced.clapView w.
Proof. unfold Reduced.movementStep; keeps_clap. Qed.

Lemma reduced_presetBlock_clapView w :
  Reduced.clapView (Reduced.presetBlock p dt w) = Reduced.clapView w.
Proof.
  unfold Reduced.presetBlock; destruct (activeAnimation p); keeps_clap.
Qed.

Lemma reduced_normalBlock_clapView w :
  Reduced.clapView (Reduced.normalBlock p w) = Reduced.clapView w.
Proof. unfold Reduced.normalBlock; keeps_clap. Qed.

Lemma reduced_syncStep_clapView w :
  Reduced.clapView (Reduced.syncStep p dt w) = Reduced.clapView w.
Proof. unfold Reduced.syncStep; keeps_clap. Qed.

Hypothesis interactive : interactiveMode p = true.
Hypothesis hands : (0 < handsCount g)%nat.
Hypothesis clap : isClapping g = true.

(** In the held-clap scenario a frame acts on the clap timer as its clap
    step does. *)
Lemma frameBody_clapView w :
  clapView (frameBody p g dt im w) = clapView (clapStep g dt im w).
Proof.
  unfold frameBody, gestureBlock.
  apply Nat.ltb_lt in hands; rewrite interactive, hands; cbn [andb].
  rewrite publishStep_clapView.
  destruct (negb (isNONE (activeAnimation p)));
    rewrite ?presetBlock_clapView, ?manualBlock_clapView;
    change (clapView (set_lastHandPos ?v ?x)) with (clapView x);
    rewrite navigationStep_clapView;
    change (clapView (set_was ?a ?b ?c ?d ?x)) with (clapView x);
    rewrite fistStep_clapView, victoryStep_clapView,
      smashStep_clapView, punchStep_clapView, snapStep_clapView;
    reflexivity.
Qed.

Lemma clapStep_fire w :
  clapCooldown (physics w) <= 0 ->
  clapView (clapStep g dt im w) = (1 - dt, S (clapFires w)).
Proof.
  intros Hc; unfold clapStep, clapView.
  apply Rleb_true in Hc; rewrite clap, Hc; cbn [andb]; loop_simpl.
  destruct (Rlt_dec 0 1) as [_|H]; [|lra].
  unfold clapFires; loop_simpl.
  rewrite filter_app, length_app; cbn [filter clapPattern List.length].
  f_equal; lia.
Qed.

Lemma clapStep_wait w :
  0 < clapCooldown (physics w) ->
  clapView (clapStep g dt im w) = (clapCooldown (physics w) - dt, clapFires w).
Proof.
  intros Hc; unfold clapStep.
  assert (H : Rleb (clapCooldown (physics w)) 0 = false)
    by (apply Rleb_false; lra).
  rewrite H, andb_false_r.
  destruct (Rlt_dec 0 (clapCooldown (physics w))); [reflexivity | lra].
Qed.

Lemma reduced_frameBody_clapView w :
  Reduced.clapView (Reduced.frameBody p g dt im w)
  = Reduced.clapView (Reduced.clapStep g dt im w).
Proof.
  unfold Reduced.frameBody, Reduced.gestureBlock.
  apply Nat.ltb_lt in hands; rewrite interactive, hands; cbn [andb].
  rewrite reduced_syncStep_clapView.
  destruct (negb (isNONE (activeAnimation p)));
    rewrite ?reduced_presetBlock_clapView, ?reduced_normalBlock_clapView;
    change (Reduced.clapView (set_lastHandPos ?v ?x))
      with (Reduced.clapView x);
    rewrite reduced_movementStep_clapView, reduced_forceStep_clapView,
      reduced_snapStep_clapView; reflexivity.
Qed.

Lemma reduced_clapStep_fire w :
  clapCooldown (physics w) <= 0 ->
  Reduced.clapView (Reduced.clapStep g dt im w)
  = (0.8 - dt, S (Reduced.clapFires w)).
Proof.
  intros Hc; unfold Reduced.clapStep, Reduced.clapView.
  apply Rleb_true in Hc; rewrite clap, Hc; cbn [andb]; loop_simpl.
  destruct (Rlt_dec 0 0.8) as [_|H]; [|lra].
  unfold Reduced.clapFires; loop_simpl.
  rewrite filter_app, length_app;
    cbn [filter Reduced.clapPattern List.length].
  f_equal; lia.
Qed.

Lemma reduced_clapStep_wait w :
  0 < clapCooldown (physics w) ->
  Reduced.clapView (Reduced.clapStep g dt im w)
  = (clapCooldown (physics w) - dt, Reduced.clapFires w).
Proof.
  intros Hc; unfold Reduced.clapStep.
  assert (H : Rleb (clapCooldown (physics w)) 0 = false)
    by (apply Rleb_false; lra).
  rewrite H, andb_false_r.
  destruct (Rlt_dec 0 (clapCooldown (physics w))); [reflexivity | lra].
Qed.

End VisClap.

(** ** The held clap *)

Lemma run_repeat p g d n w :
  Vis.run p g (repeat d n) w = Nat.iter n (Vis.frame p g d) w.
Proof.
  revert w; induction n as [|n IH]; intros w; [reflexivity|].
  cbn [repeat Vis.run]; rewrite IH, <- Nat.iter_succ_r; reflexivity.
Qed.

Lemma reduced_run_repeat p g d n w :
  Reduced.run p g (repeat d n) w = Nat.iter n (Reduced.frame p g d) w.
Proof.
  revert w; induction n as [|n IH]; intros w; [reflexivity|].
  cbn [repeat Reduced.run]; rewrite IH, <- Nat.iter_succ_r; reflexivity.
Qed.

Lemma dt60 : Rmin (1 / 60) 0.1 = 1 / 60.
Proof. apply Rmin_left; lra. Qed.

Section HeldClap.

Import Vis.

Variables (p : Props) (g : HandGestures).
Hypothesis interactive : interactiveMode p = true.
Hypothesis hands : (0 < handsCount g)%nat.
Hypothesis clap : isClapping g = true.

Lemma frame_fire w :
  clapCooldown (physics w) <= 0 ->
  clapCooldown (physics (frame p g (1 / 60) w)) = 1 - 1 / 60
  /\ clapFires (frame p g (1 / 60) w) = S (clapFires w).
Proof.
  intros Hc.
  assert (H : clapView (frame p g (1 / 60) w) = (1 - 1 / 60, S (clapFires w))).
  { unfold frame, animate.
    change (clapView (syncInteractionMode ?x)) with (clapView x).
    rewrite dt60, frameBody_clapView by assumption.
    now apply clapStep_fire. }
  unfold clapView in H; now inversion H.
Qed.

Lemma frame_wait w :
  0 < clapCooldown (physics w) ->
  clapCooldown (physics (frame p g (1 / 60) w))
  = clapCooldown (physics w) - 1 / 60
  /\ clapFires (frame p g (1 / 60) w) = clapFires w.
Proof.
  intros Hc.
  assert (H : clapView (frame p g (1 / 60) w)
              = (clapCooldown (physics w) - 1 / 60, clapFires w)).
  { unfold frame, animate.
    change (clapView (syncInteractionMode ?x)) with (clapView x).
    rewrite dt60, frameBody_clapView by assumption.
    now apply clapStep_wait. }
  unfold clapView in H; now inversion H.
Qed.

Lemma reduced_frame_fire w :
  clapCooldown (physics w) <= 0 ->
  clapCooldown (physics (Reduced.frame p g (1 / 60) w)) = 0.8 - 1 / 60
  /\ Reduced.clapFires (Reduced.frame p g (1 / 60) w)
     = S (Reduced.clapFires w).
Proof.
  intros Hc.
  assert (H : Reduced.clapView (Reduced.frame p g (1 / 60) w)
              = (0.8 - 1 / 60, S (Reduced.clapFires w))).
  { unfold Reduced.frame, Reduced.animate.
    change (Reduced.clapView (syncInteractionMode ?x))
      with (Reduced.clapView x).
    rewrite dt60, reduced_frameBody_clapView by assumption.
    now apply reduced_clapStep_fire. }
  unfold Reduced.clapView in H; now inversion H.
Qed.

Lemma reduced_frame_wait w :
  0 < clapCooldown (physics w) ->
  clapCooldown (physics (Reduced.frame p g (1 / 60) w))
  = clapCooldown (physics w) - 1 / 60
  /\ Reduced.clapFires (Reduced.frame p g (1 / 60) w) = Reduced.clapFires w.
Proof.
  intros Hc.
  assert (H : Reduced.clapView (Reduced.frame p g (1 / 60) w)
              = (clapCooldown (physics w) - 1 / 60, Reduced.clapFires w)).
  { unfold Reduced.frame, Reduced.animate.
    change (Reduced.clapView (syncInteractionMode ?x))
      with (Reduced.clapView x).
    rewrite dt60, reduced_frameBody_clapView by assumption.
    now apply reduced_clapStep_wait. }
  unfold Reduced.clapView in H; now inversion H.
Qed.

(** 1000 frames are 16 periods of 60 frames and 40 more (cooldown 1 s), or
    20 periods of 48 frames and 40 more (cooldown 0.8 s). *)
Lemma held_clap_17 w :
  clapCooldown (physics w) <= 0 ->
  clapFires (run p g frames60 w) = (clapFires w + 17)%nat.
Proof.
  intros Hc; unfold frames60; rewrite run_repeat.
  change 1000%nat with (16 * 60 + 40)%nat.
  rewrite (fires_count Loop (frame p g (1 / 60))
             (fun w => clapCooldown (physics w)) clapFires 1 (1 / 60) 60);
    try lia; try lra; try exact Hc.
  - rewrite INR_IZR_INZ; change (Z.of_nat 60) with 60%Z; lra.
  - exact frame_fire.
  - exact frame_wait.
Qed.

Lemma reduced_held_clap_21 w :
  clapCooldown (physics w) <= 0 ->
  Reduced.clapFires (Reduced.run p g frames60 w)
  = (Reduced.clapFires w + 21)%nat.
Proof.
  intros Hc; unfold frames60; rewrite reduced_run_repeat.
  change 1000%nat with (20 * 48 + 40)%nat.
  rewrite (fires_count Loop (Reduced.frame p g (1 / 60))
             (fun w => clapCooldown (physics w)) Reduced.clapFires
             0.8 (1 / 60) 48);
    try lia; try lra; try exact Hc.
  - rewrite INR_IZR_INZ; change (Z.of_nat 48) with 48%Z; lra.
  - exact reduced_frame_fire.
  - exact reduced_frame_wait.
Qed.

End HeldClap.

Lemma floor_total_time_1 : Zfloor (1000 * (1 / 60) / 1) = 16%Z.
Proof. apply Zfloor_eq; split; lra. Qed.

Lemma floor_total_time_08 : Zfloor (1000 * (1 / 60) / 0.8) = 20%Z.
Proof. apply Zfloor_eq; split; lra. Qed.

(** C5.  With the clap boolean held true over 1000 frames at [dt = 1/60] in
    interactive mode, the timers starting at or below zero, the clap action
    fires [floor (total_time / cooldown_duration) + 1] times: 17 times with
    the cooldown of 1 s of the gesture-navigation loop, 21 times with the
    cooldown of 0.8 s of the reduced loop, and not once per frame. *)
Theorem held_clap_fires_once_per_cooldown :
  forall (p : Vis.Props) (g : Vis.HandGestures) (w : Vis.Loop),
    Vis.interactiveMode p = true ->
    (0 < Vis.handsCount g)%nat ->
    Vis.isClapping g = true ->
    Vis.clapCooldown (Vis.physics w) <= 0 ->
    let total_time := 1000 * (1 / 60) in
    Z.of_nat (Vis.clapFires (Vis.run p g frames60 w))
    = (Z.of_nat (Vis.clapFires w) + (Zfloor (total_time / 1) + 1))%Z
    /\ Z.of_nat (Reduced.clapFires (Reduced.run p g frames60 w))
       = (Z.of_nat (Reduced.clapFires w) + (Zfloor (total_time / 0.8) + 1))%Z
    /\ Vis.clapFires (Vis.run p g frames60 w) = (Vis.clapFires w + 17)%nat
    /\ Reduced.clapFires (Reduced.run p g frames60 w)
       = (Reduced.clapFires w + 21)%nat.
Proof.
  intros p g w Hi Hh Hc Hw total_time; unfold total_time.
  rewrite floor_total_time_1, floor_total_time_08.
  rewrite (held_clap_17 p g Hi Hh Hc w Hw).
  rewrite (reduced_held_clap_21 p g Hi Hh Hc w Hw).
  repeat split; lia.
Qed.

(** The scenario from the initial state of the component. *)
Lemma held_clap_scenario :
  Vis.clapFires
    (Vis.run (propsWith true NONE) clapHeld frames60 Vis.initialLoop)
  = 17%nat.
Proof.
  refine (proj1 (proj2 (proj2
    (held_clap_fires_once_per_cooldown
       (propsWith true NONE) clapHeld Vis.initialLoop _ _ _ _)))).
  - reflexivity.
  - cbn; lia.
  - reflexivity.
  - cbn; lra.
Defined.

(** ** The navigation zoom *)

(** The wheel handler keeps the zoom inside its safety range. *)
Lemma handleWheel_safe (deltaY : R) (n : Vis.Nav) :
  zoomSafe (Vis.zoom n) -> zoomSafe (Vis.zoom (Vis.handleWheel deltaY n)).
Proof.
  intros Hs; unfold Vis.handleWheel.
  destruct (Rltb 0.0001 _) eqn:E1; cbn [andb]; [|exact Hs].
  destruct (Rltb _ 100000) eqn:E2; [|exact Hs].
  apply Rltb_true in E1, E2; cbn [Vis.zoom]; unfold zoomSafe; lra.
Qed.

Lemma dist_vertical (a b : Landmark) :
  lx a = lx b -> dist a b = Rabs (ly a - ly b).
Proof.
  intros H; unfold dist; rewrite H.
  replace ((lx b - lx b) ^ 2 + (ly a - ly b) ^ 2) with (Rsqr (ly a - ly b))
    by (unfold Rsqr; ring).
  apply sqrt_Rsqr_abs.
Qed.

Section PinchFrame.

Import Shader Vis.

Variables (p : Props) (g : HandGestures) (dt : R) (im : InteractionMode).

Lemma clapStep_nav w : nav (clapStep g dt im w) = nav w.
Proof. unfold clapStep; keeps. Qed.

Lemma snapStep_nav w : nav (snapStep p g dt w) = nav w.
Proof. unfold snapStep; keeps. Qed.

Lemma punchStep_nav w : isPunching g = false -> nav (punchStep g dt w) = nav w.
Proof. intros H; unfold punchStep; rewrite H; reflexivity. Qed.

Lemma smashStep_nav w :
  isTwoHandSmash g = false -> nav (smashStep p g w) = nav w.
Proof. intros H; unfold smashStep; rewrite H; reflexivity. Qed.

Lemma victoryStep_nav w : nav (victoryStep g dt w) = nav w.
Proof. unfold victoryStep; keeps. Qed.

Lemma fistStep_nav w : nav (fistStep g w) = nav w.
Proof. unfold fistStep; keeps. Qed.

Lemma manualBlock_nav w : nav (manualBlock p g dt w) = nav w.
Proof. unfold manualBlock; destruct (forceTargets g); keeps. Qed.

Lemma publishStep_nav w : nav (publishStep p dt w) = nav w.
Proof. unfold publishStep; keeps. Qed.

Lemma clapStep_lastHandPos w :
  lastHandPos (physics (clapStep g dt im w)) = lastHandPos (physics w).
Proof. unfold clapStep; keeps. Qed.

Lemma snapStep_lastHandPos w :
  lastHandPos (physics (snapStep p g dt w)) = lastHandPos (physics w).
Proof. unfold snapStep; keeps. Qed.

Lemma punchStep_lastHandPos w :
  lastHandPos (physics (punchStep g dt w)) = lastHandPos (physics w).
Proof. unfold punchStep; keeps. Qed.

Lemma smashStep_lastHandPos w :
  lastHandPos (physics (smashStep p g w)) = lastHandPos (physics w).
Proof. unfold smashStep; keeps. Qed.

Lemma victoryStep_lastHandPos w :
  lastHandPos (physics (victoryStep g dt w)) = lastHandPos (physics w).
Proof. unfold victoryStep; keeps. Qed.

Lemma fistStep_lastHandPos w :
  lastHandPos (physics (fistStep g w)) = lastHandPos (physics w).
Proof. unfold fistStep; keeps. Qed.

(** A frame in the orbit sub-mode on a pinching hand multiplies the zoom by
    [1 + 1.5 * (indexTip.y - lastHandPos.y)]; nothing bounds the factor. *)
Lemma frame_pinch_zoom w :
  interactiveMode p = true -> (0 < handsCount g)%nat ->
  activeAnimation p = NONE -> im = OBJECT_ORBIT ->
  isFist g = false -> isPinching g = true ->
  isPunching g = false -> isTwoHandSmash g = false ->
  zoom (nav (frameBody p g dt im w))
  = zoom (nav w)
    * (1 + (py (indexTip g) - py (lastHandPos (physics w))) * 1.5).
Proof.
  intros Hi Hc Ha Him Hf Hp Hpu Hs.
  unfold frameBody; rewrite Ha; cbn [isNONE negb].
  rewrite publishStep_nav, manualBlock_nav.
  unfold gestureBlock.
  apply Nat.ltb_lt in Hc; rewrite Hi, Hc; cbn [andb].
  cbn [set_lastHandPos set_physics nav].
  unfold navigationStep; rewrite Him at 1; rewrite Hf, Hp.
  cbn [set_zoom set_nav nav zoom set_was set_physics physics lastHandPos].
  rewrite fistStep_nav, victoryStep_nav, smashStep_nav, punchStep_nav,
    snapStep_nav by assumption.
  rewrite fistStep_lastHandPos, victoryStep_lastHandPos,
    smashStep_lastHandPos, punchStep_lastHandPos, snapStep_lastHandPos,
    clapStep_lastHandPos.
  rewrite clapStep_nav; reflexivity.
Qed.

End PinchFrame.

(** The first callback on [pinchHand]: one hand, pinching, no fist, the
    index tip mapped to [y = -1]. *)
Lemma pinchHand_tipSum : tipSum pinchHand = 1.1.
Proof.
  unfold tipSum; cbn [fold_left].
  change (lm pinchHand 0) with {| lx := 0.5; ly := 0.95; lz := 0 |}.
  change (lm pinchHand 8) with {| lx := 0.5; ly := 0.75; lz := 0 |}.
  change (lm pinchHand 12) with {| lx := 0.5; ly := 0.65; lz := 0 |}.
  change (lm pinchHand 16) with {| lx := 0.5; ly := 0.65; lz := 0 |}.
  change (lm pinchHand 20) with {| lx := 0.5; ly := 0.65; lz := 0 |}.
  rewrite !dist_vertical by reflexivity; cbn [ly].
  rewrite !Rabs_left by lra; lra.
Qed.

Lemma pinchSeen_fields :
  Vis.handsCount pinchSeen = 1%nat
  /\ Vis.isFist pinchSeen = false
  /\ Vis.isPinching pinchSeen = true
  /\ Vis.isPunching pinchSeen = false
  /\ Vis.isTwoHandSmash pinchSeen = false
  /\ py (Vis.indexTip pinchSeen) = -1.
Proof.
  assert (Hf : Rltb (tipSum pinchHand / 4) 0.25 = false).
  { apply Rltb_false; rewrite pinchHand_tipSum; lra. }
  unfold pinchSeen, Vis.onResults.
  cbn [fst Vis.handsCount Vis.isFist Vis.isPinching Vis.isPunching
       Vis.isTwoHandSmash Vis.indexTip py List.length Nat.eqb].
  rewrite Hf, andb_false_r.
  repeat split.
  - apply Rltb_true.
    change (lm pinchHand 4) with {| lx := 0.5; ly := 0.75; lz := 0 |}.
    change (lm pinchHand 8) with {| lx := 0.5; ly := 0.75; lz := 0 |}.
    rewrite dist_self; lra.
  - change (lm pinchHand 8) with {| lx := 0.5; ly := 0.75; lz := 0 |}.
    unfold Vis.mapY; cbn [ly]; lra.
Qed.

(** C2, at the failing input.  From the initial state (zoom 1, inside the
    safety range) one frame of the render loop on a pinching hand seen low
    in the picture leaves the zoom at -0.5: the pinch zoom does not keep the
    zoom strictly positive. *)
Theorem pinch_zoom_breaks_positivity :
  zoomSafe (Vis.zoom (Vis.nav Vis.initialLoop))
  /\ Vis.zoom (Vis.nav (Vis.animate (propsWith true NONE) pinchSeen (1 / 60)
                                    Vis.initialLoop)) = -0.5
  /\ ~ zoomSafe (Vis.zoom (Vis.nav (Vis.animate (propsWith true NONE) pinchSeen
                                                (1 / 60) Vis.initialLoop))).
Proof.
  destruct pinchSeen_fields as (Hc & Hf & Hp & Hpu & Hs & Hy).
  assert (Hz : Vis.zoom (Vis.nav (Vis.animate (propsWith true NONE) pinchSeen
                                              (1 / 60) Vis.initialLoop)) = -0.5).
  { unfold Vis.animate.
    rewrite frame_pinch_zoom; try assumption; try reflexivity.
    - rewrite Hy; cbn [Vis.initialLoop Vis.nav Vis.zoom Vis.initialNav
                       Vis.physics Vis.initialPhysics Vis.lastHandPos py].
      lra.
    - rewrite Hc; lia. }
  split; [|split].
  - unfold zoomSafe; cbn [Vis.initialLoop Vis.nav Vis.zoom Vis.initialNav]; lra.
  - exact Hz.
  - rewrite Hz; unfold zoomSafe; lra.
Qed.

(** The fist throttle of the fly sub-mode multiplies the zoom by
    [1 + 0.8 dt] on every frame: the zoom stays positive, and nothing keeps
    it below the ceiling of the wheel handler. *)
Lemma frame_throttle_zoom
  (p : Vis.Props) (g : Vis.HandGestures) (dt : R) (im : InteractionMode)
  (w : Vis.Loop) :
  Vis.interactiveMode p = true -> (0 < Vis.handsCount g)%nat ->
  Vis.activeAnimation p = NONE -> im = IMMERSIVE_FLY ->
  Vis.isFist g = true ->
  Vis.isPunching g = false -> Vis.isTwoHandSmash g = false ->
  Vis.zoom (Vis.nav (Vis.frameBody p g dt im w))
  = Vis.zoom (Vis.nav w) * (1 + dt * 0.8).
Proof.
  intros Hi Hc Ha Him Hf Hpu Hs.
  unfold Vis.frameBody; rewrite Ha; cbn [isNONE negb].
  rewrite publishStep_nav, manualBlock_nav.
  unfold Vis.gestureBlock.
  apply Nat.ltb_lt in Hc; rewrite Hi, Hc; cbn [andb].
  cbn [Vis.set_lastHandPos Vis.set_physics Vis.nav].
  unfold Vis.navigationStep; rewrite Him at 1; rewrite Hf.
  cbn [Vis.set_zoom Vis.set_nav Vis.nav Vis.zoom Vis.set_was Vis.set_physics].
  rewrite fistStep_nav, victoryStep_nav, smashStep_nav, punchStep_nav,
    snapStep_nav, clapStep_nav by assumption.
  reflexivity.
Qed.

Lemma throttle_leaves_safe_range (z : R) :
  zoomSafe z -> 99000 <= z -> ~ zoomSafe (z * (1 + 0.1 * 0.8)).
Proof. unfold zoomSafe; intros H1 H2 H3; lra. Qed.

(** ** Presets and gestures *)

Section GestureFrame.

Import Shader Vis.

Variables (p : Props) (g : HandGestures) (dt : R) (im : InteractionMode).

Lemma snapStep_interactionMode w :
  interactionMode (snapStep p g dt w) = interactionMode w.
Proof. unfold snapStep; keeps. Qed.

Lemma punchStep_interactionMode w :
  interactionMode (punchStep g dt w) = interactionMode w.
Proof. unfold punchStep; keeps. Qed.

Lemma smashStep_interactionMode w :
  interactionMode (smashStep p g w) = interactionMode w.
Proof. unfold smashStep; keeps. Qed.

Lemma victoryStep_interactionMode w :
  interactionMode (victoryStep g dt w) = interactionMode w.
Proof. unfold victoryStep; keeps. Qed.

Lemma fistStep_interactionMode w :
  interactionMode (fistStep g w) = interactionMode w.
Proof. unfold fistStep; keeps. Qed.

Lemma navigationStep_interactionMode w :
  interactionMode (navigationStep g dt im w) = interactionMode w.
Proof. unfold navigationStep; keeps. Qed.

Lemma presetBlock_interactionMode w :
  interactionMode (presetBlock p dt w) = interactionMode w.
Proof. unfold presetBlock; destruct (activeAnimation p); keeps. Qed.

Lemma publishStep_interactionMode w :
  interactionMode (publishStep p dt w) = interactionMode w.
Proof. unfold publishStep; keeps. Qed.

(** With a preset active, the sub-mode a frame leaves is the one its gesture
    block leaves. *)
Lemma frameBody_preset_interactionMode w :
  activeAnimation p <> NONE ->
  interactionMode (frameBody p g dt im w)
  = interactionMode (gestureBlock p g dt im w).
Proof.
  intros Ha; unfold frameBody.
  destruct (activeAnimation p) eqn:E; [congruence | ..]; cbn [isNONE negb];
    now rewrite publishStep_interactionMode, presetBlock_interactionMode.
Qed.

(** A clap toggles the sub-mode when the timer allows it. *)
Lemma gestureBlock_clap_toggles w :
  interactiveMode p = true -> (0 < handsCount g)%nat ->
  isClapping g = true -> clapCooldown (physics w) <= 0 ->
  interactionMode (gestureBlock p g dt im w) = toggleMode im.
Proof.
  intros Hi Hc Hcl Hw; unfold gestureBlock.
  apply Nat.ltb_lt in Hc; rewrite Hi, Hc; cbn [andb].
  cbn [set_lastHandPos set_physics interactionMode].
  rewrite navigationStep_interactionMode.
  cbn [set_was set_physics interactionMode].
  rewrite fistStep_interactionMode, victoryStep_interactionMode,
    smashStep_interactionMode, punchStep_interactionMode,
    snapStep_interactionMode.
  unfold clapStep; apply Rleb_true in Hw; rewrite Hcl, Hw; cbn [andb].
  keeps.
Qed.

(** Without a tracked hand, or outside interactive mode, the gesture block
    only resets two haptic flags. *)
Lemma gestureBlock_idle w :
  interactiveMode p && Nat.ltb 0 (handsCount g) = false ->
  gestureBlock p g dt im w
  = set_was false false (wasVictory (physics w)) (wasSmash (physics w)) w.
Proof. intros H; unfold gestureBlock; now rewrite H. Qed.

End GestureFrame.

(** Outside interactive mode a frame of the gesture-navigation loop, and a
    frame of the reduced loop, do not read the gesture state. *)
Lemma frame_ignores_gestures_when_not_interactive
  (p : Vis.Props) (g1 g2 : Vis.HandGestures) (delta : R) (w : Vis.Loop) :
  Vis.interactiveMode p = false ->
  Vis.animate p g1 delta w = Vis.animate p g2 delta w
  /\ Reduced.animate p g1 delta w = Reduced.animate p g2 delta w.
Proof.
  intros Hi; split.
  - unfold Vis.animate, Vis.frameBody.
    rewrite !gestureBlock_idle by (now rewrite Hi).
    destruct (negb (isNONE (Vis.activeAnimation p))); [reflexivity|].
    unfold Vis.manualBlock; rewrite Hi; reflexivity.
  - unfold Reduced.animate, Reduced.frameBody, Reduced.gestureBlock.
    rewrite Hi; reflexivity.
Qed.

(** The presets engine of the particle component runs instead of the
    gesture logic: what it leaves in the navigation state and the uniforms
    does not depend on the gesture state. *)
Lemma legacy_preset_ignores_gestures
  (m : FractalMode) (anim : AnimationPreset) (prm : Legacy.Params)
  (g1 g2 : Legacy.HandGestures) (dt : R) (w : Legacy.Loop) :
  anim <> NONE ->
  Legacy.nav (Legacy.animate m anim prm g1 dt w)
  = Legacy.nav (Legacy.animate m anim prm g2 dt w)
  /\ Legacy.u (Legacy.animate m anim prm g1 dt w)
     = Legacy.u (Legacy.animate m anim prm g2 dt w).
Proof.
  intros Ha; unfold Legacy.animate.
  destruct anim; [congruence | ..]; cbn [isNONE negb];
    destruct (Legacy.presetEngine _ dt w) as [[[[n un] evo] phase] target];
    split; reflexivity.
Qed.

Section DiveFrame.

Import Shader Vis.

Variables (p : Props) (g : HandGestures) (dt : R) (im : InteractionMode).

Lemma gestureBlock_animPhase w :
  animPhase (gestureBlock p g dt im w) = animPhase w.
Proof.
  unfold gestureBlock; destruct (_ && _); [|reflexivity].
  cbn [set_lastHandPos set_physics animPhase].
  assert (H1 : forall x, animPhase (navigationStep g dt im x) = animPhase x)
    by (intros; unfold navigationStep; keeps).
  assert (H2 : forall x, animPhase (fistStep g x) = animPhase x)
    by (intros; unfold fistStep; keeps).
  assert (H3 : forall x, animPhase (victoryStep g dt x) = animPhase x)
    by (intros; unfold victoryStep; keeps).
  assert (H4 : forall x, animPhase (smashStep p g x) = animPhase x)
    by (intros; unfold smashStep; keeps).
  assert (H5 : forall x, animPhase (punchStep g dt x) = animPhase x)
    by (intros; unfold punchStep; keeps).
  assert (H6 : forall x, animPhase (snapStep p g dt x) = animPhase x)
    by (intros; unfold snapStep; keeps).
  assert (H7 : forall x, animPhase (clapStep g dt im x) = animPhase x)
    by (intros; unfold clapStep; keeps).
  rewrite H1; cbn [set_was set_physics animPhase].
  now rewrite H2, H3, H4, H5, H6, H7.
Qed.

Lemma gestureBlock_uPan b w :
  uPan (getU b (gestureBlock p g dt im w)) = uPan (getU b w).
Proof.
  unfold gestureBlock; destruct (_ && _); [|reflexivity].
  assert (H0 : forall v x, getU b (set_lastHandPos v x) = getU b x)
    by (intros; unfold getU; destruct b; reflexivity).
  assert (H0' : forall a c d e x, getU b (set_was a c d e x) = getU b x)
    by (intros; unfold getU; destruct b; reflexivity).
  assert (H1 : forall x, getU b (navigationStep g dt im x) = getU b x)
    by (intros; unfold getU, navigationStep; destruct b; keeps).
  assert (H2 : forall x, getU b (fistStep g x) = getU b x)
    by (intros; unfold getU, fistStep; destruct b; keeps).
  assert (H3 : forall x, getU b (victoryStep g dt x) = getU b x)
    by (intros; unfold getU, victoryStep; destruct b; keeps).
  assert (H4 : forall x, uPan (getU b (smashStep p g x)) = uPan (getU b x))
    by (intros; unfold getU, smashStep; destruct b; keeps).
  assert (H5 : forall x, getU b (punchStep g dt x) = getU b x)
    by (intros; unfold getU, punchStep; destruct b; keeps).
  assert (H6 : forall x, uPan (getU b (snapStep p g dt x)) = uPan (getU b x))
    by (intros; unfold getU, snapStep; destruct b; keeps).
  assert (H7 : forall x, getU b (clapStep g dt im x) = getU b x)
    by (intros; unfold getU, clapStep; destruct b; keeps).
  now rewrite H0, H1, H0', H2, H3, H4, H5, H6, H7.
Qed.

Lemma publishStep_uZoomPan b w :
  uZoom (getU b (publishStep p dt w)) = uZoom (getU b w)
  /\ uPan (getU b (publishStep p dt w)) = uPan (getU b w).
Proof. unfold publishStep, getU; destruct b; split; keeps. Qed.

Lemma presetBlock_dive w :
  activeAnimation p = MANDELBROT_DIVE ->
  nav (presetBlock p dt w)
  = {| zoom := Rpower 1.8 (animPhase w + dt);
       pan := Vec2 (-0.74364388703) 0.13182590421 |}
  /\ uZoom (getU (interactiveMode p) (presetBlock p dt w))
     = Rpower 1.8 (animPhase w + dt)
  /\ uPan (getU (interactiveMode p) (presetBlock p dt w))
     = lerp2 (uPan (getU (interactiveMode p) w))
             (Vec2 (-0.74364388703) 0.13182590421) 0.1.
Proof.
  intros Ha; unfold presetBlock, getU; rewrite Ha.
  destruct (interactiveMode p); repeat split; loop_simpl; reflexivity.
Qed.

(** Under MANDELBROT_DIVE a frame sets the zoom and pan targets, and the
    uniforms that follow them, from the phase timer alone. *)
Lemma dive_frame_navigation w :
  activeAnimation p = MANDELBROT_DIVE ->
  let w' := frameBody p g dt im w in
  let b := interactiveMode p in
  zoom (nav w') = Rpower 1.8 (animPhase w + dt)
  /\ pan (nav w') = Vec2 (-0.74364388703) 0.13182590421
  /\ uZoom (getU b w') = Rpower 1.8 (animPhase w + dt)
  /\ uPan (getU b w')
     = lerp2 (uPan (getU b w)) (Vec2 (-0.74364388703) 0.13182590421) 0.1.
Proof.
  intros Ha w' b; unfold w', b, frameBody; rewrite Ha; cbn [isNONE negb].
  destruct (publishStep_uZoomPan (interactiveMode p)
              (presetBlock p dt (gestureBlock p g dt im w))) as [HZ HP].
  destruct (presetBlock_dive (gestureBlock p g dt im w) Ha) as (Hn & Hz & Hp).
  rewrite publishStep_nav, HZ, HP, Hn, Hz, Hp.
  rewrite gestureBlock_animPhase, gestureBlock_uPan.
  repeat split; reflexivity.
Qed.

End DiveFrame.

(** C4, as stated, fails on the gesture-navigation loop: with JULIA_MORPH
    active in interactive mode, one frame from the initial state on a held
    clap toggles the interaction sub-mode, while the same frame without hands
    leaves it alone. *)
Lemma presets_do_not_disable_gestures :
  pubSubMode (publishedBy true
                (Vis.animate (propsWith true JULIA_MORPH) clapHeld (1 / 60)
                             Vis.initialLoop)) = IMMERSIVE_FLY
  /\ pubSubMode (publishedBy true
                   (Vis.animate (propsWith true JULIA_MORPH)
                                Vis.initialGestures (1 / 60) Vis.initialLoop))
     = OBJECT_ORBIT
  /\ ~ presetsDisableGestures.
Proof.
  assert (H1 : pubSubMode (publishedBy true
                 (Vis.animate (propsWith true JULIA_MORPH) clapHeld (1 / 60)
                              Vis.initialLoop)) = IMMERSIVE_FLY).
  { unfold publishedBy, Vis.animate; cbn [pubSubMode].
    rewrite frameBody_preset_interactionMode by discriminate.
    rewrite gestureBlock_clap_toggles;
      [reflexivity | reflexivity | cbn; lia | reflexivity | cbn; lra]. }
  assert (H2 : pubSubMode (publishedBy true
                 (Vis.animate (propsWith true JULIA_MORPH)
                              Vis.initialGestures (1 / 60) Vis.initialLoop))
               = OBJECT_ORBIT).
  { unfold publishedBy, Vis.animate; cbn [pubSubMode].
    rewrite frameBody_preset_interactionMode by discriminate.
    rewrite gestureBlock_idle by reflexivity; reflexivity. }
  split; [exact H1 | split; [exact H2 |]].
  intros H.
  specialize (H (propsWith true JULIA_MORPH) clapHeld Vis.initialGestures
                (1 / 60) Vis.initialLoop).
  assert (Ha : Vis.activeAnimation (propsWith true JULIA_MORPH) <> NONE)
    by discriminate.
  apply H, (f_equal pubSubMode) in Ha.
  change (Vis.interactiveMode (propsWith true JULIA_MORPH)) with true in Ha.
  rewrite H1, H2 in Ha; discriminate Ha.
Qed.

(** C4, amended.  While a preset is active ([anim] is not NONE):
    the presets engine of the particle component leaves a navigation state
    and uniforms that do not depend on the gesture state; the
    gesture-navigation loop does so when interactive mode is off, where the
    whole frame ignores the gesture state; and under MANDELBROT_DIVE its zoom
    and pan, targets and uniforms, are set from the phase timer whatever the
    gestures are. *)
Theorem presets_override_gestures :
  forall (anim : AnimationPreset)
         (m : FractalMode) (prm : Legacy.Params)
         (lg1 lg2 : Legacy.HandGestures) (lw : Legacy.Loop)
         (p : Vis.Props) (g1 g2 : Vis.HandGestures) (w : Vis.Loop) (dt : R),
    anim <> NONE ->
    Vis.activeAnimation p = anim ->
    (Legacy.nav (Legacy.animate m anim prm lg1 dt lw)
     = Legacy.nav (Legacy.animate m anim prm lg2 dt lw)
     /\ Legacy.u (Legacy.animate m anim prm lg1 dt lw)
        = Legacy.u (Legacy.animate m anim prm lg2 dt lw))
    /\ (Vis.interactiveMode p = false ->
        Vis.animate p g1 dt w = Vis.animate p g2 dt w)
    /\ (anim = MANDELBROT_DIVE ->
        let w1 := Vis.animate p g1 dt w in
        let w2 := Vis.animate p g2 dt w in
        let b := Vis.interactiveMode p in
        Vis.nav w1 = Vis.nav w2
        /\ Shader.uZoom (Vis.getU b w1) = Shader.uZoom (Vis.getU b w2)
        /\ Shader.uPan (Vis.getU b w1) = Shader.uPan (Vis.getU b w2)).
Proof.
  intros anim m prm lg1 lg2 lw p g1 g2 w dt Ha Hp.
  split; [now apply legacy_preset_ignores_gestures | split].
  - intros Hi; now apply frame_ignores_gestures_when_not_interactive.
  - intros Hd w1 w2 b; subst anim; unfold w1, w2, b, Vis.animate.
    destruct (dive_frame_navigation p g1 (Rmin dt 0.1)
                (Vis.interactionModeRef w) w Hd) as (Z1 & P1 & UZ1 & UP1).
    destruct (dive_frame_navigation p g2 (Rmin dt 0.1)
                (Vis.interactionModeRef w) w Hd) as (Z2 & P2 & UZ2 & UP2).
    cbv zeta in Z1, P1, UZ1, UP1, Z2, P2, UZ2, UP2.
    rewrite UZ1, UZ2, UP1, UP2; repeat split.
    destruct (Vis.nav (Vis.frameBody p g1 _ _ w)) as [z1 p1],
             (Vis.nav (Vis.frameBody p g2 _ _ w)) as [z2 p2].
    cbn [Vis.zoom Vis.pan] in *; congruence.
Qed.

(** The amended statement at JULIA_MORPH outside interactive mode, on the
    states of the counterexample. *)
Lemma presets_override_gestures_witness :
  Vis.animate (propsWith false JULIA_MORPH) clapHeld (1 / 60) Vis.initialLoop
  = Vis.animate (propsWith false JULIA_MORPH) Vis.initialGestures (1 / 60)
                Vis.initialLoop.
Proof.
  refine (proj1 (proj2 (presets_override_gestures
    JULIA_MORPH MANDELBROT Legacy.defaultParams Legacy.clapSeen
    Legacy.initialGestures Legacy.initialLoop
    (propsWith false JULIA_MORPH) clapHeld Vis.initialGestures
    Vis.initialLoop (1 / 60) _ _)) _).
  - discriminate.
  - reflexivity.
  - reflexivity.
Defined.

(** ** Logarithm and power on the unit interval *)

Lemma ln_neg (x : R) : 0 < x < 1 -> ln x < 0.
Proof. intros [H0 H1]; rewrite <- ln_1; now apply ln_increasing. Qed.

Lemma ln_gt_0 (x : R) : 1 < x -> 0 < ln x.
Proof. intros H; rewrite <- ln_1; apply ln_increasing; lra. Qed.

Lemma ln2_pos : 0 < ln 2.
Proof. apply ln_gt_0; lra. Qed.

Lemma exp_le_1 (x : R) : x <= 0 -> exp x <= 1.
Proof.
  intros [H | ->]; [| rewrite exp_0; lra].
  rewrite <- exp_0; left; now apply exp_increasing.
Qed.

(** [pow] of a base in [0, 1] with a positive exponent is defined and stays
    in [0, 1]. *)
Lemma fpow_unit (x y : R) :
  0 <= x <= 1 -> 0 < y -> exists w, fpow x y = Some w /\ 0 <= w <= 1.
Proof.
  intros [H0 H1] Hy; unfold fpow.
  destruct (Rlt_dec 0 x) as [Hx | Hx].
  - exists (Rpower x y); split; [reflexivity|]; unfold Rpower; split.
    + left; apply exp_pos.
    + apply exp_le_1.
      destruct (Req_dec x 1) as [-> | Hne]; [rewrite ln_1; lra|].
      assert (ln x < 0) by (apply ln_neg; lra); nra.
  - destruct (Req_dec_T x 0) as [_ | Hne]; [| lra].
    destruct (Rlt_dec 0 y) as [_ | Hn]; [| lra].
    exists 0; split; [reflexivity | lra].
Qed.

(** ** The palette *)

Lemma mix3_unit (a b : vec3) (t : R) :
  unitColor a -> unitColor b -> 0 <= t <= 1 -> unitColor (mix3 a b t).
Proof.
  intros (Ha1 & Ha2 & Ha3) (Hb1 & Hb2 & Hb3) Ht; unfold unitColor, mix3.
  cbn [px py pz]; split; [|split]; apply mix_bounds; assumption.
Qed.

Lemma gradient_unit (c1 c2 c3 : vec3) (pulse gamma weight : R) :
  unitColor c1 -> unitColor c2 -> unitColor c3 ->
  0 <= pulse <= 1 -> 0 < gamma -> 0 <= weight <= 1 ->
  exists c, Shader.gradient c1 c2 c3 pulse gamma weight = Some c
            /\ unitColor c.
Proof.
  intros H1 H2 H3 Hp Hg Hw; unfold Shader.gradient.
  destruct (fpow_unit pulse gamma Hp Hg) as (w & -> & Hw').
  cbn [obind]; eexists; split; [reflexivity|].
  apply mix3_unit; [now apply mix3_unit | assumption | nra].
Qed.

Lemma pulse_unit (x : R) : 0 <= 0.5 + 0.5 * sin x <= 1.
Proof. pose proof (SIN_bound x); lra. Qed.

(** Every colour of the palette is defined, with channels in [0, 1]. *)
Lemma getPalette_unit (u : Shader.Uniforms) (t id : R) :
  exists c, Shader.getPalette u t id = Some c /\ unitColor c.
Proof.
  unfold Shader.getPalette.
  set (pulse := if Rlt_dec 0.5 _ then _ else _).
  assert (Hp : 0 <= pulse <= 1)
    by (unfold pulse; destruct (Rlt_dec 0.5 _); apply pulse_unit).
  clearbody pulse.
  split_ifs; apply gradient_unit; unfold unitColor; cbn [px py pz];
    try assumption; lra.
Qed.

(** The palette reads the uniforms [uTime] and [uVisualMode], and nothing
    else of the uniforms. *)
Lemma getPalette_reads (u1 u2 : Shader.Uniforms) (t id : R) :
  Shader.uTime u1 = Shader.uTime u2 ->
  Shader.uVisualMode u1 = Shader.uVisualMode u2 ->
  Shader.getPalette u1 t id = Shader.getPalette u2 t id.
Proof. intros Ht Hv; unfold Shader.getPalette; now rewrite Ht, Hv. Qed.

(** In visual mode the pulse is static: the colour depends on [(t, id)]
    alone. *)
Lemma getPalette_static (u1 u2 : Shader.Uniforms) (t id : R) :
  0.5 < Shader.uVisualMode u1 -> 0.5 < Shader.uVisualMode u2 ->
  Shader.getPalette u1 t id = Shader.getPalette u2 t id.
Proof.
  intros H1 H2; unfold Shader.getPalette.
  destruct (Rlt_dec 0.5 (Shader.uVisualMode u1)); [|lra].
  destruct (Rlt_dec 0.5 (Shader.uVisualMode u2)); [|lra].
  reflexivity.
Qed.

(** The Magma palette (id 1) in interactive mode. *)
Lemma getPalette_magma (u : Shader.Uniforms) (t : R) :
  Shader.uVisualMode u <= 0.5 ->
  Shader.getPalette u t 1
  = Shader.gradient (Vec3 0.1 0 0) (Vec3 0.6 0.1 0) (Vec3 1 0.7 0.1)
      (0.5 + 0.5 * sin (t * 3 + Shader.uTime u * 0.1)) 3 1.
Proof.
  intros Hv; unfold Shader.getPalette.
  destruct (Rlt_dec 0.5 (Shader.uVisualMode u)); [lra|].
  destruct (Rlt_dec 1 0.5); [lra|].
  destruct (Rlt_dec 1 1.5); [reflexivity | lra].
Qed.

Lemma Rpower_cube (x : R) : 0 < x -> Rpower x 3 = x * x * x.
Proof.
  intros Hx; replace 3 with (INR 3) by (cbn; lra).
  rewrite Rpower_pow by assumption; ring.
Qed.

(** C3, as stated, fails: in interactive mode the pulse of the palette moves
    with [uTime], so two evaluations at the same [(t, id)] in two frames give
    two colours.  Here [t = 0], [id = 1], at [uTime = 0] and at
    [uTime = 5 pi]: the red channel is 0.43125 in one and 1 in the other. *)
Lemma palette_depends_on_time :
  Shader.getPalette Legacy.initialUniforms 0 1
  <> Shader.getPalette (Shader.set_uTime (5 * PI) Legacy.initialUniforms) 0 1
  /\ ~ paletteOfArgsOnly.
Proof.
  assert (Hne : Shader.getPalette Legacy.initialUniforms 0 1
                <> Shader.getPalette
                     (Shader.set_uTime (5 * PI) Legacy.initialUniforms) 0 1).
  { rewrite !getPalette_magma
      by (cbn [Shader.uVisualMode Shader.set_uTime Legacy.initialUniforms];
          lra).
    cbn [Shader.uTime Shader.set_uTime Legacy.initialUniforms].
    replace (0 * 3 + 0 * 0.1) with 0 by lra.
    replace (0 * 3 + 5 * PI * 0.1) with (PI / 2) by lra.
    rewrite sin_0, sin_PI2.
    unfold Shader.gradient, fpow.
    destruct (Rlt_dec 0 (0.5 + 0.5 * 0)) as [_|Hn]; [|lra].
    destruct (Rlt_dec 0 (0.5 + 0.5 * 1)) as [_|Hn]; [|lra].
    rewrite !Rpower_cube by lra.
    cbn [obind]; intros H; injection H as Hx _ _.
    unfold mix in Hx; lra. }
  split; [exact Hne|].
  intros H; apply Hne, H; right; left; reflexivity.
Qed.

(** C3, amended.  The colour is a function of [(t, id)] and of the two
    uniforms the palette reads, [uTime] and [uVisualMode]; in visual mode
    ([uVisualMode > 0.5]) it is a function of [(t, id)] alone; and for every
    real [t] and every palette value, so for the ids 0 to 4, the colour is
    defined with every channel in [0, 1]. *)
Theorem palette_deterministic_and_bounded :
  forall (u1 u2 : Shader.Uniforms) (t id : R),
    (Shader.uTime u1 = Shader.uTime u2 ->
     Shader.uVisualMode u1 = Shader.uVisualMode u2 ->
     Shader.getPalette u1 t id = Shader.getPalette u2 t id)
    /\ (0.5 < Shader.uVisualMode u1 -> 0.5 < Shader.uVisualMode u2 ->
        Shader.getPalette u1 t id = Shader.getPalette u2 t id)
    /\ (exists c, Shader.getPalette u1 t id = Some c /\ unitColor c).
Proof.
  intros u1 u2 t id; split; [|split].
  - apply getPalette_reads.
  - apply getPalette_static.
  - apply getPalette_unit.
Qed.

(** The static palette of the visual mode at two different times. *)
Lemma palette_static_witness :
  Shader.getPalette (Shader.set_uVisualMode 1 Legacy.initialUniforms) 0 1
  = Shader.getPalette
      (Shader.set_uTime (5 * PI)
         (Shader.set_uVisualMode 1 Legacy.initialUniforms)) 0 1.
Proof.
  refine (proj1 (proj2 (palette_deterministic_and_bounded
    (Shader.set_uVisualMode 1 Legacy.initialUniforms)
    (Shader.set_uTime (5 * PI)
       (Shader.set_uVisualMode 1 Legacy.initialUniforms)) 0 1)) _ _).
  - cbn [Shader.uVisualMode Shader.set_uVisualMode]; lra.
  - cbn [Shader.uVisualMode Shader.set_uVisualMode Shader.set_uTime]; lra.
Defined.

(** ** The escape-time loop *)

Section EscapeTime.

Variable u : Shader.Uniforms.
Variables (mode : R) (c : vec2).

Let step := Shader.fractalStep mode c.

(** The loop on an orbit that escapes at count [k]: it stops at iterate
    [k + 1] with [iter] advanced by [k]. *)
Lemma escapeLoop_escape (k : nat) :
  forall (fuel : nat) (i : R) (z : vec2) (iter : R),
    (k < fuel)%nat ->
    i + INR k < Shader.loopLimit u ->
    (forall j, (1 <= j <= k)%nat ->
               dot2 (Nat.iter j step z) (Nat.iter j step z) <= 4) ->
    4 < dot2 (Nat.iter (S k) step z) (Nat.iter (S k) step z) ->
    Shader.escapeLoop u fuel mode c i z iter
    = (Nat.iter (S k) step z, iter + INR k).
Proof.
  induction k as [|k IH]; intros fuel i z iter Hf Hi Hin Hout;
    (destruct fuel as [|fuel]; [lia|]); cbn [Shader.escapeLoop].
  - cbn [INR] in Hi.
    destruct (Rle_dec (Shader.loopLimit u) i) as [Hl|_]; [lra|].
    fold step; cbn [Nat.iter nat_rect] in Hout.
    destruct (Rlt_dec 4 _) as [_|Hn]; [|contradiction].
    cbn [INR Nat.iter nat_rect]; now rewrite Rplus_0_r.
  - pose proof (pos_INR k) as Hk; rewrite S_INR in Hi.
    destruct (Rle_dec (Shader.loopLimit u) i) as [Hl|_]; [lra|].
    fold step.
    destruct (Rlt_dec 4 (dot2 (step z) (step z))) as [He|_].
    { specialize (Hin 1%nat); cbn [Nat.iter nat_rect] in Hin.
      assert (dot2 (step z) (step z) <= 4) by (apply Hin; lia). lra. }
    rewrite (IH fuel (i + 1) (step z) (iter + 1)).
    + rewrite <- !Nat.iter_succ_r, (S_INR k); f_equal; ring.
    + lia.
    + lra.
    + intros j Hj; rewrite <- Nat.iter_succ_r; apply Hin; lia.
    + now rewrite <- Nat.iter_succ_r.
Qed.

(** Whatever the loop returns satisfies every property of the start value
    that the recurrence preserves. *)
Lemma escapeLoop_invariant (P : vec2 -> Prop) :
  (forall z, P z -> P (step z)) ->
  forall (fuel : nat) (i : R) (z : vec2) (iter : R),
    P z -> P (fst (Shader.escapeLoop u fuel mode c i z iter)).
Proof.
  intros Hstep; induction fuel as [|fuel IH]; intros i z iter Hz;
    cbn [Shader.escapeLoop]; [exact Hz|].
  destruct (Rle_dec _ i); [exact Hz|]; fold step.
  destruct (Rlt_dec 4 _); [now apply Hstep|].
  now apply IH, Hstep.
Qed.

End EscapeTime.

Lemma loopLimit_pos (u : Shader.Uniforms) :
  0 < Shader.uMaxIter u -> Shader.loopLimit u = Shader.uMaxIter u.
Proof.
  intros H; unfold Shader.loopLimit.
  destruct (Rlt_dec 0 (Shader.uMaxIter u)); [reflexivity | lra].
Qed.

Lemma loopLimit_nonzero (u : Shader.Uniforms) : Shader.loopLimit u <> 0.
Proof. unfold Shader.loopLimit; destruct (Rlt_dec 0 _); lra. Qed.

(** [IterateFractal] runs the loop from [startOf] with the constant
    [constOf]. *)
Lemma IterateFractal_unfold (u : Shader.Uniforms) (pos : vec2) (mode : R) :
  Shader.IterateFractal u pos mode
  = let zi := Shader.escapeLoop u 100 mode (constOf u pos mode) 0
                                (startOf u pos mode) 0 in
    obind (flog2 (dot2 (fst zi) (fst zi)))
      (fun l => obind (flog2 l)
         (fun ll => obind (fdiv (snd zi - ll + 4) (Shader.loopLimit u))
            (fun depth => Some (Vec3 (vx (fst zi)) (vy (fst zi)) depth)))).
Proof.
  unfold Shader.IterateFractal, constOf, startOf.
  destruct (Rltb (Rabs (mode - 1)) 0.1);
    destruct (Shader.escapeLoop u 100 mode _ 0 _ 0); reflexivity.
Qed.

(** C8, amended.  On a point whose orbit escapes at count [n] inside the
    loop, that is with [n] below the hard cap of 100 iterations and below
    the configured cap, the pseudo-depth [IterateFractal] returns is
    [(n - log2 (log2 |z|^2) + 4) / uMaxIter], where [z] is iterate [n + 1],
    the first one with [|z|^2 > 4]; the first two components are [z]. *)
Theorem escape_pseudo_depth :
  forall (u : Shader.Uniforms) (pos : vec2) (mode : R) (n : nat),
    0 < Shader.uMaxIter u ->
    (n < 100)%nat ->
    INR n < Shader.uMaxIter u ->
    escapesAt mode (constOf u pos mode) (startOf u pos mode) n ->
    let z := orbit mode (constOf u pos mode) (startOf u pos mode) (S n) in
    Shader.IterateFractal u pos mode
    = Some (Vec3 (vx z) (vy z)
                 ((INR n - log2 (log2 (dot2 z z)) + 4) / Shader.uMaxIter u)).
Proof.
  intros u pos mode n Hmax Hn Hcap [Hin Hout] z.
  rewrite IterateFractal_unfold.
  rewrite (escapeLoop_escape u mode _ n);
    [| lia | rewrite loopLimit_pos by assumption; lra | exact Hin | exact Hout].
  cbv zeta; cbn [fst snd]; fold (orbit mode (constOf u pos mode)
                                       (startOf u pos mode) (S n)); fold z.
  fold z in Hout.
  assert (Hl : 0 < ln (dot2 z z) / ln 2).
  { apply Rdiv_lt_0_compat; [apply ln_gt_0; lra | apply ln2_pos]. }
  unfold flog2, fdiv.
  destruct (Rlt_dec 0 (dot2 z z)) as [_|Hn0]; [|lra]; cbn [obind].
  destruct (Rlt_dec 0 (ln (dot2 z z) / ln 2)) as [_|Hn1]; [|lra]; cbn [obind].
  destruct (Req_dec_T (Shader.loopLimit u) 0) as [H0|_];
    [now apply loopLimit_nonzero in H0|]; cbn [obind].
  rewrite loopLimit_pos by assumption; unfold log2.
  rewrite Rplus_0_l; reflexivity.
Qed.

(** Away from the Julia mode the recurrence starts at 0 with the point as
    its constant. *)
Lemma not_julia (u : Shader.Uniforms) (pos : vec2) (mode : R) :
  1.1 <= mode ->
  startOf u pos mode = Vec2 0 0 /\ constOf u pos mode = pos.
Proof.
  intros Hm; unfold startOf, constOf.
  assert (H : Rltb (Rabs (mode - 1)) 0.1 = false).
  { apply Rltb_false. rewrite Rabs_pos_eq; lra. }
  now rewrite H.
Qed.

Lemma mandelbrot_step (mode : R) (c z : vec2) :
  mode < 2.5 ->
  Shader.fractalStep mode c z
  = Vec2 (vx z * vx z - vy z * vy z + vx c) (2 * vx z * vy z + vy c).
Proof.
  intros Hm; unfold Shader.fractalStep.
  destruct (Rlt_dec mode 2.5); [reflexivity | lra].
Qed.

(** The point [1 + 0i] in the Mandelbrot mode: the iterates 1 and 2 stay
    within [|z|^2 <= 4], iterate 3 is 5, so it escapes at count 2. *)
Lemma escape_pseudo_depth_witness :
  let z := orbit 2 (constOf mandelbrotUniforms (Vec2 1 0) 2)
                 (startOf mandelbrotUniforms (Vec2 1 0) 2) 3 in
  Shader.IterateFractal mandelbrotUniforms (Vec2 1 0) 2
  = Some (Vec3 (vx z) (vy z)
               ((INR 2 - log2 (log2 (dot2 z z)) + 4)
                / Shader.uMaxIter mandelbrotUniforms)).
Proof.
  apply (escape_pseudo_depth mandelbrotUniforms (Vec2 1 0) 2 2).
  - cbn [mandelbrotUniforms Shader.set_uMode Shader.uMaxIter
         Legacy.initialUniforms]; lra.
  - lia.
  - cbn [mandelbrotUniforms Shader.set_uMode Shader.uMaxIter
         Legacy.initialUniforms INR]; lra.
  - destruct (not_julia mandelbrotUniforms (Vec2 1 0) 2) as [-> ->]; [lra|].
    split.
    + intros k Hk.
      assert (Hk' : k = 1%nat \/ k = 2%nat) by lia.
      destruct Hk' as [-> | ->]; unfold orbit; cbn [Nat.iter nat_rect];
        rewrite !mandelbrot_step by lra;
        unfold dot2; cbn [vx vy]; lra.
    + unfold orbit; cbn [Nat.iter nat_rect].
      rewrite !mandelbrot_step by lra.
      unfold dot2; cbn [vx vy]; lra.
Defined.

(** ** Points that never escape *)

(** If the orbit stays in a region of [|z|^2 <= 1], the smoothed count takes
    the logarithm of a non-positive number: [IterateFractal] has no finite
    result. *)
Lemma IterateFractal_trapped
  (u : Shader.Uniforms) (pos : vec2) (mode : R) (P : vec2 -> Prop) :
  P (startOf u pos mode) ->
  (forall z, P z -> P (Shader.fractalStep mode (constOf u pos mode) z)) ->
  (forall z, P z -> dot2 z z <= 1) ->
  Shader.IterateFractal u pos mode = None.
Proof.
  intros H0 Hstep Hsmall.
  rewrite IterateFractal_unfold; cbv zeta.
  pose proof (escapeLoop_invariant u mode (constOf u pos mode) P Hstep
                100 0 (startOf u pos mode) 0 H0) as HP.
  apply Hsmall in HP.
  set (d := dot2 _ _) in *.
  unfold flog2 at 1.
  destruct (Rlt_dec 0 d) as [Hd|_]; [|reflexivity]; cbn [obind].
  assert (Hl : ln d / ln 2 <= 0).
  { pose proof ln2_pos.
    destruct (Req_dec d 1) as [-> | Hne].
    - rewrite ln_1; unfold Rdiv; rewrite Rmult_0_l; lra.
    - assert (ln d < 0) by (apply ln_neg; lra).
      assert (0 < / ln 2) by now apply Rinv_0_lt_compat.
      unfold Rdiv; nra. }
  unfold flog2.
  destruct (Rlt_dec 0 (ln d / ln 2)); [lra | reflexivity].
Qed.

(** The region the orbit of [c = 0.125] stays in. *)
Lemma inside_region_step (mode : R) (z : vec2) :
  mode < 2.5 ->
  vy z = 0 /\ 0 <= vx z <= 0.25 ->
  let z' := Shader.fractalStep mode (Vec2 0.125 0) z in
  vy z' = 0 /\ 0 <= vx z' <= 0.25.
Proof.
  intros Hm [Hy Hx] z'; unfold z'; rewrite mandelbrot_step by assumption.
  cbn [vx vy]; rewrite Hy; split; [ring | nra].
Qed.

(** In the Mandelbrot branch of the mode range, at the initial navigation,
    the vertex of [insideSeed] has no finite result, whatever the iteration
    cap, the power and the other uniforms are. *)
Lemma main_inside_undefined (u : Shader.Uniforms) :
  1.1 <= Shader.uMode u < 2.5 ->
  Shader.uZoom u = 1 ->
  Shader.uPan u = Vec2 0 0 ->
  Shader.main u insideSeed = None.
Proof.
  intros [Hlo Hhi] Hz Hp.
  assert (Hit : Shader.IterateFractal u (Vec2 0.125 0) (Shader.uMode u) = None).
  { apply (IterateFractal_trapped u _ _
             (fun z => vy z = 0 /\ 0 <= vx z <= 0.25)).
    - destruct (not_julia u (Vec2 0.125 0) (Shader.uMode u) Hlo) as [-> _].
      cbn [vx vy]; lra.
    - destruct (not_julia u (Vec2 0.125 0) (Shader.uMode u) Hlo) as [_ ->].
      intros z Hzr; now apply inside_region_step.
    - intros z [Hy Hx]; unfold dot2; rewrite Hy; nra. }
  unfold Shader.main, Shader.pos3D, Shader.calc2D.
  destruct (Rlt_dec (Shader.uMode u) 0.5); [lra|].
  assert (H1 : Rltb 4.5 (Shader.uMode u) = false) by (apply Rltb_false; lra).
  assert (H2 : Rleb 0.5 (Shader.uMode u) = true) by (apply Rleb_true; lra).
  assert (H3 : Rleb (Shader.uMode u) 4.5 = true) by (apply Rleb_true; lra).
  rewrite H1, H2, H3; cbn [andb].
  destruct (Rlt_dec 5.5 (Shader.uMode u)); [lra|].
  cbn [obind insideSeed Shader.position px py vx vy].
  rewrite Hz, Hp; unfold fdiv.
  destruct (Req_dec_T 1 0); [lra|]; cbn [obind].
  replace (add2 _ _) with (Vec2 0.125 0)
    by (unfold add2; cbn [vx vy]; f_equal; lra).
  rewrite Hit; reflexivity.
Qed.

(** C1, at the failing input.  In the Mandelbrot mode, with the default cap
    of 20 iterations and the default power 8, the seed [(0.0625, 0, 0)]
    maps to [c = 0.125], whose orbit never escapes: the kernel returns no
    finite position or colour. *)
Theorem kernel_undefined_inside_the_set :
  Shader.main mandelbrotUniforms insideSeed = None.
Proof.
  apply main_inside_undefined.
  - cbn [mandelbrotUniforms Shader.set_uMode Shader.uMode]; lra.
  - reflexivity.
  - reflexivity.
Qed.

(** ** Orbits longer than the hard cap *)

Section HardCap.

Variable u : Shader.Uniforms.
Variables (mode : R) (c : vec2).

Let step := Shader.fractalStep mode c.

(** The loop on an orbit that does not escape while the fuel lasts: it runs
    out of iterations at iterate [fuel], with [iter] advanced by [fuel]. *)
Lemma escapeLoop_exhaust (fuel : nat) :
  forall (i : R) (z : vec2) (iter : R),
    i + INR fuel <= Shader.loopLimit u ->
    (forall j, (1 <= j <= fuel)%nat ->
               dot2 (Nat.iter j step z) (Nat.iter j step z) <= 4) ->
    Shader.escapeLoop u fuel mode c i z iter
    = (Nat.iter fuel step z, iter + INR fuel).
Proof.
  induction fuel as [|fuel IH]; intros i z iter Hi Hin;
    cbn [Shader.escapeLoop].
  - cbn [Nat.iter nat_rect INR]. now rewrite Rplus_0_r.
  - pose proof (pos_INR fuel) as Hf. rewrite S_INR in Hi.
    destruct (Rle_dec (Shader.loopLimit u) i) as [Hl|_]; [lra|].
    fold step.
    destruct (Rlt_dec 4 (dot2 (step z) (step z))) as [He|_].
    { specialize (Hin 1%nat); cbn [Nat.iter nat_rect] in Hin.
      assert (dot2 (step z) (step z) <= 4) by (apply Hin; lia). lra. }
    rewrite (IH (i + 1) (step z) (iter + 1)).
    + rewrite <- Nat.iter_succ_r, (S_INR fuel). f_equal. ring.
    + lra.
    + intros j Hj. rewrite <- Nat.iter_succ_r. apply Hin. lia.
Qed.

End HardCap.

(** The smoothed count on a loop that ran out of iterations at iterate [N]
    within the unit circle: the inner logarithm is not positive, so the outer
    one has no value. *)
Lemma capped_chain (u : Shader.Uniforms) (mode : R) (c z0 : vec2) (N : nat) :
  INR N <= Shader.loopLimit u ->
  (forall j, (1 <= j <= N)%nat ->
     dot2 (orbit mode c z0 j) (orbit mode c z0 j) <= 4) ->
  dot2 (orbit mode c z0 N) (orbit mode c z0 N) <= 1 ->
  (let zi := Shader.escapeLoop u N mode c 0 z0 0 in
   obind (flog2 (dot2 (fst zi) (fst zi)))
     (fun l => obind (flog2 l)
        (fun ll => obind (fdiv (snd zi - ll + 4) (Shader.loopLimit u))
           (fun depth => Some (Vec3 (vx (fst zi)) (vy (fst zi)) depth)))))
  = None.
Proof.
  intros Hcap Hin Hsmall.
  rewrite (escapeLoop_exhaust u mode c N);
    [| lra | intros j Hj; apply (Hin j Hj)].
  cbv zeta. cbn [fst snd]. unfold orbit in Hsmall.
  set (d := dot2 _ _) in *.
  unfold flog2 at 1.
  destruct (Rlt_dec 0 d) as [Hd|_]; [|reflexivity]. cbn [obind].
  assert (Hl : ln d / ln 2 <= 0).
  { pose proof ln2_pos.
    destruct (Req_dec d 1) as [-> | Hne].
    - rewrite ln_1; unfold Rdiv; rewrite Rmult_0_l; lra.
    - assert (ln d < 0) by (apply ln_neg; lra).
      assert (0 < / ln 2) by now apply Rinv_0_lt_compat.
      unfold Rdiv; nra. }
  unfold flog2.
  destruct (Rlt_dec 0 (ln d / ln 2)); [lra | reflexivity].
Qed.

(** With the configured cap at 100 or above, a point whose first 100
    iterates stay within [|z|^2 <= 4] is evaluated at iterate 100; if that
    iterate lies within the unit circle there is no finite pseudo-depth. *)
Lemma IterateFractal_capped (u : Shader.Uniforms) (pos : vec2) (mode : R) :
  100 <= Shader.uMaxIter u ->
  (forall j, (1 <= j <= 100)%nat ->
     dot2 (orbit mode (constOf u pos mode) (startOf u pos mode) j)
          (orbit mode (constOf u pos mode) (startOf u pos mode) j) <= 4) ->
  dot2 (orbit mode (constOf u pos mode) (startOf u pos mode) 100)
       (orbit mode (constOf u pos mode) (startOf u pos mode) 100) <= 1 ->
  Shader.IterateFractal u pos mode = None.
Proof.
  intros Hmax Hin Hsmall.
  rewrite IterateFractal_unfold.
  apply capped_chain; [| exact Hin | exact Hsmall].
  rewrite loopLimit_pos by lra.
  rewrite INR_IZR_INZ. change (Z.of_nat 100) with 100%Z. lra.
Qed.

(** *** A point that escapes at count 219 *)

Lemma scale_pos : 0 < IZR scale.
Proof. apply IZR_lt. reflexivity. Qed.

Lemma cuspC_exact : IZR cuspC = IZR scale * 0.2502.
Proof.
  assert (H : IZR cuspC * 10000 = IZR scale * 2502).
  { rewrite <- !mult_IZR. apply f_equal. vm_compute. reflexivity. }
  lra.
Qed.

(** One step of the enclosure is sound. *)
Lemma encloseStep_sound (b : Z * Z) (x : R) :
  (0 <= fst b)%Z ->
  IZR (fst b) <= IZR scale * x <= IZR (snd b) ->
  (0 <= fst (encloseStep b))%Z
  /\ IZR (fst (encloseStep b)) <= IZR scale * (x * x + 0.2502)
     <= IZR (snd (encloseStep b)).
Proof.
  destruct b as [L U]. cbn [fst snd encloseStep]. intros HL [Hlo Hhi].
  pose proof scale_pos as HS.
  assert (Hs : (0 < scale)%Z) by reflexivity.
  assert (HL' : 0 <= IZR L) by (apply IZR_le; exact HL).
  assert (Hq1 : (scale * (L * L / scale) <= L * L)%Z)
    by (apply Z.mul_div_le; exact Hs).
  assert (Hq2 : (U * U <= scale * ((U * U + scale - 1) / scale))%Z).
  { pose proof (Z.mul_succ_div_gt (U * U + scale - 1) scale Hs). lia. }
  assert (Hq0 : (0 <= L * L / scale)%Z)
    by (apply Z.div_pos; [apply Z.mul_nonneg_nonneg; exact HL | exact Hs]).
  apply IZR_le in Hq1, Hq2. rewrite !mult_IZR in Hq1, Hq2.
  rewrite !plus_IZR, cuspC_exact.
  split; [unfold cuspC; lia|].
  set (q1 := IZR (L * L / scale)) in *.
  set (q2 := IZR ((U * U + scale - 1) / scale)) in *.
  assert (Hx : 0 <= IZR scale * x) by lra.
  split.
  - assert (IZR scale * q1 <= IZR scale * (IZR scale * (x * x))).
    { apply Rle_trans with (IZR L * IZR L); [exact Hq1|].
      replace (IZR scale * (IZR scale * (x * x)))
        with ((IZR scale * x) * (IZR scale * x)) by ring.
      apply Rmult_le_compat; lra. }
    assert (q1 <= IZR scale * (x * x))
      by (apply Rmult_le_reg_l with (IZR scale); assumption).
    lra.
  - assert (IZR scale * (IZR scale * (x * x)) <= IZR scale * q2).
    { apply Rle_trans with (IZR U * IZR U); [|exact Hq2].
      replace (IZR scale * (IZR scale * (x * x)))
        with ((IZR scale * x) * (IZR scale * x)) by ring.
      apply Rmult_le_compat; lra. }
    assert (IZR scale * (x * x) <= q2)
      by (apply Rmult_le_reg_l with (IZR scale); assumption).
    lra.
Qed.

Lemma enclosure_sound (k : nat) :
  (0 <= fst (enclosure k))%Z
  /\ IZR (fst (enclosure k)) <= IZR scale * cuspOrbit k
     <= IZR (snd (enclosure k)).
Proof.
  induction k as [|k [IH0 IH]].
  - unfold enclosure, cuspOrbit; cbn [Nat.iter nat_rect fst snd].
    split; [lia | lra].
  - unfold enclosure, cuspOrbit in *. cbn [Nat.iter nat_rect].
    apply encloseStep_sound; assumption.
Qed.

Lemma cuspOrbit_grows (k : nat) :
  0 <= cuspOrbit k /\ cuspOrbit k <= cuspOrbit (S k).
Proof.
  split.
  - induction k as [|k IH]; unfold cuspOrbit in *; cbn [Nat.iter nat_rect];
      [lra | nra].
  - unfold cuspOrbit. rewrite Nat.iter_succ.
    set (x := Nat.iter k _ 0).
    pose proof (Rle_0_sqr (x - 1 / 2)) as H. unfold Rsqr in H. nra.
Qed.

Lemma cuspOrbit_monotone (k m : nat) :
  (k <= m)%nat -> cuspOrbit k <= cuspOrbit m.
Proof.
  induction 1 as [|m _ IH]; [lra|].
  eapply Rle_trans; [exact IH | apply cuspOrbit_grows].
Qed.

Lemma enclosure_100 : (snd (enclosure 100) <=? scale)%Z = true.
Proof. vm_compute. reflexivity. Qed.

Lemma enclosure_219 : (snd (enclosure 219) <=? 2 * scale)%Z = true.
Proof. vm_compute. reflexivity. Qed.

Lemma enclosure_220 : (2 * scale <? fst (enclosure 220))%Z = true.
Proof. vm_compute. reflexivity. Qed.

Lemma cuspOrbit_bounds :
  cuspOrbit 100 <= 1 /\ cuspOrbit 219 <= 2 /\ 2 < cuspOrbit 220.
Proof.
  pose proof scale_pos as HS.
  destruct (enclosure_sound 100) as (_ & _ & H100).
  destruct (enclosure_sound 219) as (_ & _ & H219).
  destruct (enclosure_sound 220) as (_ & H220 & _).
  pose proof enclosure_100 as E100. apply Z.leb_le, IZR_le in E100.
  pose proof enclosure_219 as E219. apply Z.leb_le, IZR_le in E219.
  pose proof enclosure_220 as E220. apply Z.ltb_lt, IZR_lt in E220.
  rewrite mult_IZR in E219, E220.
  split; [|split].
  - apply Rmult_le_reg_l with (IZR scale); [exact HS | lra].
  - apply Rmult_le_reg_l with (IZR scale); [exact HS | lra].
  - apply Rmult_lt_reg_l with (IZR scale); [exact HS | lra].
Qed.

(** The orbit of [cuspPoint] in the Mandelbrot mode. *)
Lemma cusp_orbit (u : Shader.Uniforms) (k : nat) :
  orbit 2 (constOf u cuspPoint 2) (startOf u cuspPoint 2) k
  = Vec2 (cuspOrbit k) 0.
Proof.
  destruct (not_julia u cuspPoint 2) as [-> ->]; [lra|].
  induction k as [|k IH]; [reflexivity|].
  unfold orbit, cuspOrbit in *. rewrite !Nat.iter_succ.
  rewrite IH, mandelbrot_step by lra.
  unfold cuspPoint; cbn [vx vy]. f_equal; lra.
Qed.

Lemma cusp_dot (u : Shader.Uniforms) (k : nat) :
  dot2 (orbit 2 (constOf u cuspPoint 2) (startOf u cuspPoint 2) k)
       (orbit 2 (constOf u cuspPoint 2) (startOf u cuspPoint 2) k)
  = cuspOrbit k * cuspOrbit k.
Proof. rewrite cusp_orbit. unfold dot2; cbn [vx vy]. ring. Qed.

Lemma cusp_within (u : Shader.Uniforms) (k : nat) :
  (k <= 219)%nat ->
  dot2 (orbit 2 (constOf u cuspPoint 2) (startOf u cuspPoint 2) k)
       (orbit 2 (constOf u cuspPoint 2) (startOf u cuspPoint 2) k) <= 4.
Proof.
  intros Hk. rewrite cusp_dot.
  destruct cuspOrbit_bounds as (_ & H219 & _).
  pose proof (cuspOrbit_grows k) as [H0 _].
  pose proof (cuspOrbit_monotone k 219 Hk).
  nra.
Qed.

Lemma cusp_escapes (u : Shader.Uniforms) :
  escapesAt 2 (constOf u cuspPoint 2) (startOf u cuspPoint 2) 219.
Proof.
  destruct cuspOrbit_bounds as (_ & _ & H220).
  split.
  - intros k Hk. apply cusp_within. lia.
  - rewrite cusp_dot. nra.
Qed.

(** C8, as stated, fails beyond the hard cap of the loop.  With the
    iteration cap configured at 500, the orbit of [c = 0.2502] in the
    Mandelbrot mode escapes at count 219, below the configured cap; but the
    loop never runs more than 100 iterations, stops at iterate 100, which
    lies within the unit circle, and the kernel has no finite pseudo-depth
    at all, where the claim gives [(219 - log2 (log2 |z|^2) + 4) / 500]. *)
Lemma escape_beyond_hard_cap :
  escapesAt 2 (constOf deepUniforms cuspPoint 2)
            (startOf deepUniforms cuspPoint 2) 219
  /\ INR 219 < Shader.uMaxIter deepUniforms
  /\ Shader.IterateFractal deepUniforms cuspPoint 2 = None
  /\ ~ pseudoDepthOfEveryEscape.
Proof.
  assert (Hcap : Shader.uMaxIter deepUniforms = 500) by reflexivity.
  assert (Hn : INR 219 < Shader.uMaxIter deepUniforms).
  { rewrite Hcap, INR_IZR_INZ. change (Z.of_nat 219) with 219%Z. lra. }
  assert (Hnone : Shader.IterateFractal deepUniforms cuspPoint 2 = None).
  { destruct cuspOrbit_bounds as (H100 & _ & _).
    apply IterateFractal_capped.
    - rewrite Hcap; lra.
    - intros j Hj. apply cusp_within. lia.
    - rewrite cusp_dot.
      pose proof (cuspOrbit_grows 100) as [H0 _]. nra. }
  split; [apply cusp_escapes | split; [exact Hn | split; [exact Hnone|]]].
  intros H.
  specialize (H deepUniforms cuspPoint 2 219%nat).
  rewrite Hnone in H.
  specialize (H ltac:(rewrite Hcap; lra) Hn (cusp_escapes deepUniforms)).
  cbv zeta in H. discriminate H.
Qed.

(** * Further properties *)

(** ** Damping never overshoots *)

(** X1.  With a non-negative [lambda * dt], one [damp] step shrinks the
    distance to the target by the factor [e^(-lambda dt)]: the new value lies
    between the old value and the target, on the same side of the target. *)
Theorem damp_no_overshoot :
  forall (x target lambda dt : R),
    0 <= lambda * dt ->
    damp x target lambda dt - target = (x - target) * exp (- lambda * dt)
    /\ Rabs (damp x target lambda dt - target) <= Rabs (x - target)
    /\ (x <= target -> x <= damp x target lambda dt <= target)
    /\ (target <= x -> target <= damp x target lambda dt <= x).
Proof.
  intros x target lambda dt H.
  assert (He : 0 < exp (- lambda * dt) <= 1).
  { split; [apply exp_pos | apply exp_le_1; lra]. }
  assert (Heq : damp x target lambda dt - target
                = (x - target) * exp (- lambda * dt))
    by (rewrite damp_decay; ring).
  split; [exact Heq | split; [| split]].
  - rewrite Heq, Rabs_mult, (Rabs_pos_eq (exp _)) by lra.
    pose proof (Rabs_pos (x - target)); nra.
  - intros Hx; rewrite damp_decay; nra.
  - intros Hx; rewrite damp_decay; nra.
Qed.

Lemma damp_no_overshoot_witness :
  0 <= damp 0 6 5 (1 / 60) <= 6.
Proof.
  refine (proj1 (proj2 (proj2 (damp_no_overshoot 0 6 5 (1 / 60) _))) _); lra.
Defined.

(** ** The wheel handlers *)

Lemma sign_cases (x : R) : sign x = 1 \/ sign x = -1 \/ sign x = 0.
Proof. unfold sign; destruct (Rlt_dec 0 x), (Rlt_dec x 0); auto. Qed.

Lemma handleWheel_step (deltaY : R) (n : Vis.Nav) :
  Vis.pan (Vis.handleWheel deltaY n) = Vis.pan n
  /\ (Vis.zoom (Vis.handleWheel deltaY n) = Vis.zoom n
      \/ Vis.zoom (Vis.handleWheel deltaY n) = Vis.zoom n * 1.15
      \/ Vis.zoom (Vis.handleWheel deltaY n) = Vis.zoom n * 0.85).
Proof.
  unfold Vis.handleWheel.
  destruct (_ && _); cbn [Vis.pan Vis.zoom]; [|auto].
  split; [reflexivity|].
  destruct (sign_cases deltaY) as [-> | [-> | ->]];
    [right; right | right; left | left]; lra.
Qed.

Lemma onWheel_safe (deltaY : R) (n : Vis.Nav) :
  0.0001 < Vis.zoom n < 50000 ->
  0.0001 < Vis.zoom (Reduced.onWheel deltaY n) < 50000.
Proof.
  intros Hs; unfold Reduced.onWheel.
  destruct (Rltb 0.0001 _) eqn:E1; cbn [andb]; [|exact Hs].
  destruct (Rltb _ 50000) eqn:E2; [|exact Hs].
  apply Rltb_true in E1, E2; cbn [Vis.zoom]; lra.
Qed.

Lemma onWheel_pan (deltaY : R) (n : Vis.Nav) :
  Vis.pan (Reduced.onWheel deltaY n) = Vis.pan n.
Proof. unfold Reduced.onWheel; destruct (_ && _); reflexivity. Qed.

Lemma wheels_safe (events : list R) :
  forall m, zoomSafe (Vis.zoom m) -> zoomSafe (Vis.zoom (wheels events m)).
Proof.
  induction events as [|e events IH]; intros m Hm; [exact Hm|].
  cbn [wheels fold_left]; fold (wheels events (Vis.handleWheel e m)).
  apply IH, handleWheel_safe, Hm.
Qed.

Lemma wheels_pan (events : list R) :
  forall m, Vis.pan (wheels events m) = Vis.pan m.
Proof.
  induction events as [|e events IH]; intros m; [reflexivity|].
  cbn [wheels fold_left]; fold (wheels events (Vis.handleWheel e m)).
  rewrite IH. apply handleWheel_step.
Qed.

Lemma reducedWheels_safe (events : list R) :
  forall m, 0.0001 < Vis.zoom m < 50000 ->
    0.0001 < Vis.zoom (reducedWheels events m) < 50000.
Proof.
  induction events as [|e events IH]; intros m Hm; [exact Hm|].
  cbn [reducedWheels fold_left];
    fold (reducedWheels events (Reduced.onWheel e m)).
  apply IH, onWheel_safe, Hm.
Qed.

Lemma reducedWheels_pan (events : list R) :
  forall m, Vis.pan (reducedWheels events m) = Vis.pan m.
Proof.
  induction events as [|e events IH]; intros m; [reflexivity|].
  cbn [reducedWheels fold_left];
    fold (reducedWheels events (Reduced.onWheel e m)).
  rewrite IH. apply onWheel_pan.
Qed.

(** X2.  Whatever wheel events arrive, a zoom inside the safety range of a
    wheel handler stays inside it, and the pan is never touched: the range
    is (0.0001, 100000) for the handler of the gesture-navigation component
    and (0.0001, 50000) for the one of the reduced component.  A single
    event multiplies the zoom by 1.15 or 0.85, or leaves it as it is. *)
Theorem wheel_keeps_zoom_in_range :
  forall (events : list R) (n : Vis.Nav),
    (0.0001 < Vis.zoom n < 100000 ->
     0.0001 < Vis.zoom (wheels events n) < 100000)
    /\ Vis.pan (wheels events n) = Vis.pan n
    /\ (0.0001 < Vis.zoom n < 50000 ->
        0.0001 < Vis.zoom (reducedWheels events n) < 50000)
    /\ Vis.pan (reducedWheels events n) = Vis.pan n
    /\ (forall e, Vis.zoom (Vis.handleWheel e n) = Vis.zoom n
                  \/ Vis.zoom (Vis.handleWheel e n) = Vis.zoom n * 1.15
                  \/ Vis.zoom (Vis.handleWheel e n) = Vis.zoom n * 0.85).
Proof.
  intros events n.
  split; [|split; [|split; [|split]]].
  - apply (wheels_safe events n).
  - apply wheels_pan.
  - apply reducedWheels_safe.
  - apply reducedWheels_pan.
  - intros e; apply handleWheel_step.
Qed.

(** Three wheel events from a zoom of 60000, above the range of the reduced
    component and inside the one of the gesture-navigation component. *)
Lemma wheel_keeps_zoom_in_range_witness :
  0.0001
  < Vis.zoom (wheels [-100; -100; 53]
                {| Vis.zoom := 60000; Vis.pan := Vec2 0 0 |})
  < 100000.
Proof.
  refine (proj1 (wheel_keeps_zoom_in_range [-100; -100; 53]
                   {| Vis.zoom := 60000; Vis.pan := Vec2 0 0 |}) _).
  cbn [Vis.zoom]; lra.
Defined.

Lemma legacy_handleWheel_range (deltaY : R) (n : Legacy.Nav) :
  0.1 <= Legacy.zoom (Legacy.handleWheel deltaY n) <= 10000
  /\ Legacy.pan (Legacy.handleWheel deltaY n) = Legacy.pan n.
Proof.
  unfold Legacy.handleWheel; cbn [Legacy.zoom Legacy.pan].
  split; [split|reflexivity].
  - apply Rmax_l.
  - apply Rmax_lub; [lra | apply Rmin_r].
Qed.

Lemma legacyWheels_range (events : list R) :
  forall m, 0.1 <= Legacy.zoom m <= 10000 ->
    0.1 <= Legacy.zoom (legacyWheels events m) <= 10000
    /\ Legacy.pan (legacyWheels events m) = Legacy.pan m.
Proof.
  induction events as [|e events IH]; intros m Hm; [now split|].
  cbn [legacyWheels fold_left];
    fold (legacyWheels events (Legacy.handleWheel e m)).
  destruct (legacy_handleWheel_range e m) as [A B].
  destruct (IH (Legacy.handleWheel e m) A) as [C D].
  split; [exact C | congruence].
Qed.

(** X3.  The wheel handler of the particle component clamps: after the first
    wheel event, and after every later one, the zoom lies in [0.1, 10000],
    whatever it was before, and the pan is not touched.  Inside the range
    one event multiplies the zoom by 1.05 or 0.95, or leaves it as it is. *)
Theorem legacy_wheel_clamps :
  forall (deltaY : R) (events : list R) (n : Legacy.Nav),
    0.1 <= Legacy.zoom (legacyWheels (deltaY :: events) n) <= 10000
    /\ Legacy.pan (legacyWheels (deltaY :: events) n) = Legacy.pan n
    /\ (0.1 <= Legacy.zoom n * (1 - sign deltaY * 0.05) <= 10000 ->
        Legacy.zoom (Legacy.handleWheel deltaY n)
        = Legacy.zoom n * (1 - sign deltaY * 0.05)).
Proof.
  intros deltaY events n.
  destruct (legacy_handleWheel_range deltaY n) as [A B].
  destruct (legacyWheels_range events (Legacy.handleWheel deltaY n) A)
    as [C D].
  cbn [legacyWheels fold_left];
    fold (legacyWheels events (Legacy.handleWheel deltaY n)).
  split; [exact C | split; [congruence|]].
  intros [Hlo Hhi].
  unfold Legacy.handleWheel; cbn [Legacy.zoom].
  replace (Legacy.zoom n * (1 + - sign deltaY * 0.05))
    with (Legacy.zoom n * (1 - sign deltaY * 0.05)) by ring.
  rewrite Rmin_left, Rmax_right by (try rewrite Rmin_left; lra).
  reflexivity.
Qed.

(** ** Dragging with the pointer *)

Lemma orDefault_zero (a : R) : orDefault a 0 = a.
Proof. unfold orDefault; destruct (Req_dec_T a 0); congruence. Qed.

Lemma nav_ext (n m : Vis.Nav) :
  Vis.zoom n = Vis.zoom m -> vx (Vis.pan n) = vx (Vis.pan m) ->
  vy (Vis.pan n) = vy (Vis.pan m) -> n = m.
Proof.
  destruct n as [z [x y]], m as [z' [x' y']]; cbn; intros; subst; reflexivity.
Qed.

Lemma moves_dragging (path : list vec2) :
  forall (n : Vis.Nav) (s : vec2),
    Vis.zoom n <> 0 ->
    Mouse.moves path n {| Mouse.isDragging := true; Mouse.lastMouse := s |}
    = Some ({| Vis.zoom := Vis.zoom n;
               Vis.pan :=
                 Vec2 (vx (Vis.pan n)
                       - (vx (last path s) - vx s) * (0.003 / Vis.zoom n))
                      (vy (Vis.pan n)
                       + (vy (last path s) - vy s) * (0.003 / Vis.zoom n)) |},
            {| Mouse.isDragging := true; Mouse.lastMouse := last path s |}).
Proof.
  induction path as [|m rest IH]; intros n s Hz.
  - cbn [Mouse.moves last]. do 2 f_equal.
    apply nav_ext; cbn [Vis.zoom Vis.pan vx vy]; ring.
  - cbn [Mouse.moves]. unfold Mouse.handleMouseMove.
    cbn [Mouse.isDragging Mouse.lastMouse negb].
    rewrite !orDefault_zero. unfold fdiv.
    destruct (Req_dec_T (Vis.zoom n) 0) as [E|_]; [contradiction|].
    cbn [obind fst snd]. rewrite IH by exact Hz.
    cbn [Vis.zoom Vis.pan vx vy].
    assert (Hl : last (m :: rest) s = last rest m).
    { clear. revert m s; induction rest as [|r rest IHr]; intros m s;
        [reflexivity|].
      change (last (m :: r :: rest) s) with (last (r :: rest) s).
      rewrite (IHr r s), (IHr r m). reflexivity. }
    rewrite Hl. destruct m as [mx my]; cbn [vx vy]. do 2 f_equal.
    apply nav_ext; cbn [Vis.zoom Vis.pan vx vy]; ring.
Qed.

(** X4.  A drag pans by the displacement between the point where the button
    went down and the last pointer position, scaled by [0.003 / zoom]: the
    way the pointer took has no influence, the pan moves against the pointer
    in x and with it in y, and the zoom is not touched.  Once the button is
    released, pointer movements change nothing. *)
Theorem drag_pans_by_displacement :
  forall (start : vec2) (path : list vec2) (n : Vis.Nav) (d : Mouse.Drag),
    Vis.zoom n <> 0 ->
    let stop := last path start in
    let n' :=
      {| Vis.zoom := Vis.zoom n;
         Vis.pan := Vec2 (vx (Vis.pan n)
                          - (vx stop - vx start) * (0.003 / Vis.zoom n))
                         (vy (Vis.pan n)
                          + (vy stop - vy start) * (0.003 / Vis.zoom n)) |} in
    Mouse.drag start path n d
    = Some (n', {| Mouse.isDragging := true; Mouse.lastMouse := stop |})
    /\ forall later,
         Mouse.moves later n' (Mouse.handleMouseUp
                                 {| Mouse.isDragging := true;
                                    Mouse.lastMouse := stop |})
         = Some (n', {| Mouse.isDragging := false; Mouse.lastMouse := stop |}).
Proof.
  intros start path n d Hz stop n'. split.
  - unfold Mouse.drag, Mouse.handleMouseDown.
    rewrite moves_dragging by exact Hz.
    destruct start; reflexivity.
  - unfold Mouse.handleMouseUp; cbn [Mouse.lastMouse].
    intros later. generalize n'.
    induction later as [|m later IH]; intros k; [reflexivity|].
    cbn [Mouse.moves]. unfold Mouse.handleMouseMove at 1.
    cbn [Mouse.isDragging negb obind fst snd]. apply IH.
Qed.

Lemma drag_pans_by_displacement_witness :
  Mouse.drag (Vec2 10 10) [Vec2 500 3; Vec2 110 10] Vis.initialNav
    Mouse.initialDrag
  = Some ({| Vis.zoom := Vis.zoom Vis.initialNav;
             Vis.pan :=
               Vec2 (vx (Vis.pan Vis.initialNav)
                     - (110 - 10) * (0.003 / Vis.zoom Vis.initialNav))
                    (vy (Vis.pan Vis.initialNav)
                     + (10 - 10) * (0.003 / Vis.zoom Vis.initialNav)) |},
          {| Mouse.isDragging := true; Mouse.lastMouse := Vec2 110 10 |}).
Proof.
  refine (proj1 (drag_pans_by_displacement (Vec2 10 10)
                   [Vec2 500 3; Vec2 110 10] Vis.initialNav
                   Mouse.initialDrag _)).
  cbn [Vis.initialNav Vis.zoom]; lra.
Defined.


(** ** The recursive drawing tool *)

Section ArtTraces.

Import Art.

Lemma count_app (f : Cmd -> bool) (a b : list Cmd) :
  count f (a ++ b) = (count f a + count f b)%nat.
Proof. unfold count; rewrite filter_app, length_app; reflexivity. Qed.

Lemma stackAfter_app (a b : list Cmd) :
  forall n, stackAfter (a ++ b) n
            = match stackAfter a n with
              | Some m => stackAfter b m
              | None => None
              end.
Proof.
  induction a as [|c a IH]; intros n; [reflexivity|].
  destruct c; cbn [app stackAfter]; try apply IH.
  destruct n; [reflexivity | apply IH].
Qed.

Lemma segments_app (a b : list Cmd) :
  forall cur,
    segments (a ++ b) cur
    = (fst (segments a cur) ++ fst (segments b (snd (segments a cur))),
       snd (segments b (snd (segments a cur)))).
Proof.
  induction a as [|c a IH]; intros cur.
  - cbn [app segments fst snd]. destruct (segments b cur); reflexivity.
  - destruct c; cbn [app segments]; try apply IH.
    rewrite IH. destruct (segments a p) as [s e]; reflexivity.
Qed.

Lemma connected_app (s1 s2 : list (vec2 * vec2)) :
  forall a b c, connected a s1 b -> connected b s2 c -> connected a (s1 ++ s2) c.
Proof.
  induction s1 as [|[p q] s1 IH]; intros a b c H1 H2; cbn in *.
  - subst; exact H2.
  - destruct H1 as [-> H1]; split; [reflexivity | eapply IH; eauto].
Qed.

Lemma drawKoch_segments (d : nat) :
  forall p1 p2 cur,
    connected p1 (fst (segments (drawKoch d p1 p2) cur)) p2
    /\ snd (segments (drawKoch d p1 p2) cur) = p2
    /\ List.length (fst (segments (drawKoch d p1 p2) cur)) = (4 ^ d)%nat.
Proof.
  induction d as [|d IH]; intros p1 p2 cur.
  - cbn; auto.
  - cbn [drawKoch]. cbv zeta.
    set (pA := Vec2 _ _). set (pC := Vec2 (vx p1 + 2 * _ / 3) _).
    set (pB := Vec2 _ _).
    rewrite !segments_app; cbn [fst snd].
    destruct (IH p1 pA cur) as (c1 & e1 & l1). rewrite e1.
    destruct (IH pA pB pA) as (c2 & e2 & l2). rewrite e2.
    destruct (IH pB pC pB) as (c3 & e3 & l3). rewrite e3.
    destruct (IH pC p2 pC) as (c4 & e4 & l4).
    split; [|split].
    + eapply connected_app; [exact c1|].
      eapply connected_app; [exact c2|].
      eapply connected_app; [exact c3 | exact c4].
    + exact e4.
    + rewrite !length_app, l1, l2, l3, l4. cbn [Nat.pow]. lia.
Qed.

Lemma drawKoch_strokes (d : nat) :
  forall p1 p2, count isStroke (drawKoch d p1 p2) = (4 ^ d)%nat.
Proof.
  induction d as [|d IH]; intros p1 p2; [reflexivity|].
  cbn [drawKoch]. cbv zeta. rewrite !count_app, !IH. cbn [Nat.pow]. lia.
Qed.

End ArtTraces.

(** X5.  [drawKoch] at depth [d] strokes [4^d] segments, and they form one
    unbroken line from [p1] to [p2]: each segment starts where the one
    before it ended. *)
Theorem koch_curve_is_connected :
  forall (d : nat) (p1 p2 cur : vec2),
    let t := Art.drawKoch d p1 p2 in
    Art.count Art.isStroke t = (4 ^ d)%nat
    /\ List.length (fst (Art.segments t cur)) = (4 ^ d)%nat
    /\ Art.connected p1 (fst (Art.segments t cur)) p2
    /\ snd (Art.segments t cur) = p2.
Proof.
  intros d p1 p2 cur t.
  destruct (drawKoch_segments d p1 p2 cur) as (c & e & l).
  split; [apply drawKoch_strokes | auto].
Qed.

(** X6.  The snowflake [render] draws is a closed curve: the three Koch
    curves run from the first corner of the base triangle over the third and
    the second back to the first.  It has [3 * 4^min(depth, 6)] segments, so
    never more than [3 * 4^6 = 12288]. *)
Theorem koch_snowflake_is_closed :
  forall (depth : nat) (angle ratio randomness : R) (cs : Art.ColorScheme)
         (random : nat -> R) (width height : R) (cur : vec2),
    let t := fst (Art.render depth angle ratio randomness cs random
                    Art.KOCH_SNOWFLAKE width height) in
    let size := Rmin width height * 0.8 in
    let p1 := Vec2 (width / 2 - size / 2)
                   (height / 2 + size * sqrt 3 / 2 / 3) in
    Art.connected p1 (fst (Art.segments t cur)) p1
    /\ Art.count Art.isStroke t = (3 * 4 ^ Nat.min depth 6)%nat
    /\ (Art.count Art.isStroke t <= 3 * 4 ^ 6)%nat.
Proof.
  intros depth angle ratio randomness cs random width height cur t size p1.
  subst t. cbn [Art.render fst]. cbv zeta. fold size. fold p1.
  set (p2 := Vec2 (width / 2 + size / 2) _).
  set (p3 := Vec2 (width / 2) _).
  set (k := Nat.min depth 6).
  assert (Hs : Art.count Art.isStroke
                 ([Art.ClearRect 0 0 width height;
                   Art.FillStyleBackdrop (width / 2) (height / 2) width;
                   Art.FillRect 0 0 width height] ++
                  [Art.StrokeStyle (Art.getColor cs 1 1); Art.LineWidth 1] ++
                  Art.drawKoch k p1 p3 ++ Art.drawKoch k p3 p2 ++
                  Art.drawKoch k p2 p1) = (3 * 4 ^ k)%nat).
  { rewrite !count_app, !drawKoch_strokes. cbn [Art.count filter Art.isStroke
      List.length]. lia. }
  split; [|split; [exact Hs|]].
  - cbn [app Art.segments]. rewrite !segments_app; cbn [fst snd].
    destruct (drawKoch_segments k p1 p3 cur) as (c1 & e1 & _). rewrite e1.
    destruct (drawKoch_segments k p3 p2 p3) as (c2 & e2 & _). rewrite e2.
    destruct (drawKoch_segments k p2 p1 p2) as (c3 & _ & _).
    eapply connected_app; [exact c1|].
    eapply connected_app; [exact c2 | exact c3].
  - rewrite Hs.
    assert (Hk : (k <= 6)%nat) by apply Nat.le_min_r.
    assert (Hp : (4 ^ k <= 4 ^ 6)%nat) by (apply Nat.pow_le_mono_r; lia).
    apply Nat.mul_le_mono_l; exact Hp.
Qed.

Section SierpinskiArea.

Import Art.

Variable depth : nat.
Variable cs : ColorScheme.

Lemma totalArea2_app (a b : list (list vec2)) :
  totalArea2 (a ++ b) = totalArea2 a + totalArea2 b.
Proof.
  unfold totalArea2.
  induction a as [|p a IH]; cbn [app fold_right]; [|rewrite IH]; lra.
Qed.

Lemma drawSierpinski_filled (d : nat) :
  forall p1 p2 p3,
  exists (F : list (list vec2)) (path' : list vec2),
    (forall rest path,
        filled (drawSierpinski depth cs d p1 p2 p3 ++ rest) path
        = F ++ filled rest path')
    /\ totalArea2 F = (3 / 4) ^ d * area2 p1 p2 p3
    /\ List.length F = (3 ^ d)%nat
    /\ Forall isTriangle F.
Proof.
  induction d as [|d IH]; intros p1 p2 p3.
  - exists [[p1; p2; p3]], [p1; p2; p3]. repeat split.
    + cbn [totalArea2 fold_right pathArea2 pow]. lra.
    + repeat constructor.
  - cbn [drawSierpinski]. cbv zeta.
    set (pA := Vec2 _ _). set (pB := Vec2 ((vx p2 + vx p3) / 2) _).
    set (pC := Vec2 ((vx p3 + vx p1) / 2) _).
    destruct (IH p1 pA pC) as (F1 & q1 & f1 & a1 & l1 & t1).
    destruct (IH pA p2 pB) as (F2 & q2 & f2 & a2 & l2 & t2).
    destruct (IH pC pB p3) as (F3 & q3 & f3 & a3 & l3 & t3).
    exists (F1 ++ F2 ++ F3), q3. split; [|split; [|split]].
    + intros rest path. rewrite <- !app_assoc. rewrite f1, f2, f3.
      reflexivity.
    + rewrite !totalArea2_app, a1, a2, a3.
      unfold area2; subst pA pB pC; cbn [vx vy pow]. field.
    + rewrite !length_app, l1, l2, l3. cbn [Nat.pow]. lia.
    + repeat (apply Forall_app; split); assumption.
Qed.

Lemma drawSierpinski_fills (d : nat) :
  forall p1 p2 p3,
    count isFill (drawSierpinski depth cs d p1 p2 p3) = (3 ^ d)%nat.
Proof.
  induction d as [|d IH]; intros p1 p2 p3; [reflexivity|].
  cbn [drawSierpinski]. cbv zeta. rewrite !count_app, !IH. cbn [Nat.pow]. lia.
Qed.

End SierpinskiArea.

(** X7.  [drawSierpinski] at depth [d] fills [3^d] paths, every one of them
    a triangle, and their signed areas add up to [(3/4)^d] of the area of
    the triangle it was called on: each level removes the middle quarter. *)
Theorem sierpinski_fills_three_quarters :
  forall (depth : nat) (cs : Art.ColorScheme) (d : nat) (p1 p2 p3 : vec2)
         (path : list vec2),
    let t := Art.drawSierpinski depth cs d p1 p2 p3 in
    Art.count Art.isFill t = (3 ^ d)%nat
    /\ List.length (Art.filled t path) = (3 ^ d)%nat
    /\ Forall isTriangle (Art.filled t path)
    /\ Art.totalArea2 (Art.filled t path)
       = (3 / 4) ^ d * Art.area2 p1 p2 p3.
Proof.
  intros depth cs d p1 p2 p3 path t.
  destruct (drawSierpinski_filled depth cs d p1 p2 p3)
    as (F & q & f & a & l & tr).
  specialize (f [] path). rewrite app_nil_r in f.
  cbn [Art.filled] in f. rewrite app_nil_r in f.
  subst t. rewrite f.
  split; [apply drawSierpinski_fills | auto].
Qed.

Section TreeShape.

Import Art.

Variable depth : nat.
Variables angle ratio randomness : R.
Variable cs : ColorScheme.
Variable random : nat -> R.

Lemma pow2_pos (d : nat) : (1 <= 2 ^ d)%nat.
Proof. induction d; cbn [Nat.pow]; lia. Qed.

Lemma branch_strokes (x y len ang : R) (d : nat) :
  count isStroke (branch depth cs x y len ang d) = 1%nat.
Proof. reflexivity. Qed.

Lemma branch_stack (x y len ang : R) (d : nat) (r : list Cmd) (n : nat) :
  stackAfter (branch depth cs x y len ang d ++ r) n = stackAfter r (S n).
Proof. reflexivity. Qed.

Lemma drawTree_shape (d : nat) :
  forall x y len ang k,
    let t := drawTree depth angle ratio randomness cs random d x y len ang k in
    count isStroke (fst t) = (2 ^ S d - 1)%nat
    /\ snd t = (k + 2 * (2 ^ d - 1))%nat
    /\ forall n, stackAfter (fst t) n = Some n.
Proof.
  induction d as [|d IH]; intros x y len ang k.
  - cbn [drawTree fst snd]. repeat split; cbn [Nat.pow]; lia.
  - cbn [drawTree]. cbv zeta. cbn [fst snd].
    set (rA := randomness * (random k - 0.5) * 30).
    set (rL := 1 + randomness * (random (S k) - 0.5) * 0.2).
    destruct (IH 0 (- len) (len * ratio * rL) (angle + rA) (S (S k)))
      as (s1 & r1 & b1).
    cbv zeta in s1, r1, b1. rewrite r1.
    destruct (IH 0 (- len) (len * ratio * rL) (- angle + rA)
                 (S (S k) + 2 * (2 ^ d - 1))%nat) as (s2 & r2 & b2).
    cbv zeta in s2, r2, b2. rewrite r2.
    pose proof (pow2_pos d).
    split; [|split].
    + rewrite !count_app, branch_strokes, s1, s2.
      cbn [count filter isStroke List.length Nat.pow]. lia.
    + cbn [Nat.pow]. lia.
    + intros n. rewrite branch_stack, stackAfter_app, b1. cbv beta iota.
      rewrite stackAfter_app, b2. reflexivity.
Qed.

Lemma drawPythagoras_shape (d : nat) :
  forall x y side ang,
    let t := drawPythagoras depth angle ratio cs d x y side ang in
    count isFillRect t = (2 ^ d - 1)%nat
    /\ forall n, stackAfter t n = Some n.
Proof.
  induction d as [|d IH]; intros x y side ang.
  - split; reflexivity.
  - cbn [drawPythagoras]. cbv zeta.
    destruct d as [|d].
    + split; reflexivity.
    + change (Nat.ltb 1 (S (S d))) with true. cbv iota.
      destruct (IH 0 0 (side * ratio) 0) as (s & b). cbv zeta in s, b.
      pose proof (pow2_pos (S d)).
      split.
      * rewrite !count_app, !s.
        cbn [count filter isFillRect List.length].
        change (2 ^ S (S d))%nat with (2 * 2 ^ S d)%nat. lia.
      * intros n. cbn [app]. rewrite <- !app_assoc. cbn [app stackAfter].
        rewrite stackAfter_app, b. cbv beta iota. cbn [app stackAfter].
        rewrite <- app_assoc, stackAfter_app, b. reflexivity.
Qed.

End TreeShape.

(** X8.  [drawTree] at depth [d] strokes a full binary tree of
    [2^(d+1) - 1] branches and draws two random numbers for every branch
    that has children, [2 * (2^d - 1)] in all.  Every [save] is undone by a
    [restore]: the drawing state it leaves is the one it found. *)
Theorem tree_is_full_and_balanced :
  forall (depth : nat) (angle ratio randomness : R) (cs : Art.ColorScheme)
         (random : nat -> R) (d : nat) (x y len ang : R) (k n : nat),
    let t := Art.drawTree depth angle ratio randomness cs random
               d x y len ang k in
    Art.count Art.isStroke (fst t) = (2 ^ S d - 1)%nat
    /\ snd t = (k + 2 * (2 ^ d - 1))%nat
    /\ Art.stackAfter (fst t) n = Some n.
Proof.
  intros depth angle ratio randomness cs random d x y len ang k n t.
  destruct (drawTree_shape depth angle ratio randomness cs random
              d x y len ang k) as (s & r & b).
  split; [exact s | split; [exact r | apply b]].
Qed.

(** X9.  [drawPythagoras] at depth [d] fills [2^d - 1] squares (none at
    depth 0) and leaves the drawing state as it found it.  [render] caps the
    depth at 10: with the backdrop rectangle it fills exactly
    [2^min(depth, 10)] rectangles, at most [2^10 = 1024]. *)
Theorem pythagoras_squares :
  forall (depth : nat) (angle ratio randomness : R) (cs : Art.ColorScheme)
         (random : nat -> R) (d : nat) (x y side ang width height : R)
         (n : nat),
    let t := Art.drawPythagoras depth angle ratio cs d x y side ang in
    let r := fst (Art.render depth angle ratio randomness cs random
                    Art.PYTHAGORAS_TREE width height) in
    Art.count Art.isFillRect t = (2 ^ d - 1)%nat
    /\ Art.stackAfter t n = Some n
    /\ Art.count Art.isFillRect r = (2 ^ Nat.min depth 10)%nat
    /\ (Art.count Art.isFillRect r <= 2 ^ 10)%nat.
Proof.
  intros depth angle ratio randomness cs random d x y side ang width height
         n t r.
  destruct (drawPythagoras_shape depth angle ratio cs d x y side ang)
    as (s & b).
  assert (Hr : Art.count Art.isFillRect r = (2 ^ Nat.min depth 10)%nat).
  { subst r. cbn [Art.render fst]. cbv zeta. rewrite count_app.
    destruct (drawPythagoras_shape depth angle ratio cs (Nat.min depth 10)
                (width / 2) (height - 50) 80 0) as (s' & _).
    cbv zeta in s'. rewrite s'.
    pose proof (pow2_pos (Nat.min depth 10)).
    cbn [Art.count filter Art.isFillRect List.length]. lia. }
  split; [exact s | split; [apply b | split; [exact Hr|]]].
  rewrite Hr.
  apply Nat.pow_le_mono_r; [lia | apply Nat.le_min_r].
Qed.

Section ArtColours.

Import Art.

Variable depth : nat.
Variables angle ratio randomness : R.
Variable cs : ColorScheme.
Variable random : nat -> R.

Lemma getColor_valid (step total : R) :
  0 <= step <= total -> 0 < total ->
  exists h, getColor cs step total = Some h /\ validHsl h.
Proof.
  intros Hs Ht. unfold getColor, fdiv.
  destruct (Req_dec_T total 0) as [E|_]; [lra|]. cbn [obind].
  assert (H0 : 0 <= step / total).
  { apply Rmult_le_pos; [lra | left; apply Rinv_0_lt_compat; exact Ht]. }
  assert (H1 : step / total <= 1).
  { apply Rmult_le_reg_r with total; [exact Ht|].
    unfold Rdiv; rewrite Rmult_assoc, Rinv_l by lra. lra. }
  eexists; split; [reflexivity|].
  unfold validHsl; destruct cs; cbn [hue sat light]; lra.
Qed.

Lemma Forall_app_intro (P : Cmd -> Prop) (a b : list Cmd) :
  Forall P a -> Forall P b -> Forall P (a ++ b).
Proof. intros; apply Forall_app; split; assumption. Qed.

(** Calls that set no colour. *)
Ltac plain_calls := repeat (apply Forall_cons; [exact I|]); try apply Forall_nil.

Hypothesis depth_pos : (0 < depth)%nat.

Lemma level_colour (d : nat) :
  (d <= depth)%nat ->
  exists h, getColor cs (INR depth - INR d) (INR depth) = Some h /\ validHsl h.
Proof.
  intros Hd. apply getColor_valid.
  - pose proof (pos_INR d). apply le_INR in Hd. lra.
  - apply lt_0_INR; exact depth_pos.
Qed.

Lemma branch_valid (x y len ang : R) (d : nat) :
  (d <= depth)%nat -> Forall validStyle (branch depth cs x y len ang d).
Proof.
  intros Hd. unfold branch. plain_calls.
  apply Forall_cons; [apply level_colour; exact Hd|]. plain_calls.
Qed.

Lemma drawTree_valid (d : nat) :
  forall x y len ang k,
    (d <= depth)%nat ->
    Forall validStyle
      (fst (drawTree depth angle ratio randomness cs random d x y len ang k)).
Proof.
  induction d as [|d IH]; intros x y len ang k Hd.
  - cbn [drawTree fst]. apply Forall_app_intro;
      [apply branch_valid; exact Hd | plain_calls].
  - cbn [drawTree]. cbv zeta. cbn [fst].
    apply Forall_app_intro; [apply branch_valid; exact Hd|].
    apply Forall_app_intro; [apply IH; lia|].
    apply Forall_app_intro; [apply IH; lia | plain_calls].
Qed.

Lemma drawPythagoras_valid (d : nat) :
  forall x y side ang,
    (d <= depth)%nat ->
    Forall validStyle (drawPythagoras depth angle ratio cs d x y side ang).
Proof.
  induction d as [|d IH]; intros x y side ang Hd; [constructor|].
  cbn [drawPythagoras]. cbv zeta.
  apply Forall_app_intro; [|apply Forall_app_intro].
  - plain_calls. apply Forall_cons; [apply level_colour; exact Hd|].
    plain_calls.
  - destruct (Nat.ltb 1 (S d)); [|constructor].
    apply Forall_app_intro; [plain_calls|].
    apply Forall_app_intro; [apply IH; lia|].
    apply Forall_app_intro; [plain_calls|].
    apply Forall_app_intro; [apply IH; lia | plain_calls].
  - plain_calls.
Qed.

Lemma drawKoch_valid (d : nat) :
  forall p1 p2, Forall validStyle (drawKoch d p1 p2).
Proof.
  induction d as [|d IH]; intros p1 p2.
  - cbn [drawKoch]. plain_calls.
  - cbn [drawKoch]. cbv zeta.
    repeat (apply Forall_app_intro; [apply IH|]). apply IH.
Qed.

Lemma drawSierpinski_valid (d : nat) :
  forall p1 p2 p3, Forall validStyle (drawSierpinski depth cs d p1 p2 p3).
Proof.
  induction d as [|d IH]; intros p1 p2 p3.
  - cbn [drawSierpinski].
    apply Forall_cons; [|plain_calls].
    apply getColor_valid; [|apply lt_0_INR; exact depth_pos].
    pose proof (pos_INR depth); lra.
  - cbn [drawSierpinski]. cbv zeta.
    repeat (apply Forall_app_intro; [apply IH|]). apply IH.
Qed.

Lemma render_valid (pattern : ArtPatternType) (width height : R) :
  Forall validStyle
    (fst (render depth angle ratio randomness cs random pattern width height)).
Proof.
  assert (Hb : Forall validStyle
                 [ClearRect 0 0 width height;
                  FillStyleBackdrop (width / 2) (height / 2) width;
                  FillRect 0 0 width height]) by plain_calls.
  destruct pattern; cbn [render fst]; cbv zeta;
    (apply Forall_app_intro; [exact Hb|]).
  - apply drawTree_valid; lia.
  - apply drawPythagoras_valid; apply Nat.le_min_l.
  - apply Forall_app_intro.
    + apply Forall_cons; [apply getColor_valid; lra | plain_calls].
    + repeat (apply Forall_app_intro; [apply drawKoch_valid|]).
      apply drawKoch_valid.
  - apply drawSierpinski_valid.
  - apply drawTree_valid; lia.
Qed.

End ArtColours.

(** X10.  With a recursion depth of at least 1 every stroke and fill colour
    that [render] sets, in every pattern and colour scheme, is a colour: the
    hue lies in [0, 360], saturation and lightness in [0, 100].  At depth 0
    the quotient [0 / 0] in [getColor] is not a number: the trunk of the
    tree and the one triangle of the Sierpinski pattern are drawn with a
    style string that is not a colour. *)
Theorem art_colours_are_valid :
  forall (depth : nat) (angle ratio randomness : R) (cs : Art.ColorScheme)
         (random : nat -> R) (width height : R),
    let draw := fun pattern =>
      fst (Art.render depth angle ratio randomness cs random pattern
             width height) in
    ((0 < depth)%nat -> forall pattern, Forall validStyle (draw pattern))
    /\ (depth = 0%nat ->
        In (Art.StrokeStyle None) (draw Art.FRACTAL_TREE)
        /\ In (Art.FillStyle None) (draw Art.SIERPINSKI_TRIANGLE)).
Proof.
  intros depth angle ratio randomness cs random width height draw.
  split.
  - intros Hd pattern. apply render_valid; exact Hd.
  - intros ->. subst draw.
    assert (H : Art.getColor cs (INR 0 - INR 0) (INR 0) = None
                /\ Art.getColor cs (INR 0) (INR 0) = None).
    { unfold Art.getColor, fdiv. cbn [INR].
      destruct (Req_dec_T 0 0) as [_|E]; [split; reflexivity | lra]. }
    destruct H as [H1 H2].
    split.
    + cbn [Art.render Art.drawTree fst]. unfold Art.branch. rewrite H1.
      cbn [app In]. tauto.
    + cbn [Art.render Nat.min Art.drawSierpinski fst]. rewrite H2.
      cbn [app In]. tauto.
Qed.

Lemma art_colours_are_valid_witness :
  Forall validStyle
    (fst (Art.render 2 25 0.7 0 Art.COSMIC (fun _ => 0.5) Art.FRACTAL_TREE
            800 600)).
Proof.
  apply (proj1 (art_colours_are_valid 2 25 0.7 0 Art.COSMIC (fun _ => 0.5)
                  800 600)).
  lia.
Defined.

(** *** The length of the Koch curve *)

Lemma hyp_pos (x y : R) : 0 <= x * x + y * y.
Proof. nra. Qed.

Lemma sqrt_scaled (x t : R) :
  0 <= x -> sqrt (x * x + (x * t) * (x * t)) = x * sqrt (1 + t²).
Proof.
  intros Hx.
  replace (x * x + x * t * (x * t)) with (x² * (1 + t²)) by (unfold Rsqr; ring).
  rewrite sqrt_mult_alt by apply Rle_0_sqr.
  rewrite sqrt_Rsqr by exact Hx. reflexivity.
Qed.

Lemma sqrt_1_sqr_pos (t : R) : 0 < sqrt (1 + t²).
Proof. apply sqrt_lt_R0. pose proof (Rle_0_sqr t). lra. Qed.

(** [Math.atan2] and the square root give polar coordinates. *)
Lemma atan2_polar (x y : R) :
  sqrt (x * x + y * y) * cos (Legacy.atan2 y x) = x
  /\ sqrt (x * x + y * y) * sin (Legacy.atan2 y x) = y.
Proof.
  unfold Legacy.atan2, fatan2.
  destruct (Rlt_dec 0 x) as [Hx|Hx].
  - assert (Hy : y = x * (y / x)) by (field; lra).
    rewrite Hy at 1 2 4 5. rewrite sqrt_scaled by lra.
    rewrite cos_atan, sin_atan.
    pose proof (sqrt_1_sqr_pos (y / x)).
    split; field; lra.
  - destruct (Rlt_dec x 0) as [Hx'|Hx'].
    + assert (Hy : y = (- x) * (- (y / x))) by (field; lra).
      assert (Hs : sqrt (x * x + y * y) = - x * sqrt (1 + (y / x)²)).
      { replace (x * x) with (- x * - x) by ring.
        rewrite Hy at 1 2. rewrite sqrt_scaled by lra.
        rewrite <- Rsqr_neg. reflexivity. }
      rewrite Hs.
      pose proof (sqrt_1_sqr_pos (y / x)).
      destruct (Rle_dec 0 y).
      * rewrite cos_plus, sin_plus, cos_PI, sin_PI, cos_atan, sin_atan.
        split; field; lra.
      * rewrite cos_minus, sin_minus, cos_PI, sin_PI, cos_atan, sin_atan.
        split; field; lra.
    + assert (x = 0) by lra. subst x.
      replace (0 * 0 + y * y) with (y²) by (unfold Rsqr; ring).
      destruct (Rlt_dec 0 y) as [Hy|Hy].
      * rewrite sqrt_Rsqr by lra. rewrite cos_PI2, sin_PI2. lra.
      * destruct (Rlt_dec y 0) as [Hy'|Hy'].
        -- rewrite Rsqr_neg, sqrt_Rsqr by lra.
           rewrite cos_neg, sin_neg, cos_PI2, sin_PI2. lra.
        -- assert (y = 0) by lra. subst y.
           rewrite Rsqr_0, sqrt_0. lra.
Qed.

Lemma totalLength_app (a b : list (vec2 * vec2)) :
  totalLength (a ++ b) = totalLength a + totalLength b.
Proof.
  unfold totalLength.
  induction a as [|p a IH]; cbn [app fold_right]; [|rewrite IH]; lra.
Qed.

Lemma sqrt_third (x y : R) :
  sqrt ((x / 3) ^ 2 + (y / 3) ^ 2) = sqrt (x * x + y * y) / 3.
Proof.
  replace ((x / 3) ^ 2 + (y / 3) ^ 2) with ((x * x + y * y) * (/ 3)²)
    by (unfold Rsqr; field).
  rewrite sqrt_mult_alt by apply hyp_pos.
  rewrite sqrt_Rsqr by lra. reflexivity.
Qed.

Lemma cos_sin_PI3 : cos (PI / 3) = 1 / 2 /\ sin (PI / 3) = sqrt 3 / 2.
Proof. split; [apply cos_PI3 | apply sin_PI3]. Qed.

(** The four pieces [drawKoch] recurses on all have a third of the length of
    the segment. *)
Lemma koch_pieces (p1 p2 : vec2) :
  let dx := vx p2 - vx p1 in
  let dy := vy p2 - vy p1 in
  let dist := sqrt (dx * dx + dy * dy) in
  let unit := dist / 3 in
  let ang := Legacy.atan2 dy dx in
  let pA := Vec2 (vx p1 + dx / 3) (vy p1 + dy / 3) in
  let pC := Vec2 (vx p1 + 2 * dx / 3) (vy p1 + 2 * dy / 3) in
  let pB := Vec2 (vx pA + cos (ang - PI / 3) * unit)
                 (vy pA + sin (ang - PI / 3) * unit) in
  segLength (p1, pA) = unit /\ segLength (pA, pB) = unit
  /\ segLength (pB, pC) = unit /\ segLength (pC, p2) = unit.
Proof.
  intros dx dy dist unit ang pA pC pB.
  assert (Hd : 0 <= dist) by apply sqrt_pos.
  assert (Hu : 0 <= unit) by (unfold unit; lra).
  destruct (atan2_polar dx dy) as [Hc Hs]. fold dist ang in Hc, Hs.
  pose proof (sin2_cos2 ang) as Hcs. unfold Rsqr in Hcs.
  destruct cos_sin_PI3 as [C3 S3].
  assert (H3 : sqrt 3 * sqrt 3 = 3) by (apply sqrt_sqrt; lra).
  unfold segLength; cbn [fst snd]; subst pA pB pC; cbn [vx vy].
  fold dx dy.
  split; [|split; [|split]].
  - replace (vx p1 + dx / 3 - vx p1) with (dx / 3) by ring.
    replace (vy p1 + dy / 3 - vy p1) with (dy / 3) by ring.
    apply sqrt_third.
  - rewrite <- (sqrt_Rsqr unit Hu) at 3. f_equal.
    rewrite cos_minus, sin_minus, C3, S3. unfold Rsqr.
    set (c := cos ang) in *; set (s := sin ang) in *. nra.
  - rewrite <- (sqrt_Rsqr unit Hu) at 3. f_equal.
    rewrite cos_minus, sin_minus, C3, S3. unfold Rsqr.
    replace dx with (dist * cos ang) at 1 2 by exact Hc.
    replace dy with (dist * sin ang) at 1 2 by exact Hs.
    unfold unit.
    set (c := cos ang) in *; set (s := sin ang) in *.
    replace (vx p1 + 2 * (dist * c) / 3 -
             (vx p1 + dist * c / 3 +
              (c * (1 / 2) + s * (sqrt 3 / 2)) * (dist / 3)))
      with (dist / 3 * (c / 2 - s * sqrt 3 / 2)) by field.
    replace (vy p1 + 2 * (dist * s) / 3 -
             (vy p1 + dist * s / 3 +
              (s * (1 / 2) - c * (sqrt 3 / 2)) * (dist / 3)))
      with (dist / 3 * (s / 2 + c * sqrt 3 / 2)) by field.
    nra.
  - replace (vx p2 - (vx p1 + 2 * dx / 3)) with (dx / 3) by (unfold dx; field).
    replace (vy p2 - (vy p1 + 2 * dy / 3)) with (dy / 3) by (unfold dy; field).
    apply sqrt_third.
Qed.

(** X11.  Every refinement step of [drawKoch] replaces a segment by four
    segments of a third of its length: the curve drawn at depth [d] between
    [p1] and [p2] is [(4/3)^d] times as long as the straight line. *)
Theorem koch_length_grows_by_four_thirds :
  forall (d : nat) (p1 p2 cur : vec2),
    totalLength (fst (Art.segments (Art.drawKoch d p1 p2) cur))
    = (4 / 3) ^ d * segLength (p1, p2).
Proof.
  intros d; induction d as [|d IH]; intros p1 p2 cur.
  - cbn [Art.drawKoch Art.segments fst totalLength fold_right pow]. lra.
  - pose proof (koch_pieces p1 p2) as L. cbv zeta in L.
    destruct L as (l1 & l2 & l3 & l4).
    cbn [Art.drawKoch]. cbv zeta.
    rewrite !segments_app; cbn [fst snd].
    rewrite !(proj1 (proj2 (drawKoch_segments d _ _ _))).
    rewrite !totalLength_app, !IH, l1, l2, l3, l4.
    cbn [pow]. unfold segLength; cbn [fst snd].
    replace ((vx p2 - vx p1) ^ 2 + (vy p2 - vy p1) ^ 2)
      with ((vx p2 - vx p1) * (vx p2 - vx p1)
            + (vy p2 - vy p1) * (vy p2 - vy p1)) by ring.
    field.
Qed.

(** ** The gesture classifier *)

Section Classifier.

Import Vis.

Lemma onResults_flags (h1 : Hand) (rest : list Hand) (g : HandGestures)
  (ph : Physics) :
  let r := onResults (h1 :: rest) g ph in
  let h2 := nth 1 (h1 :: rest) [] in
  let two := Nat.eqb (List.length (h1 :: rest)) 2 in
  let near := dist (lm h1 0) (lm h2 0) in
  isFist (fst r) = fistLike h1
  /\ isPinching (fst r) = Rltb (dist (lm h1 4) (lm h1 8)) 0.05
  /\ isPalmOpen (fst r)
     = negb (fistLike h1) && negb (Rltb (dist (lm h1 4) (lm h1 8)) 0.05)
       && Rltb 0.4 (tipSum h1 / 4)
  /\ isPunching (fst r)
     = Rltb 0.1 (Rabs (lz (lm h1 0) - prevWristZ ph)) && fistLike h1
  /\ isClapping (fst r) = two && Rltb near 0.1
  /\ isTwoHandSmash (fst r)
     = two && (fistLike h1 && fistLike h2 && Rltb near 0.15)
  /\ handsDistance (fst r) = (if two then near else handsDistance g)
  /\ handsCount (fst r) = List.length (h1 :: rest)
  /\ prevWristZ (snd r) = lz (lm h1 0).
Proof.
  unfold onResults, fistLike.
  destruct (Nat.eqb (List.length (h1 :: rest)) 2);
    cbn [fst snd isFist isPinching isPalmOpen isPunching isClapping
         isTwoHandSmash handsDistance handsCount prevWristZ andb];
    repeat split; reflexivity.
Qed.

End Classifier.

(** X12.  The flags one callback sets are consistent with each other: an
    open palm excludes fist and pinch; a punch is a fist; a two-hand smash
    is a fist with exactly two hands whose wrists are closer than 0.15; a
    clap has exactly two hands with wrists closer than 0.1, and a clap of
    two fists is always a smash as well. *)
Theorem gesture_flags_are_consistent :
  forall (h1 : Hand) (rest : list Hand) (g : Vis.HandGestures)
         (ph : Vis.Physics),
    let g' := fst (Vis.onResults (h1 :: rest) g ph) in
    (Vis.isPalmOpen g' = true ->
       Vis.isFist g' = false /\ Vis.isPinching g' = false)
    /\ (Vis.isPunching g' = true -> Vis.isFist g' = true)
    /\ (Vis.isTwoHandSmash g' = true ->
          Vis.isFist g' = true /\ Vis.handsCount g' = 2%nat
          /\ Vis.handsDistance g' < 0.15)
    /\ (Vis.isClapping g' = true ->
          Vis.handsCount g' = 2%nat /\ Vis.handsDistance g' < 0.1)
    /\ (Vis.isClapping g' = true -> Vis.isFist g' = true ->
          fistLike (nth 1 (h1 :: rest) []) = true ->
          Vis.isTwoHandSmash g' = true).
Proof.
  intros h1 rest g ph g'.
  destruct (onResults_flags h1 rest g ph)
    as (Hf & Hp & Ho & Hu & Hc & Hs & Hd & Hn & _).
  cbv zeta in Hf, Hp, Ho, Hu, Hc, Hs, Hd, Hn. fold g' in Hf, Hp, Ho, Hu, Hc, Hs, Hd, Hn.
  rewrite Hf, Hp, Ho, Hu, Hc, Hs, Hd, Hn.
  set (two := Nat.eqb _ 2).
  assert (Htwo : two = true -> List.length (h1 :: rest) = 2%nat)
    by (intros E; apply Nat.eqb_eq; exact E).
  split; [|split; [|split; [|split]]].
  - intros H. apply andb_prop in H as [H _]. apply andb_prop in H as [A B].
    split; [now destruct (fistLike h1) | now destruct (Rltb _ 0.05)].
  - intros H. now apply andb_prop in H as [_ H].
  - intros H. apply andb_prop in H as [T H]. apply andb_prop in H as [H N].
    apply andb_prop in H as [F _].
    rewrite T. split; [exact F | split; [auto|]].
    now apply Rltb_true in N.
  - intros H. apply andb_prop in H as [T N]. rewrite T.
    split; [auto | now apply Rltb_true in N].
  - intros H F1 F2. apply andb_prop in H as [T N]. rewrite T, F1, F2.
    cbn [andb]. apply Rltb_true in N.
    unfold Rltb. destruct (Rlt_dec _ 0.15); [reflexivity | lra].
Qed.

(** X13.  The punch test compares the wrist depth with the depth stored by
    the last callback that saw a hand; callbacks without hands in between
    do not touch that depth.  So the second of two callbacks on hands reports
    a punch exactly when the hand is a fist and its wrist depth differs by
    more than 0.1 from the hand of the first, however many empty callbacks
    lie between them. *)
Theorem punch_compares_with_last_seen_depth :
  forall (h1 h2 : Hand) (r1 r2 : list Hand) (k : nat)
         (g : Vis.HandGestures) (ph : Vis.Physics),
    let s := callbacks ((h1 :: r1) :: repeat [] k) g ph in
    Vis.isPunching (fst (Vis.onResults (h2 :: r2) (fst s) (snd s)))
    = Rltb 0.1 (Rabs (lz (lm h2 0) - lz (lm h1 0))) && fistLike h2.
Proof.
  intros h1 h2 r1 r2 k g ph s.
  assert (Hs : Vis.prevWristZ (snd s) = lz (lm h1 0)).
  { subst s. cbn [callbacks].
    destruct (Vis.onResults (h1 :: r1) g ph) as [g1 ph1] eqn:E.
    assert (H1 : Vis.prevWristZ ph1 = lz (lm h1 0)).
    { pose proof (onResults_flags h1 r1 g ph) as H. cbv zeta in H.
      rewrite E in H. apply H. }
    clear E. revert g1. induction k as [|k IH]; intros g1; [exact H1|].
    cbn [repeat callbacks Vis.onResults]. apply IH. }
  destruct (onResults_flags h2 r2 (fst s) (snd s)) as (_ & _ & _ & Hu & _).
  rewrite Hu, Hs. reflexivity.
Qed.

Section Translation.

Variables dx dy : R.

Lemma lm_shift (h : Hand) (i : nat) :
  (i < List.length h)%nat ->
  lm (shiftHand dx dy h) i = shiftLandmark dx dy (lm h i).
Proof.
  intros Hi. unfold lm, shiftHand.
  rewrite (nth_indep _ _ (shiftLandmark dx dy {| lx := 0; ly := 0; lz := 0 |}))
    by (rewrite length_map; exact Hi).
  apply map_nth.
Qed.

Lemma dist_shift (a b : Landmark) :
  dist (shiftLandmark dx dy a) (shiftLandmark dx dy b) = dist a b.
Proof.
  unfold dist, shiftLandmark; cbn [lx ly]. f_equal. ring.
Qed.

Lemma tipSum_shift (h : Hand) :
  List.length h = 21%nat -> tipSum (shiftHand dx dy h) = tipSum h.
Proof.
  intros Hl. unfold tipSum; cbn [fold_left].
  rewrite !lm_shift by lia. rewrite !dist_shift. reflexivity.
Qed.

End Translation.

(** X14.  The classifier looks only at distances between landmarks and at
    depths: moving every landmark of every hand by the same offset in the
    picture plane changes no gesture flag, no hand distance, no label and
    nothing in the physics state.  Only the reported index-tip and wrist
    positions move, by four times the offset (y inverted). *)
Theorem classifier_is_translation_invariant :
  forall (dx dy : R) (landmarks : list Hand) (g : Vis.HandGestures)
         (ph : Vis.Physics),
    wellFormed landmarks ->
    landmarks <> [] ->
    let r := Vis.onResults landmarks g ph in
    let r' := Vis.onResults (map (shiftHand dx dy) landmarks) g ph in
    sameGestures (fst r) (fst r')
    /\ snd r' = snd r
    /\ Vis.indexTip (fst r')
       = Vec3 (px (Vis.indexTip (fst r)) + 4 * dx)
              (py (Vis.indexTip (fst r)) - 4 * dy)
              (pz (Vis.indexTip (fst r)))
    /\ Vis.wristPos (fst r')
       = Vec3 (px (Vis.wristPos (fst r)) + 4 * dx)
              (py (Vis.wristPos (fst r)) - 4 * dy)
              (pz (Vis.wristPos (fst r))).
Proof.
  intros dx dy landmarks g ph Hw Hne r r'.
  destruct landmarks as [|h1 rest]; [contradiction|].
  assert (H1 : List.length h1 = 21%nat) by (inversion Hw; assumption).
  assert (H2 : Nat.eqb (List.length (h1 :: rest)) 2 = true ->
               List.length (nth 1 (h1 :: rest) []) = 21%nat).
  { intros E. destruct rest as [|h2 rest]; [discriminate|].
    inversion Hw as [|? ? _ Hr]; inversion Hr; assumption. }
  assert (Hn : nth 1 (map (shiftHand dx dy) (h1 :: rest)) []
               = shiftHand dx dy (nth 1 (h1 :: rest) []))
    by (apply (map_nth (shiftHand dx dy) (h1 :: rest) [] 1)).
  subst r r'. unfold Vis.onResults.
  cbn [map]. change (shiftHand dx dy h1 :: map (shiftHand dx dy) rest)
    with (map (shiftHand dx dy) (h1 :: rest)).
  rewrite Hn, length_map.
  destruct (Nat.eqb (List.length (h1 :: rest)) 2) eqn:E.
  - specialize (H2 eq_refl).
    unfold sameGestures.
    cbn [fst snd Vis.isPinching Vis.isPalmOpen Vis.isFist Vis.isPointing
         Vis.isVictory Vis.isSnapping Vis.isWaving Vis.isClapping
         Vis.isPunching Vis.isTwoHandSmash Vis.handsDistance Vis.handsCount
         Vis.gestureName Vis.indexTip Vis.wristPos px py pz].
    rewrite !tipSum_shift by assumption.
    rewrite !lm_shift by lia. rewrite !dist_shift.
    unfold Vis.mapX, Vis.mapY; cbn [shiftLandmark lx ly lz].
    repeat split; try reflexivity; f_equal; ring.
  - unfold sameGestures.
    cbn [fst snd Vis.isPinching Vis.isPalmOpen Vis.isFist Vis.isPointing
         Vis.isVictory Vis.isSnapping Vis.isWaving Vis.isClapping
         Vis.isPunching Vis.isTwoHandSmash Vis.handsDistance Vis.handsCount
         Vis.gestureName Vis.indexTip Vis.wristPos px py pz].
    rewrite !tipSum_shift by assumption.
    rewrite !lm_shift by lia. rewrite !dist_shift.
    unfold Vis.mapX, Vis.mapY; cbn [shiftLandmark lx ly lz].
    repeat split; try reflexivity; f_equal; ring.
Qed.

Lemma classifier_is_translation_invariant_witness :
  sameGestures
    (fst (Vis.onResults [fistA] Vis.initialGestures
            Vis.initialPhysics))
    (fst (Vis.onResults (map (shiftHand 0.1 0.2) [fistA])
            Vis.initialGestures Vis.initialPhysics)).
Proof.
  refine (proj1 (classifier_is_translation_invariant 0.1 0.2
                   [fistA] Vis.initialGestures
                   Vis.initialPhysics _ _)).
  - unfold wellFormed. constructor; [reflexivity | constructor].
  - discriminate.
Defined.

(** ** Invariants of the gesture-navigation frame *)

Section FrameInvariant.

Import Shader Vis.

Variables (p : Props) (g : HandGestures) (dt : R) (im : InteractionMode).
Variable I : Loop -> Prop.

Hypothesis clap_ok : forall w, I w -> I (clapStep g dt im w).
Hypothesis snap_ok : forall w, I w -> I (snapStep p g dt w).
Hypothesis punch_ok : forall w, I w -> I (punchStep g dt w).
Hypothesis smash_ok : forall w, I w -> I (smashStep p g w).
Hypothesis victory_ok : forall w, I w -> I (victoryStep g dt w).
Hypothesis fist_ok : forall w, I w -> I (fistStep g w).
Hypothesis navigation_ok : forall w, I w -> I (navigationStep g dt im w).
Hypothesis was_ok : forall a b c d w, I w -> I (set_was a b c d w).
Hypothesis lastHandPos_ok : forall v w, I w -> I (set_lastHandPos v w).
Hypothesis preset_ok : forall w, I w -> I (presetBlock p dt w).
Hypothesis manual_ok : forall w, I w -> I (manualBlock p g dt w).
Hypothesis publish_ok : forall w, I w -> I (publishStep p dt w).

Lemma gestureBlock_invariant w : I w -> I (gestureBlock p g dt im w).
Proof.
  intros H. unfold gestureBlock. destruct (_ && _); [|now apply was_ok].
  apply lastHandPos_ok, navigation_ok, was_ok, fist_ok, victory_ok, smash_ok,
    punch_ok, snap_ok, clap_ok, H.
Qed.

Lemma frameBody_invariant w : I w -> I (frameBody p g dt im w).
Proof.
  intros H. unfold frameBody. apply publish_ok.
  destruct (negb _); [apply preset_ok | apply manual_ok];
    apply gestureBlock_invariant, H.
Qed.

End FrameInvariant.

(** *** The palette id *)

Lemma Zfloor_div (z m : Z) :
  (0 < m)%Z -> Zfloor (IZR z / IZR m) = (z / m)%Z.
Proof.
  intros Hm. apply Zfloor_eq.
  pose proof (Z.div_mod z m ltac:(lia)) as Hd.
  pose proof (Z.mod_pos_bound z m Hm) as [Hr0 Hr1].
  assert (HM : 0 < IZR m) by (apply IZR_lt; exact Hm).
  assert (Hz : IZR z = IZR m * IZR (z / m) + IZR (z mod m)).
  { rewrite <- mult_IZR, <- plus_IZR. f_equal. exact Hd. }
  apply IZR_le in Hr0. apply IZR_lt in Hr1.
  split.
  - apply Rmult_le_reg_r with (IZR m); [exact HM|].
    unfold Rdiv; rewrite Rmult_assoc, Rinv_l by lra. nra.
  - apply Rmult_lt_reg_r with (IZR m); [exact HM|].
    unfold Rdiv; rewrite Rmult_assoc, Rinv_l by lra. nra.
Qed.

(** The remainder [a % m] of JavaScript on a non-negative whole number. *)
Lemma jsrem_whole (z m : Z) :
  (0 <= z)%Z -> (0 < m)%Z -> jsrem (IZR z) (IZR m) = IZR (z mod m).
Proof.
  intros Hz Hm. unfold jsrem, truncR, floorR.
  assert (HM : 0 < IZR m) by (apply IZR_lt; exact Hm).
  destruct (Rle_dec 0 (IZR z / IZR m)) as [_|H].
  - rewrite Zfloor_div by exact Hm.
    rewrite <- mult_IZR, <- minus_IZR. f_equal.
    pose proof (Z.div_mod z m ltac:(lia)). lia.
  - exfalso; apply H. apply Rmult_le_pos; [apply IZR_le; exact Hz|].
    left; apply Rinv_0_lt_compat; exact HM.
Qed.

Lemma paletteId_next (k : R) : paletteId k -> paletteId (jsrem (k + 1) 5).
Proof.
  intros (n & Hn & ->).
  exists (Z.to_nat ((Z.of_nat n + 1) mod 5)).
  pose proof (Z.mod_pos_bound (Z.of_nat n + 1) 5 ltac:(lia)) as [H0 H1].
  split; [lia|].
  rewrite (INR_IZR_INZ (Z.to_nat _)), Z2Nat.id by exact H0.
  rewrite INR_IZR_INZ, <- (plus_IZR (Z.of_nat n) 1).
  apply (jsrem_whole (Z.of_nat n + 1) 5); lia.
Qed.

Section PaletteFrame.

Import Shader Vis.

Variables (p : Props) (g : HandGestures) (dt : R) (im : InteractionMode).

Let valid (w : Loop) : Prop :=
  paletteId (uColorMode (partU w)) /\ paletteId (uColorMode (quadU w)).

Ltac same_palette unf step :=
  intros w [H1 H2];
  assert (E1 : uColorMode (partU (step w)) = uColorMode (partU w))
    by (unf; keeps);
  assert (E2 : uColorMode (quadU (step w)) = uColorMode (quadU w))
    by (unf; keeps);
  unfold valid; rewrite E1, E2; split; assumption.

Lemma frameBody_palette :
  forall w, valid w -> valid (frameBody p g dt im w).
Proof.
  apply frameBody_invariant.
  - same_palette ltac:(unfold clapStep) (clapStep g dt im).
  - intros x [H1 H2]. unfold valid, snapStep.
    destruct (isSnapping g && _).
    + pose proof (paletteId_next _ H1). pose proof (paletteId_next _ H2).
      split; split_ifs; loop_simpl; split_ifs; assumption.
    + split; split_ifs; loop_simpl; assumption.
  - same_palette ltac:(unfold punchStep) (punchStep g dt).
  - same_palette ltac:(unfold smashStep) (smashStep p g).
  - same_palette ltac:(unfold victoryStep) (victoryStep g dt).
  - same_palette ltac:(unfold fistStep) (fistStep g).
  - same_palette ltac:(unfold navigationStep) (navigationStep g dt im).
  - intros a b c d x H; exact H.
  - intros v x H; exact H.
  - same_palette ltac:(unfold presetBlock; destruct (activeAnimation p))
                        (presetBlock p dt).
  - same_palette ltac:(unfold manualBlock; destruct (forceTargets g))
                        (manualBlock p g dt).
  - same_palette ltac:(unfold publishStep) (publishStep p dt).
Qed.

End PaletteFrame.

Section ColorModeProp.

Import Shader Vis.

Variables (c : R) (p : Props) (g : HandGestures) (dt : R)
          (im : InteractionMode).

Lemma snapStep_colorMode w :
  snapStep (withColorMode c p) g dt w = snapStep p g dt w.
Proof. reflexivity. Qed.

Lemma smashStep_colorMode w :
  smashStep (withColorMode c p) g w = smashStep p g w.
Proof. reflexivity. Qed.

Lemma gestureBlock_colorMode w :
  gestureBlock (withColorMode c p) g dt im w = gestureBlock p g dt im w.
Proof.
  unfold gestureBlock.
  change (interactiveMode (withColorMode c p)) with (interactiveMode p).
  destruct (_ && _); [|reflexivity].
  rewrite snapStep_colorMode, smashStep_colorMode. reflexivity.
Qed.

Lemma presetBlock_colorMode w :
  presetBlock (withColorMode c p) dt w = presetBlock p dt w.
Proof.
  unfold presetBlock.
  change (interactiveMode (withColorMode c p)) with (interactiveMode p).
  change (activeAnimation (withColorMode c p)) with (activeAnimation p).
  reflexivity.
Qed.

Lemma manualBlock_colorMode w :
  manualBlock (withColorMode c p) g dt w = manualBlock p g dt w.
Proof.
  unfold manualBlock.
  change (interactiveMode (withColorMode c p)) with (interactiveMode p).
  change (mode (withColorMode c p)) with (mode p).
  change (iterations (withColorMode c p)) with (iterations p).
  change (power (withColorMode c p)) with (power p).
  change (attractionSensitivity (withColorMode c p))
    with (attractionSensitivity p).
  reflexivity.
Qed.

Lemma publishStep_colorMode w :
  publishStep (withColorMode c p) dt w = publishStep p dt w.
Proof.
  unfold publishStep.
  change (interactiveMode (withColorMode c p)) with (interactiveMode p).
  reflexivity.
Qed.

Lemma frameBody_colorMode w :
  frameBody (withColorMode c p) g dt im w = frameBody p g dt im w.
Proof.
  unfold frameBody.
  change (activeAnimation (withColorMode c p)) with (activeAnimation p).
  rewrite publishStep_colorMode, gestureBlock_colorMode.
  destruct (negb _);
    [apply f_equal, presetBlock_colorMode
    | apply f_equal, manualBlock_colorMode].
Qed.

End ColorModeProp.

(** X15.  The palette id of both materials is always one of 0, 1, 2, 3, 4:
    a frame keeps it there, since the only write is the snap action's
    [(id + 1) % 5].  The [colorMode] prop takes no part: a frame does the
    same whatever its value. *)
Theorem palette_id_stays_valid :
  forall (p : Vis.Props) (g : Vis.HandGestures) (delta : R) (w : Vis.Loop),
    paletteId (Shader.uColorMode (Vis.partU w)) ->
    paletteId (Shader.uColorMode (Vis.quadU w)) ->
    paletteId (Shader.uColorMode (Vis.partU (Vis.animate p g delta w)))
    /\ paletteId (Shader.uColorMode (Vis.quadU (Vis.animate p g delta w)))
    /\ forall c, Vis.animate (withColorMode c p) g delta w
                 = Vis.animate p g delta w.
Proof.
  intros p g delta w H1 H2.
  destruct (frameBody_palette p g (Rmin delta 0.1) (Vis.interactionModeRef w)
              w (conj H1 H2)) as [A B].
  split; [exact A | split; [exact B|]].
  intros c. apply frameBody_colorMode.
Qed.

Lemma palette_id_stays_valid_witness :
  paletteId (Shader.uColorMode
               (Vis.partU (Vis.animate (propsWith true NONE)
                             Vis.initialGestures (1 / 60) Vis.initialLoop))).
Proof.
  refine (proj1 (palette_id_stays_valid (propsWith true NONE)
                   Vis.initialGestures (1 / 60) Vis.initialLoop _ _));
    exists 0%nat; split; [lia | reflexivity | lia | reflexivity].
Defined.

(** *** The blended mode value *)

Lemma modeIndex_range (m : FractalMode) : inModeRange (Vis.modeIndex m).
Proof. unfold inModeRange; destruct m; cbn [Vis.modeIndex]; lra. Qed.

Lemma jsrem_floor_range (x : R) :
  0 <= x -> inModeRange (jsrem (floorR x) 7).
Proof.
  intros Hx. unfold floorR.
  assert (Hz : (0 <= Zfloor x)%Z) by (apply Zfloor_lub; exact Hx).
  rewrite (jsrem_whole (Zfloor x) 7) by lia.
  pose proof (Z.mod_pos_bound (Zfloor x) 7 ltac:(lia)) as [H0 H1].
  unfold inModeRange. split; [apply IZR_le; exact H0|].
  apply IZR_le. lia.
Qed.

Lemma damp_between (x t lambda dt lo hi : R) :
  0 <= lambda * dt -> lo <= x <= hi -> lo <= t <= hi ->
  lo <= damp x t lambda dt <= hi.
Proof.
  intros H Hx Ht.
  assert (He : 0 < exp (- lambda * dt) <= 1).
  { split; [apply exp_pos | apply exp_le_1; lra]. }
  rewrite damp_decay. nra.
Qed.

Section ModeFrame.

Import Shader Vis.

Variables (p : Props) (g : HandGestures) (dt : R) (im : InteractionMode).

Lemma gestureBlock_currentModeVal :
  forall w, currentModeVal (gestureBlock p g dt im w) = currentModeVal w.
Proof.
  intros w0.
  apply (gestureBlock_invariant p g dt im
           (fun x => currentModeVal x = currentModeVal w0));
    try reflexivity; intros; try assumption;
    match goal with H : _ = currentModeVal w0 |- _ => rewrite <- H end.
  - unfold clapStep; keeps.
  - unfold snapStep; keeps.
  - unfold punchStep; keeps.
  - unfold smashStep; keeps.
  - unfold victoryStep; keeps.
  - unfold fistStep; keeps.
  - unfold navigationStep; keeps.
Qed.

Lemma presetBlock_mode w :
  0 <= animPhase w + dt ->
  animPhase (presetBlock p dt w) = animPhase w + dt
  /\ currentModeVal (presetBlock p dt w) = currentModeVal w
  /\ inModeRange (targetMode (presetBlock p dt w)).
Proof.
  intros H. unfold presetBlock.
  destruct (activeAnimation p); loop_simpl;
    (split; [reflexivity | split; [reflexivity|]]);
    try (apply jsrem_floor_range;
         apply Rmult_le_pos; [exact H | lra]);
    unfold inModeRange; lra.
Qed.

Lemma manualBlock_mode w :
  animPhase (manualBlock p g dt w) = animPhase w
  /\ currentModeVal (manualBlock p g dt w) = currentModeVal w
  /\ targetMode (manualBlock p g dt w) = modeIndex (mode p).
Proof.
  unfold manualBlock. destruct (forceTargets g).
  repeat split; keeps.
Qed.

Lemma publishStep_mode w :
  animPhase (publishStep p dt w) = animPhase w
  /\ targetMode (publishStep p dt w) = targetMode w
  /\ currentModeVal (publishStep p dt w)
     = damp (currentModeVal w) (targetMode w) 5 dt
  /\ uMode (getU (interactiveMode p) (publishStep p dt w))
     = damp (currentModeVal w) (targetMode w) 5 dt.
Proof.
  unfold publishStep, getU.
  destruct (interactiveMode p); repeat split; loop_simpl; reflexivity.
Qed.

End ModeFrame.

(** X16.  The blended mode value stays in the range [0, 6] of the seven
    fractal families: with a non-negative frame time and phase timer, a
    frame leaves the phase timer non-negative, picks a target mode in
    [0, 6], moves the mode value toward it without leaving [0, 6], and
    publishes that value as [uMode]. *)
Theorem mode_value_stays_in_range :
  forall (p : Vis.Props) (g : Vis.HandGestures) (delta : R) (w : Vis.Loop),
    0 <= delta ->
    0 <= Vis.animPhase w ->
    inModeRange (Vis.currentModeVal w) ->
    let w' := Vis.animate p g delta w in
    0 <= Vis.animPhase w'
    /\ inModeRange (Vis.targetMode w')
    /\ inModeRange (Vis.currentModeVal w')
    /\ Shader.uMode (Vis.getU (Vis.interactiveMode p) w')
       = Vis.currentModeVal w'.
Proof.
  intros p g delta w Hd Ha Hc w'. subst w'. unfold Vis.animate.
  set (dt := Rmin delta 0.1). set (im := Vis.interactionModeRef w).
  assert (Hdt : 0 <= dt) by (unfold dt; apply Rmin_glb; lra).
  unfold Vis.frameBody.
  set (w1 := Vis.gestureBlock p g dt im w).
  assert (A1 : Vis.animPhase w1 = Vis.animPhase w)
    by apply gestureBlock_animPhase.
  assert (C1 : Vis.currentModeVal w1 = Vis.currentModeVal w)
    by apply gestureBlock_currentModeVal.
  set (w2 := if negb _ then _ else _).
  assert (H2 : 0 <= Vis.animPhase w2
               /\ Vis.currentModeVal w2 = Vis.currentModeVal w
               /\ inModeRange (Vis.targetMode w2)).
  { subst w2. destruct (negb _).
    - destruct (presetBlock_mode p dt w1) as (a & c & t);
        [rewrite A1; lra|].
      rewrite a, c, A1, C1. split; [lra | split; [reflexivity | exact t]].
    - destruct (manualBlock_mode p g dt w1) as (a & c & t).
      rewrite a, c, t, A1, C1.
      split; [exact Ha | split; [reflexivity | apply modeIndex_range]]. }
  destruct H2 as (A2 & C2 & T2).
  destruct (publishStep_mode p dt w2) as (a & t & c & u).
  rewrite a, t, c, u, C2.
  split; [exact A2 | split; [exact T2 | split; [|reflexivity]]].
  apply damp_between; [lra | exact Hc | exact T2].
Qed.

Lemma mode_value_stays_in_range_witness :
  inModeRange
    (Vis.currentModeVal
       (Vis.animate (propsWith true UNIVERSE_TOUR) Vis.initialGestures
          (1 / 60) Vis.initialLoop)).
Proof.
  refine (proj1 (proj2 (proj2
    (mode_value_stays_in_range (propsWith true UNIVERSE_TOUR)
       Vis.initialGestures (1 / 60) Vis.initialLoop _ _ _))));
    unfold inModeRange; cbn [Vis.initialLoop Vis.animPhase Vis.currentModeVal];
    lra.
Defined.

(** *** The evolution time *)

Section TimeFrame.

Import Shader Vis.

Variables (p : Props) (g : HandGestures) (dt : R) (im : InteractionMode).

Lemma gestureBlock_evolutionTime w :
  evolutionTime (gestureBlock p g dt im w)
  = evolutionTime w
    - (if gesturesLive p g && isVictory g then dt else 0).
Proof.
  unfold gestureBlock, gesturesLive.
  destruct (interactiveMode p && _); cbn [andb];
    [|cbn [set_was set_physics evolutionTime]; ring].
  assert (H1 : forall x, evolutionTime (navigationStep g dt im x)
                         = evolutionTime x)
    by (intros; unfold navigationStep; keeps).
  assert (H2 : forall x, evolutionTime (fistStep g x) = evolutionTime x)
    by (intros; unfold fistStep; keeps).
  assert (H3 : forall x, evolutionTime (victoryStep g dt x)
                         = evolutionTime x - (if isVictory g then dt else 0)).
  { intros; unfold victoryStep. destruct (isVictory g).
    - split_ifs; loop_simpl; reflexivity.
    - ring. }
  assert (H4 : forall x, evolutionTime (smashStep p g x) = evolutionTime x)
    by (intros; unfold smashStep; keeps).
  assert (H5 : forall x, evolutionTime (punchStep g dt x) = evolutionTime x)
    by (intros; unfold punchStep; keeps).
  assert (H6 : forall x, evolutionTime (snapStep p g dt x) = evolutionTime x)
    by (intros; unfold snapStep; keeps).
  assert (H7 : forall x, evolutionTime (clapStep g dt im x) = evolutionTime x)
    by (intros; unfold clapStep; keeps).
  cbn [set_lastHandPos set_physics evolutionTime].
  rewrite H1. cbn [set_was set_physics evolutionTime].
  now rewrite H2, H3, H4, H5, H6, H7.
Qed.

Lemma presetBlock_evolutionTime w :
  evolutionTime (presetBlock p dt w) = evolutionTime w.
Proof. unfold presetBlock; destruct (activeAnimation p); keeps. Qed.

Lemma manualBlock_evolutionTime w :
  evolutionTime (manualBlock p g dt w) = evolutionTime w.
Proof. unfold manualBlock; destruct (forceTargets g); keeps. Qed.

Lemma publishStep_time w :
  evolutionTime (publishStep p dt w) = evolutionTime w + dt * 0.2
  /\ uTime (getU (interactiveMode p) (publishStep p dt w))
     = evolutionTime w + dt * 0.2.
Proof.
  unfold publishStep, getU.
  destruct (interactiveMode p); split; loop_simpl; reflexivity.
Qed.

End TimeFrame.

(** X17.  A frame advances the evolution time by [0.2 * dt] and publishes it
    as [uTime].  While the victory gesture is held (interactive mode, a hand
    in view) the frame first takes [dt] off: the time does not stand still
    but runs backwards, by [0.8 * dt] per frame. *)
Theorem victory_runs_time_backwards :
  forall (p : Vis.Props) (g : Vis.HandGestures) (delta : R) (w : Vis.Loop),
    let dt := Rmin delta 0.1 in
    let w' := Vis.animate p g delta w in
    Vis.evolutionTime w'
    = Vis.evolutionTime w
      + (if gesturesLive p g && Vis.isVictory g then -0.8 * dt else 0.2 * dt)
    /\ Shader.uTime (Vis.getU (Vis.interactiveMode p) w')
       = Vis.evolutionTime w'.
Proof.
  intros p g delta w dt w'. subst w'. unfold Vis.animate, Vis.frameBody.
  fold dt.
  set (w2 := if negb _ then _ else _).
  assert (H2 : Vis.evolutionTime w2
               = Vis.evolutionTime w
                 - (if gesturesLive p g && Vis.isVictory g then dt else 0)).
  { subst w2. destruct (negb _);
      rewrite ?presetBlock_evolutionTime, ?manualBlock_evolutionTime;
      apply gestureBlock_evolutionTime. }
  destruct (publishStep_time p dt w2) as [E U].
  rewrite E, U, H2.
  split; [|reflexivity].
  destruct (gesturesLive p g && Vis.isVictory g); lra.
Qed.

(** *** The hand forces *)

Section ForcesFrame.

Import Shader Vis.

Variables (p : Props) (g : HandGestures) (dt : R) (im : InteractionMode).
Variable b : bool.

Lemma presetBlock_forces w :
  forces (getU b (presetBlock p dt w)) = forces (getU b w).
Proof.
  unfold presetBlock, getU, forces.
  destruct b, (activeAnimation p); keeps.
Qed.

Lemma publishStep_forces w :
  forces (getU b (publishStep p dt w)) = forces (getU b w).
Proof. unfold publishStep, getU, forces. destruct b; keeps. Qed.

Hypothesis idle : gesturesLive p g = false.

Lemma gestureBlock_forces_idle w :
  forces (getU b (gestureBlock p g dt im w)) = forces (getU b w).
Proof.
  unfold gestureBlock. fold (gesturesLive p g). rewrite idle.
  unfold getU; destruct b; reflexivity.
Qed.

Lemma manualBlock_forces_idle w :
  forces (getU b (manualBlock p g dt w)) = forces (getU b w).
Proof.
  unfold manualBlock. fold (gesturesLive p g). rewrite idle.
  unfold getU, forces. destruct b; keeps.
Qed.

End ForcesFrame.

(** X18.  Without a hand in view, or outside interactive mode, a frame
    leaves the hand position and the attract and repel strengths of both
    materials as they are: the forces of the last hand seen are neither
    released nor damped toward zero. *)
Theorem forces_persist_without_hands :
  forall (p : Vis.Props) (g : Vis.HandGestures) (delta : R) (w : Vis.Loop)
         (b : bool),
    gesturesLive p g = false ->
    forces (Vis.getU b (Vis.animate p g delta w)) = forces (Vis.getU b w).
Proof.
  intros p g delta w b Hidle. unfold Vis.animate, Vis.frameBody.
  rewrite publishStep_forces.
  destruct (negb _);
    rewrite ?presetBlock_forces, ?manualBlock_forces_idle by exact Hidle;
    apply gestureBlock_forces_idle; exact Hidle.
Qed.

Lemma forces_persist_without_hands_witness :
  forces (Vis.getU true
            (Vis.animate (propsWith true NONE) Vis.initialGestures (1 / 60)
               Vis.initialLoop))
  = forces (Vis.getU true Vis.initialLoop).
Proof.
  apply (forces_persist_without_hands (propsWith true NONE)
           Vis.initialGestures (1 / 60) Vis.initialLoop true).
  reflexivity.
Defined.

(** *** The cooldown timers *)

Section TimerFrame.

Import Shader Vis.

Variables (p : Props) (g : HandGestures) (dt : R) (im : InteractionMode).

Hypothesis dt_range : 0 <= dt <= 0.1.

Let ok (w : Loop) : Prop := timersInRange (physics w).

Ltac same_timers unf step :=
  intros w H;
  assert (E1 : clapCooldown (physics (step w)) = clapCooldown (physics w))
    by (unf; keeps);
  assert (E2 : snapCooldown (physics (step w)) = snapCooldown (physics w))
    by (unf; keeps);
  unfold ok, timersInRange; rewrite E1, E2; exact H.

Lemma frameBody_timers :
  forall w, ok w -> ok (frameBody p g dt im w).
Proof.
  apply frameBody_invariant.
  - intros w [[H1 H2] H3]. unfold ok, timersInRange, clapStep.
    destruct (isClapping g && _); loop_simpl.
    + destruct (Rlt_dec 0 1); [loop_simpl; lra | lra].
    + destruct (Rlt_dec 0 _); loop_simpl; lra.
  - intros w [H1 [H2 H3]]. unfold ok, timersInRange, snapStep.
    destruct (isSnapping g && _); loop_simpl.
    + destruct (Rlt_dec 0 0.5); [loop_simpl; lra | lra].
    + destruct (Rlt_dec 0 _); loop_simpl; lra.
  - same_timers ltac:(unfold punchStep) (punchStep g dt).
  - same_timers ltac:(unfold smashStep) (smashStep p g).
  - same_timers ltac:(unfold victoryStep) (victoryStep g dt).
  - same_timers ltac:(unfold fistStep) (fistStep g).
  - same_timers ltac:(unfold navigationStep) (navigationStep g dt im).
  - intros a c d e w H; exact H.
  - intros v w H; exact H.
  - same_timers ltac:(unfold presetBlock; destruct (activeAnimation p))
                       (presetBlock p dt).
  - same_timers ltac:(unfold manualBlock; destruct (forceTargets g))
                       (manualBlock p g dt).
  - same_timers ltac:(unfold publishStep) (publishStep p dt).
Qed.

End TimerFrame.

(** X19.  The two cooldown timers stay in their ranges: with a non-negative
    frame time, a frame keeps the clap timer in (-0.1, 1] and the snap timer
    in (-0.1, 0.5].  A timer is only counted down while it is positive and
    the frame time is capped at 0.1. *)
Theorem cooldown_timers_stay_in_range :
  forall (p : Vis.Props) (g : Vis.HandGestures) (delta : R) (w : Vis.Loop),
    0 <= delta ->
    timersInRange (Vis.physics w) ->
    timersInRange (Vis.physics (Vis.animate p g delta w)).
Proof.
  intros p g delta w Hd Hw. unfold Vis.animate.
  apply frameBody_timers; [|exact Hw].
  split; [apply Rmin_glb; lra | apply Rmin_r].
Qed.

Lemma cooldown_timers_stay_in_range_witness :
  timersInRange
    (Vis.physics (Vis.animate (propsWith true NONE) Vis.initialGestures
                    (1 / 60) Vis.initialLoop)).
Proof.
  apply (cooldown_timers_stay_in_range (propsWith true NONE)
           Vis.initialGestures (1 / 60) Vis.initialLoop).
  - lra.
  - unfold timersInRange;
      cbn [Vis.initialLoop Vis.physics Vis.initialPhysics Vis.clapCooldown
           Vis.snapCooldown]; lra.
Defined.

(** *** The smash frame *)

Section SmashFrame.

Import Shader Vis.

Variables (p : Props) (g : HandGestures) (dt : R) (im : InteractionMode).

Hypothesis live : gesturesLive p g = true.
Hypothesis smash : isTwoHandSmash g = true.
Hypothesis fist : isFist g = true.

Lemma smashStep_reset w :
  nav (smashStep p g w) = {| zoom := 1; pan := Vec2 0 0 |}.
Proof. unfold smashStep; rewrite smash; keeps. Qed.

Lemma gestureBlock_smash_nav w :
  nav (gestureBlock p g dt im w)
  = match im with
    | OBJECT_ORBIT =>
        {| zoom := 1;
           pan := Vec2 (0 + (px (indexTip g) - px (lastHandPos (physics w)))
                            * 2.5)
                       (0 - (py (indexTip g) - py (lastHandPos (physics w)))
                            * 2.5) |}
    | IMMERSIVE_FLY => {| zoom := 1 * (1 + dt * 0.8); pan := Vec2 0 0 |}
    end.
Proof.
  unfold gestureBlock. fold (gesturesLive p g). rewrite live.
  cbn [set_lastHandPos set_physics nav].
  unfold navigationStep. rewrite fist.
  destruct im;
    cbn [set_pan set_zoom set_nav nav zoom pan set_was set_physics physics
         lastHandPos];
    rewrite ?fistStep_nav, ?victoryStep_nav, ?smashStep_reset;
    rewrite ?fistStep_lastHandPos, ?victoryStep_lastHandPos,
      ?smashStep_lastHandPos, ?punchStep_lastHandPos, ?snapStep_lastHandPos,
      ?clapStep_lastHandPos;
    reflexivity.
Qed.

End SmashFrame.

(** X20.  A two-hand smash resets the zoom to 1 and the pan to the origin,
    and the fist navigation of the same frame then acts on the reset view
    (a smash is a fist).  Without a preset, the frame leaves the view in
    orbit mode at zoom 1 with the pan at 2.5 times the movement of the index
    tip since the last frame, and in fly mode at the origin with the zoom at
    [1 + 0.8 * dt]. *)
Theorem smash_resets_then_navigates :
  forall (p : Vis.Props) (g : Vis.HandGestures) (delta : R) (w : Vis.Loop),
    gesturesLive p g = true ->
    Vis.activeAnimation p = NONE ->
    Vis.isTwoHandSmash g = true ->
    Vis.isFist g = true ->
    Vis.nav (Vis.animate p g delta w)
    = match Vis.interactionModeRef w with
      | OBJECT_ORBIT =>
          {| Vis.zoom := 1;
             Vis.pan :=
               Vec2 (0 + (px (Vis.indexTip g)
                          - px (Vis.lastHandPos (Vis.physics w))) * 2.5)
                    (0 - (py (Vis.indexTip g)
                          - py (Vis.lastHandPos (Vis.physics w))) * 2.5) |}
      | IMMERSIVE_FLY =>
          {| Vis.zoom := 1 * (1 + Rmin delta 0.1 * 0.8);
             Vis.pan := Vec2 0 0 |}
      end.
Proof.
  intros p g delta w Hl Ha Hs Hf.
  unfold Vis.animate, Vis.frameBody. rewrite Ha; cbn [isNONE negb].
  rewrite publishStep_nav, manualBlock_nav.
  apply gestureBlock_smash_nav; assumption.
Qed.

Lemma smash_resets_then_navigates_witness :
  Vis.nav (Vis.animate (propsWith true NONE) smashHeld (1 / 60)
             Vis.initialLoop)
  = {| Vis.zoom := 1;
       Vis.pan :=
         Vec2 (0 + (px (Vis.indexTip smashHeld)
                    - px (Vis.lastHandPos (Vis.physics Vis.initialLoop)))
                   * 2.5)
              (0 - (py (Vis.indexTip smashHeld)
                    - py (Vis.lastHandPos (Vis.physics Vis.initialLoop)))
                   * 2.5) |}.
Proof.
  apply (smash_resets_then_navigates (propsWith true NONE) smashHeld (1 / 60)
           Vis.initialLoop); reflexivity.
Defined.

(** ** The particle component with the preset engine *)

Section LegacyCallback.

Import Legacy.

Lemma legacy_onResults_flags (h : Hand) (rest : list Hand)
  (g : HandGestures) (history : list R) :
  let r := onResults (h :: rest) g history in
  let pinching := Rltb (d2 (lm h 4) (lm h 8)) 0.05 in
  let palm := Rltb 0.15 (d2 (lm h 5) (lm h 17)) && negb pinching in
  let pushed := history ++ [lx (lm h 9)] in
  let window := if Nat.ltb 20 (List.length pushed) then tl pushed else pushed in
  let range := if Nat.ltb 10 (List.length window)
               then maxList window - minList window else 0 in
  isVisible (fst r) = true
  /\ isPinching (fst r) = pinching
  /\ isPalmOpen (fst r) = palm
  /\ isStopped (fst r) = palm
  /\ isSnapping (fst r)
     = Rltb (d2 (lm h 4) (lm h 12)) 0.04 && Rltb 0.06 (d2 (lm h 4) (lm h 8))
  /\ isWaving (fst r) = Rltb 0.25 range && negb (isFist (fst r))
  /\ isFist (fst r)
     = Rltb (fold_left (fun acc i => acc + d2 (lm h i) (lm h 0))
                       [8; 12; 16; 20]%nat 0 / 4) 0.3 && negb palm
  /\ snd r = window.
Proof. cbv zeta. unfold onResults. repeat split; reflexivity. Qed.

End LegacyCallback.

(** X21.  The flags the callback of the particle component sets on a hand
    are consistent: the hand is visible; "stopped" is the open palm; an open
    palm excludes pinch and fist; a snap excludes a pinch; waving excludes a
    fist and needs at least ten earlier samples in the wave history. *)
Theorem legacy_flags_are_consistent :
  forall (h : Hand) (rest : list Hand) (g : Legacy.HandGestures)
         (history : list R),
    let g' := fst (Legacy.onResults (h :: rest) g history) in
    Legacy.isVisible g' = true
    /\ Legacy.isStopped g' = Legacy.isPalmOpen g'
    /\ (Legacy.isPalmOpen g' = true ->
          Legacy.isPinching g' = false /\ Legacy.isFist g' = false)
    /\ (Legacy.isSnapping g' = true -> Legacy.isPinching g' = false)
    /\ (Legacy.isWaving g' = true ->
          Legacy.isFist g' = false /\ (10 <= List.length history)%nat).
Proof.
  intros h rest g history g'.
  destruct (legacy_onResults_flags h rest g history)
    as (Hv & Hp & Ho & Hs & Hn & Hw & Hf & _).
  cbv zeta in Hv, Hp, Ho, Hs, Hn, Hw, Hf.
  fold g' in Hv, Hp, Ho, Hs, Hn, Hw, Hf.
  split; [exact Hv | split; [congruence | split; [|split]]].
  - intros H. rewrite Hf, Hp. rewrite Ho in H.
    rewrite H. apply andb_prop in H as [_ H].
    split; [now destruct (Rltb _ 0.05) | apply andb_false_r].
  - intros H. rewrite Hn in H. apply andb_prop in H as [_ H].
    apply Rltb_true in H. rewrite Hp. apply Rltb_false. lra.
  - intros H. rewrite Hw in H. apply andb_prop in H as [H1 H2].
    split; [now destruct (Legacy.isFist g')|].
    destruct (Nat.ltb 10 _) eqn:E in H1.
    + apply Nat.ltb_lt in E.
      destruct (Nat.ltb 20 _) in E.
      * destruct history as [|a history]; cbn [app tl List.length] in E.
        -- cbn in E. lia.
        -- rewrite length_app in E. cbn [List.length] in *. lia.
      * rewrite length_app in E. cbn [List.length] in E. lia.
    + apply Rltb_true in H1. lra.
Qed.

Lemma legacy_window (h : Hand) (rest : list Hand) (g : Legacy.HandGestures)
  (history : list R) :
  (List.length history <= 20)%nat ->
  (List.length (snd (Legacy.onResults (h :: rest) g history)) <= 20)%nat
  /\ snd (Legacy.onResults (h :: rest) g history)
     = skipn (List.length history + 1 - 20) (history ++ [lx (lm h 9)]).
Proof.
  intros Hl.
  destruct (legacy_onResults_flags h rest g history)
    as (_ & _ & _ & _ & _ & _ & _ & Hh).
  cbv zeta in Hh. rewrite Hh.
  assert (Hp : List.length (history ++ [lx (lm h 9)])
               = (List.length history + 1)%nat)
    by (rewrite length_app; reflexivity).
  destruct (Nat.ltb 20 _) eqn:E.
  - apply Nat.ltb_lt in E. rewrite Hp in E.
    assert (Hl20 : List.length history = 20%nat) by lia.
    rewrite Hl20. change (20 + 1 - 20)%nat with 1%nat.
    destruct history as [|a history]; [discriminate|].
    cbn [app tl skipn]. split; [|reflexivity].
    rewrite length_app. cbn [List.length] in *. lia.
  - apply Nat.ltb_ge in E. rewrite Hp in E.
    replace (List.length history + 1 - 20)%nat with 0%nat by lia.
    cbn [skipn]. split; [lia | reflexivity].
Qed.

(** X22.  The wave history is a sliding window of the last 20 samples: it
    starts empty, every callback on a hand appends the x-coordinate of
    landmark 9 and drops the oldest sample once there are more than 20, and
    a callback without hands leaves it alone.  Whatever frames arrive, a
    history of at most 20 samples stays at most 20 long, and grows by at
    most one sample per callback. *)
Theorem wave_history_is_a_window :
  forall (frames : list (list Hand)) (g : Legacy.HandGestures)
         (history : list R),
    (List.length history <= 20)%nat ->
    (List.length (snd (legacyCallbacks frames g history)) <= 20)%nat
    /\ (List.length (snd (legacyCallbacks frames g history))
        <= List.length history + List.length frames)%nat
    /\ forall h rest,
         snd (Legacy.onResults (h :: rest) g history)
         = skipn (List.length history + 1 - 20) (history ++ [lx (lm h 9)]).
Proof.
  intros frames g history Hl.
  split; [|split].
  - revert g history Hl.
    induction frames as [|f frames IH]; intros g history Hl; [exact Hl|].
    cbn [legacyCallbacks].
    destruct (Legacy.onResults f g history) as [g1 h1] eqn:E.
    apply IH.
    destruct f as [|h rest].
    + cbn in E. inversion E; subst. exact Hl.
    + pose proof (legacy_window h rest g history Hl) as [H _].
      rewrite E in H. exact H.
  - revert g history Hl.
    induction frames as [|f frames IH]; intros g history Hl;
      [cbn [legacyCallbacks snd List.length]; lia|].
    cbn [legacyCallbacks].
    destruct (Legacy.onResults f g history) as [g1 h1] eqn:E.
    assert (H1 : (List.length h1 <= 20)%nat
                 /\ (List.length h1 <= List.length history + 1)%nat).
    { destruct f as [|h rest].
      - cbn in E. inversion E; subst. lia.
      - pose proof (legacy_window h rest g history Hl) as [H H'].
        rewrite E in H, H'. cbn [snd] in H, H'. split; [exact H|].
        rewrite H', length_skipn, length_app. cbn [List.length]. lia. }
    destruct H1 as [Ha Hb].
    specialize (IH g1 h1 Ha). cbn [List.length]. lia.
  - intros h rest. apply legacy_window; exact Hl.
Qed.

Lemma wave_history_is_a_window_witness :
  (List.length (snd (legacyCallbacks [[fistA]; []; [fistA; fistB]]
                       Legacy.initialGestures [])) <= 20)%nat.
Proof.
  refine (proj1 (wave_history_is_a_window [[fistA]; []; [fistA; fistB]]
                   Legacy.initialGestures [] _)).
  cbn [List.length]; lia.
Defined.

(** *** The frame of the particle component *)

Ltac legacy_cases anim prm g :=
  unfold Legacy.animate, Legacy.presetEngine, Legacy.standardLogic;
  destruct anim; cbn [isNONE negb];
  try (destruct (Legacy.interactiveMode prm); [destruct (Legacy.isVisible g)|]);
  cbn [Legacy.u Legacy.nav Legacy.targetMode Legacy.currentJulia
       Legacy.evolutionTime Legacy.animPhase
       Shader.uExplosion Shader.uChaos Shader.uSnap Shader.uMode
       Shader.uZoom Shader.uPan Shader.uJuliaC Shader.uTime
       Shader.set_uMode Shader.set_uTime Shader.set_uZoom Shader.set_uPan
       Shader.set_uMaxIter Shader.set_uPower Shader.set_uColorMode
       Shader.set_uVisualMode Shader.set_uHandPos
       Shader.set_uAttractStrength Shader.set_uRepelStrength
       Shader.set_uPinchScale Shader.set_uExplosion Shader.set_uChaos
       Shader.set_uSnap Shader.set_uJuliaC Legacy.zoom Legacy.pan].

Lemma legacy_lerp_unit (x : R) (b : bool) :
  unit01 x -> unit01 (Legacy.lerp x (Legacy.b2r b) 0.1).
Proof.
  unfold unit01, Legacy.lerp, Legacy.b2r. intros H. destruct b; lra.
Qed.

(** X23.  The three effect intensities stay in [0, 1]: a frame either keeps
    [uExplosion], [uChaos] and [uSnap] or moves each a tenth of the way
    toward 0 or 1, whatever the mode, preset, parameters and gestures. *)
Theorem legacy_intensities_stay_in_unit_interval :
  forall (mode : FractalMode) (anim : AnimationPreset) (prm : Legacy.Params)
         (g : Legacy.HandGestures) (dt : R) (w : Legacy.Loop),
    unit01 (Shader.uExplosion (Legacy.u w)) ->
    unit01 (Shader.uChaos (Legacy.u w)) ->
    unit01 (Shader.uSnap (Legacy.u w)) ->
    let w' := Legacy.animate mode anim prm g dt w in
    unit01 (Shader.uExplosion (Legacy.u w'))
    /\ unit01 (Shader.uChaos (Legacy.u w'))
    /\ unit01 (Shader.uSnap (Legacy.u w')).
Proof.
  intros mode anim prm g dt w He Hc Hs w'. subst w'.
  legacy_cases anim prm g;
    (split; [|split]);
    first [assumption | apply legacy_lerp_unit; assumption].
Qed.

Lemma legacy_intensities_stay_in_unit_interval_witness :
  unit01 (Shader.uExplosion
            (Legacy.u (Legacy.animate MANDELBROT NONE Legacy.defaultParams
                         Legacy.clapSeen (1 / 60) Legacy.initialLoop))).
Proof.
  refine (proj1 (legacy_intensities_stay_in_unit_interval MANDELBROT NONE
                   Legacy.defaultParams Legacy.clapSeen (1 / 60)
                   Legacy.initialLoop _ _ _));
    unfold unit01;
    cbn [Legacy.initialLoop Legacy.u Legacy.initialUniforms
         Shader.uExplosion Shader.uChaos Shader.uSnap]; lra.
Defined.

(** X24.  The mode value of the particle component is blended by an explicit
    Euler step with the uncapped frame time: after a frame its distance to
    the target mode is the old distance times [1 - 3 * dt].  It approaches
    the target without overshoot only for [dt <= 1/3]; a frame time above
    2/3 s makes the distance grow. *)
Theorem legacy_mode_blend_is_an_euler_step :
  forall (mode : FractalMode) (anim : AnimationPreset) (prm : Legacy.Params)
         (g : Legacy.HandGestures) (dt : R) (w : Legacy.Loop),
    let w' := Legacy.animate mode anim prm g dt w in
    Shader.uMode (Legacy.u w') - Legacy.targetMode w'
    = (Shader.uMode (Legacy.u w) - Legacy.targetMode w') * (1 - 3 * dt)
    /\ (2 / 3 < dt ->
        Rabs (Shader.uMode (Legacy.u w) - Legacy.targetMode w')
        <= Rabs (Shader.uMode (Legacy.u w') - Legacy.targetMode w')).
Proof.
  intros mode anim prm g dt w w'.
  assert (E : Shader.uMode (Legacy.u w') - Legacy.targetMode w'
              = (Shader.uMode (Legacy.u w) - Legacy.targetMode w')
                * (1 - 3 * dt)).
  { subst w'. legacy_cases anim prm g; ring. }
  split; [exact E|].
  intros Hd. rewrite E, Rabs_mult.
  assert (1 <= Rabs (1 - 3 * dt)) by (rewrite Rabs_left; lra).
  pose proof (Rabs_pos (Shader.uMode (Legacy.u w) - Legacy.targetMode w')).
  nra.
Qed.

(** X25.  Under INFINITY_ZOOM a frame multiplies the zoom by 1.01 and wraps
    it to 1 once it exceeds 1000: from any positive zoom the zoom and the
    published [uZoom] end in (0, 1000], and the pan is not touched. *)
Theorem infinity_zoom_wraps :
  forall (mode : FractalMode) (prm : Legacy.Params) (g : Legacy.HandGestures)
         (dt : R) (w : Legacy.Loop),
    0 < Legacy.zoom (Legacy.nav w) ->
    let w' := Legacy.animate mode INFINITY_ZOOM prm g dt w in
    0 < Legacy.zoom (Legacy.nav w') <= 1000
    /\ Shader.uZoom (Legacy.u w') = Legacy.zoom (Legacy.nav w')
    /\ (Legacy.zoom (Legacy.nav w') = Legacy.zoom (Legacy.nav w) * 1.01
        \/ Legacy.zoom (Legacy.nav w') = 1)
    /\ Legacy.pan (Legacy.nav w') = Legacy.pan (Legacy.nav w).
Proof.
  intros mode prm g dt w Hz w'. subst w'.
  unfold Legacy.animate, Legacy.presetEngine. cbn [isNONE negb].
  cbn [Legacy.nav Legacy.u Legacy.zoom Legacy.pan Shader.uZoom
       Shader.set_uPan Shader.set_uZoom].
  destruct (Rlt_dec 1000 _); repeat split; auto; lra.
Qed.

Lemma infinity_zoom_wraps_witness :
  0 < Legacy.zoom (Legacy.nav (Legacy.animate MANDELBROT INFINITY_ZOOM
                                 Legacy.defaultParams Legacy.initialGestures
                                 (1 / 60) Legacy.initialLoop)) <= 1000.
Proof.
  refine (proj1 (infinity_zoom_wraps MANDELBROT Legacy.defaultParams
                   Legacy.initialGestures (1 / 60) Legacy.initialLoop _)).
  cbn [Legacy.initialLoop Legacy.nav Legacy.zoom]; lra.
Defined.

(** X26.  With a hand in view in interactive mode and no preset, the Julia
    constant a frame publishes lies on the circle of radius 0.7885 about the
    origin, at 2.5 times the smoothed wrist rotation; under the JULIA_MORPH
    preset it lies in the square of half-width 0.7. *)
Theorem julia_constant_on_circle :
  forall (mode : FractalMode) (prm : Legacy.Params) (g : Legacy.HandGestures)
         (dt : R) (w : Legacy.Loop),
    Legacy.interactiveMode prm = true ->
    Legacy.isVisible g = true ->
    let c := Shader.uJuliaC
               (Legacy.u (Legacy.animate mode NONE prm g dt w)) in
    let m := Shader.uJuliaC
               (Legacy.u (Legacy.animate mode JULIA_MORPH prm g dt w)) in
    dot2 c c = 0.7885 * 0.7885
    /\ Legacy.currentJulia (Legacy.animate mode NONE prm g dt w) = c
    /\ Rabs (vx m) <= 0.7 /\ Rabs (vy m) <= 0.7.
Proof.
  intros mode prm g dt w Hi Hv c m. subst c m.
  unfold Legacy.animate, Legacy.presetEngine, Legacy.standardLogic.
  rewrite Hi, Hv. cbn [isNONE negb].
  cbn [Legacy.u Legacy.currentJulia Shader.uJuliaC Shader.set_uMode
       Shader.set_uTime Shader.set_uZoom Shader.set_uPan Shader.set_uJuliaC
       Shader.set_uVisualMode].
  split; [|split; [reflexivity|]].
  - unfold dot2; cbn [vx vy].
    set (a := Legacy.lerp _ _ _ * 2.5).
    pose proof (sin2_cos2 a) as H. unfold Rsqr in H. nra.
  - cbn [vx vy]. split.
    + rewrite Rabs_mult, (Rabs_pos_eq 0.7) by lra.
      pose proof (SIN_bound ((Legacy.animPhase w + dt) * 0.5)).
      assert (Rabs (sin ((Legacy.animPhase w + dt) * 0.5)) <= 1)
        by (apply Rabs_le; lra).
      lra.
    + rewrite Rabs_mult, (Rabs_pos_eq 0.7) by lra.
      pose proof (COS_bound ((Legacy.animPhase w + dt) * 0.3)).
      assert (Rabs (cos ((Legacy.animPhase w + dt) * 0.3)) <= 1)
        by (apply Rabs_le; lra).
      lra.
Qed.

Lemma julia_constant_on_circle_witness :
  dot2 (Shader.uJuliaC
          (Legacy.u (Legacy.animate JULIA_2D NONE Legacy.defaultParams
                       Legacy.clapSeen (1 / 60) Legacy.initialLoop)))
       (Shader.uJuliaC
          (Legacy.u (Legacy.animate JULIA_2D NONE Legacy.defaultParams
                       Legacy.clapSeen (1 / 60) Legacy.initialLoop)))
  = 0.7885 * 0.7885.
Proof.
  refine (proj1 (julia_constant_on_circle JULIA_2D Legacy.defaultParams
                   Legacy.clapSeen (1 / 60) Legacy.initialLoop _ _));
    reflexivity.
Defined.

(** ** The vertex shader *)

Section SolidEstimators.

Import Shader.

Lemma mengerLoop_defined (fuel : nat) (p : vec3) :
  forall s d, 0 < s ->
    exists r, mengerLoop fuel p s d = Some r /\ d <= r.
Proof.
  induction fuel as [|fuel IH]; intros s d Hs.
  - exists d; split; [reflexivity | lra].
  - cbn [mengerLoop]. cbv zeta. unfold fdiv at 1.
    destruct (Req_dec_T (s * 3) 0) as [E|_]; [lra|]. cbn [obind].
    match goal with
    | |- context [mengerLoop fuel p (s * 3) ?d'] =>
        destruct (IH (s * 3) d' ltac:(lra)) as (r & Hr & Hd)
    end.
    exists r. split; [exact Hr|].
    eapply Rle_trans; [apply Rmax_l | exact Hd].
Qed.

Lemma sierpinskiLoop_count (fuel : nat) :
  forall p n, snd (sierpinskiLoop fuel p n) = (n + fuel)%nat.
Proof.
  induction fuel as [|fuel IH]; intros p n; cbn [sierpinskiLoop snd];
    [lia | rewrite IH; lia].
Qed.

Lemma solid_estimators_defined_at (p : vec3) :
  (exists d, DE_MengerSponge p = Some d)
  /\ (exists d, DE_Sierpinski p = Some d).
Proof.
  split.
  - unfold DE_MengerSponge.
    match goal with
    | |- context [mengerLoop 4 p 1 ?d] =>
        destruct (mengerLoop_defined 4 p 1 d ltac:(lra)) as (r & Hr & _)
    end.
    exists r; exact Hr.
  - unfold DE_Sierpinski.
    destruct (sierpinskiLoop 8 (scale3 p 1.5) 0) as [q n].
    unfold fpow. destruct (Rlt_dec 0 2) as [_|H]; [|lra].
    cbn [obind]. eexists; reflexivity.
Qed.

End SolidEstimators.

(** X27.  The distance estimators of the two solid families have a finite
    value at every point, with no division by zero and no power outside its
    domain: [DE_MengerSponge] is at least the distance to the unit box it
    starts from, and [DE_Sierpinski] is the length of the point after eight
    reflections, times [2^-8]; both are non-negative. *)
Theorem solid_estimators_are_defined :
  forall (p : vec3),
    (exists d, Shader.DE_MengerSponge p = Some d
               /\ length3 (Vec3 (Rmax (Rabs (px p) - 1) 0)
                                (Rmax (Rabs (py p) - 1) 0)
                                (Rmax (Rabs (pz p) - 1) 0)) <= d
               /\ 0 <= d)
    /\ Shader.DE_Sierpinski p
       = Some (length3 (fst (Shader.sierpinskiLoop 8 (scale3 p 1.5) 0))
               * Rpower 2 (- 8))
    /\ 0 <= length3 (fst (Shader.sierpinskiLoop 8 (scale3 p 1.5) 0))
            * Rpower 2 (- 8).
Proof.
  intros p. split; [|split].
  - unfold Shader.DE_MengerSponge.
    destruct (mengerLoop_defined 4 p 1
                (length3 (Vec3 (Rmax (Rabs (px p) - 1) 0)
                               (Rmax (Rabs (py p) - 1) 0)
                               (Rmax (Rabs (pz p) - 1) 0))) ltac:(lra))
      as (r & Hr & Hd).
    exists r. split; [exact Hr | split; [exact Hd|]].
    eapply Rle_trans; [apply sqrt_pos | exact Hd].
  - unfold Shader.DE_Sierpinski.
    pose proof (sierpinskiLoop_count 8 (scale3 p 1.5) 0) as Hn.
    destruct (Shader.sierpinskiLoop 8 (scale3 p 1.5) 0) as [q n].
    cbn [fst snd] in *. subst n. unfold fpow.
    destruct (Rlt_dec 0 2) as [_|H]; [|lra]. cbn [obind].
    do 3 f_equal. rewrite INR_IZR_INZ. reflexivity.
  - apply Rmult_le_pos; [apply sqrt_pos|].
    unfold Rpower; left; apply exp_pos.
Qed.

Section VertexColour.

Import Shader.

Variable u : Uniforms.

Lemma effects_unit (c : vec3) :
  unit01 (uExplosion u) -> unit01 (uChaos u) -> unit01 (uSnap u) ->
  unitColor c ->
  unitColor
    (mix3 (mix3 (mix3 (mix3 (Vec3 0 0 0.02) c 0.6) (Vec3 0.6 0.5 0.8)
                      (uExplosion u))
                (Vec3 0.4 0 0.2) (uChaos u))
          (Vec3 0.5 0.3 0.9) (uSnap u)).
Proof.
  intros He Hc Hs Hu.
  repeat (apply mix3_unit; try assumption);
    unfold unitColor; cbn [px py pz]; lra.
Qed.

End VertexColour.

(** X28.  Whenever [main] produces a vertex, with the three effect
    intensities in [0, 1], its colour has all channels in [0, 1] and its
    opacity lies in [0, 1.2]: 0 or 0.8 in the visual style, and
    [0.4 + 0.4 * uExplosion + 0.4 * uSnap] in the interactive one, which
    exceeds 1 when both effects are strong. *)
Theorem vertex_colour_is_valid :
  forall (u : Shader.Uniforms) (v : Shader.Particle),
    unit01 (Shader.uExplosion u) ->
    unit01 (Shader.uChaos u) ->
    unit01 (Shader.uSnap u) ->
    match Shader.main u v with
    | Some out =>
        validVertex out
        /\ Shader.vAlpha out
           = (if Rlt_dec 0.5 (Shader.uVisualMode u)
              then Shader.vAlpha out
              else 0.4 + Shader.uExplosion u * 0.4 + Shader.uSnap u * 0.4)
        /\ (0.5 < Shader.uVisualMode u ->
            Shader.vAlpha out = 0 \/ Shader.vAlpha out = 0.8)
    | None => True
    end.
Proof.
  intros u v He Hc Hs. unfold Shader.main.
  destruct (Shader.pos3D u _ _) as [p3|]; [|exact I]. cbn [obind].
  destruct (Shader.calc2D u _ _) as [[fr p2]|]; [|exact I]. cbn [obind].
  destruct (Shader.interactions u _ _ _) as [t|]; [|exact I]. cbn [obind].
  match goal with
  | |- context [Shader.getPalette u ?a ?b] =>
      destruct (getPalette_unit u a b) as (c & -> & Hu)
  end.
  cbn [obind]. unfold validVertex, unit01 in *.
  destruct (Rlt_dec 0.5 (Shader.uVisualMode u)) as [Hv|Hv];
    cbn [Shader.vColor Shader.vAlpha].
  - destruct (_ && _ && _); (split; [split; [exact Hu | lra]|]);
      (split; [reflexivity | intros _; auto]).
  - split; [split; [now apply effects_unit | lra]|].
    split; [reflexivity | intros H; lra].
Qed.

Lemma vertex_colour_is_valid_witness :
  match Shader.main spongeUniforms axisSeed with
  | Some out =>
      validVertex out
      /\ Shader.vAlpha out
         = (if Rlt_dec 0.5 (Shader.uVisualMode spongeUniforms)
            then Shader.vAlpha out
            else 0.4 + Shader.uExplosion spongeUniforms * 0.4
                 + Shader.uSnap spongeUniforms * 0.4)
      /\ (0.5 < Shader.uVisualMode spongeUniforms ->
          Shader.vAlpha out = 0 \/ Shader.vAlpha out = 0.8)
  | None => True
  end.
Proof.
  apply (vertex_colour_is_valid spongeUniforms axisSeed);
    unfold unit01;
    cbn [spongeUniforms Shader.set_uVisualMode Shader.set_uMode
         Legacy.initialUniforms Shader.uExplosion Shader.uChaos Shader.uSnap];
    lra.
Defined.

(** X29.  In the visual style the two solid families are drawn for every
    seed but the origin: with [uMode] above 4.5 and [uVisualMode] above 0.5,
    [main] has a finite result for every particle whose seed position is not
    the zero vector, with opacity 0.8 and a colour with channels in [0, 1];
    for the zero seed it has none. *)
Theorem solid_families_render_everywhere :
  forall (u : Shader.Uniforms) (v : Shader.Particle),
    4.5 < Shader.uMode u ->
    0.5 < Shader.uVisualMode u ->
    (length3 (Shader.position v) <> 0 ->
     exists out, Shader.main u v = Some out
                 /\ Shader.vAlpha out = 0.8
                 /\ unitColor (Shader.vColor out))
    /\ (length3 (Shader.position v) = 0 -> 5.5 <> Shader.uMode u ->
        Shader.main u v = None).
Proof.
  intros u v Hm Hv.
  assert (H0 : Rleb (Shader.uMode u) 4.5 = false) by (apply Rleb_false; lra).
  assert (H1 : Rltb 4.5 (Shader.uMode u) = true) by (apply Rltb_true; lra).
  destruct (solid_estimators_defined_at (scale3 (Shader.position v) 1.5))
    as [(dm & Hdm) (ds & Hds)].
  split.
  - intros Hp.
    assert (Hn : normalize3 (Shader.position v)
                 = Some (scale3 (Shader.position v)
                                (/ length3 (Shader.position v)))).
    { unfold normalize3. destruct (Req_dec_T _ 0); [contradiction|].
      reflexivity. }
    assert (H3 : exists p3, Shader.pos3D u (Shader.position v) (Shader.uMode u)
                            = Some p3).
    { unfold Shader.pos3D.
      destruct (Rlt_dec (Shader.uMode u) 0.5); [lra|]. rewrite H1.
      destruct (Rltb (Shader.uMode u) 5.5); cbn [andb].
      - rewrite Hdm, Hn. cbn [obind]. eexists; reflexivity.
      - destruct (Rlt_dec 5.5 (Shader.uMode u)).
        + rewrite Hds, Hn. cbn [obind]. eexists; reflexivity.
        + eexists; reflexivity. }
    destruct H3 as (p3 & H3).
    unfold Shader.main. rewrite H3. cbn [obind].
    unfold Shader.calc2D. rewrite H0, andb_false_r. cbn [obind].
    unfold Shader.is3D. rewrite H1, orb_true_r.
    unfold Shader.interactions.
    destruct (Rlt_dec (Shader.uVisualMode u) 0.5); [lra|]. cbn [obind].
    match goal with
    | |- context [Shader.getPalette u ?a ?b] =>
        destruct (getPalette_unit u a b) as (c & -> & Hu)
    end.
    cbn [obind].
    destruct (Rlt_dec 0.5 (Shader.uVisualMode u)); [|lra].
    rewrite ?andb_false_r.
    eexists; split; [reflexivity|].
    cbn [Shader.vAlpha Shader.vColor]. split; [reflexivity | exact Hu].
  - intros Hp H55.
    assert (Hn : normalize3 (Shader.position v) = None).
    { unfold normalize3. destruct (Req_dec_T _ 0); [reflexivity|].
      contradiction. }
    unfold Shader.main, Shader.pos3D.
    destruct (Rlt_dec (Shader.uMode u) 0.5); [lra|]. rewrite H1.
    destruct (Rltb (Shader.uMode u) 5.5) eqn:E; cbn [andb].
    + rewrite Hdm, Hn. reflexivity.
    + destruct (Rlt_dec 5.5 (Shader.uMode u)).
      * rewrite Hds, Hn. reflexivity.
      * apply Rltb_false in E. lra.
Qed.

Lemma solid_families_render_everywhere_witness :
  exists out, Shader.main spongeUniforms axisSeed = Some out
              /\ Shader.vAlpha out = 0.8
              /\ unitColor (Shader.vColor out).
Proof.
  refine (proj1 (solid_families_render_everywhere spongeUniforms axisSeed
                   _ _) _).
  - cbn [spongeUniforms Shader.set_uVisualMode Shader.set_uMode
         Shader.uMode]; lra.
  - cbn [spongeUniforms Shader.set_uVisualMode Shader.uVisualMode]; lra.
  - unfold length3; cbn [axisSeed Shader.position px py pz].
    replace (1 * 1 + 0 * 0 + 0 * 0) with 1 by ring.
    rewrite sqrt_1; lra.
Defined.

(** A point outside the circle of radius 2 escapes at the first iteration,
    in every family that starts the recurrence at zero. *)
Lemma IterateFractal_far (u : Shader.Uniforms) (pos : vec2) (mode : R) :
  1.1 <= mode -> 0 < Shader.uMaxIter u -> 4 < dot2 pos pos ->
  Shader.IterateFractal u pos mode
  = Some (Vec3 (vx pos) (vy pos)
               ((0 - log2 (log2 (dot2 pos pos)) + 4) / Shader.uMaxIter u)).
Proof.
  intros Hm Hmax Hfar.
  assert (Hstep : Shader.fractalStep mode pos (Vec2 0 0) = pos).
  { unfold Shader.fractalStep, Shader.csqr, add2.
    destruct pos as [x y]. split_ifs; cbn [vx vy];
      rewrite ?Rabs_R0; f_equal; ring. }
  rewrite IterateFractal_unfold.
  destruct (not_julia u pos mode Hm) as [-> ->].
  rewrite (escapeLoop_escape u mode pos 0);
    [| lia
     | rewrite loopLimit_pos by assumption; cbn [INR]; lra
     | intros j Hj; lia
     | cbn [Nat.iter nat_rect]; rewrite Hstep; exact Hfar].
  cbv zeta; cbn [fst snd Nat.iter nat_rect INR]. rewrite Hstep.
  assert (Hl : 0 < ln (dot2 pos pos) / ln 2).
  { apply Rdiv_lt_0_compat; [apply ln_gt_0; lra | apply ln2_pos]. }
  unfold flog2, fdiv.
  destruct (Rlt_dec 0 (dot2 pos pos)) as [_|Hn0]; [|lra]; cbn [obind].
  destruct (Rlt_dec 0 (ln (dot2 pos pos) / ln 2)) as [_|Hn1]; [|lra];
    cbn [obind].
  destruct (Req_dec_T (Shader.loopLimit u) 0) as [H0|_];
    [now apply loopLimit_nonzero in H0|]; cbn [obind].
  rewrite loopLimit_pos by assumption. unfold log2.
  rewrite Rplus_0_r. reflexivity.
Qed.

(** X30.  In the visual style a particle of a flat family is drawn exactly
    where the escape-time kernel has a result for its point of the plane.
    It is placed at [(4x, 3y, 1.5 * depth)] with opacity 0.8, or, when the
    pseudo-depth is below 0.05, pushed back to [z = -60] and made fully
    transparent; its colour has channels in [0, 1].  Where the kernel has no
    result, [main] has none. *)
Theorem flat_families_hide_shallow_points :
  forall (u : Shader.Uniforms) (v : Shader.Particle),
    0.5 < Shader.uVisualMode u ->
    0.5 <= Shader.uMode u <= 4.5 ->
    Shader.uZoom u <> 0 ->
    match Shader.IterateFractal u (navPoint u v) (Shader.uMode u) with
    | Some fr =>
        exists c,
          Shader.main u v
          = Some {| Shader.targetPos :=
                      Vec3 (px (Shader.position v) * 4)
                           (py (Shader.position v) * 3)
                           ((if Rlt_dec (pz fr) 0.05 then -20
                             else pz fr * 0.5) * 3);
                    Shader.vColor := c;
                    Shader.vAlpha :=
                      if Rlt_dec (pz fr) 0.05 then 0 else 0.8 |}
          /\ unitColor c
    | None => Shader.main u v = None
    end.
Proof.
  intros u v Hv [Hlo Hhi] Hz.
  assert (H1 : Rltb 4.5 (Shader.uMode u) = false) by (apply Rltb_false; lra).
  assert (H0 : Rltb (Shader.uMode u) 0.5 = false) by (apply Rltb_false; lra).
  assert (H2 : Rleb 0.5 (Shader.uMode u) = true) by (apply Rleb_true; lra).
  assert (H3 : Rleb (Shader.uMode u) 4.5 = true) by (apply Rleb_true; lra).
  unfold Shader.main, Shader.pos3D, Shader.calc2D, Shader.is3D.
  destruct (Rlt_dec (Shader.uMode u) 0.5); [lra|].
  rewrite H0, H1, H2, H3; cbn [andb orb].
  destruct (Rlt_dec 5.5 (Shader.uMode u)); [lra|].
  cbn [obind vx vy]. unfold fdiv.
  destruct (Req_dec_T (Shader.uZoom u) 0); [contradiction|]. cbn [obind].
  fold (navPoint u v).
  destruct (Shader.IterateFractal u (navPoint u v) (Shader.uMode u))
    as [fr|]; [|reflexivity].
  cbn [obind]. unfold Shader.interactions.
  destruct (Rlt_dec (Shader.uVisualMode u) 0.5); [lra|]. cbn [obind].
  match goal with
  | |- context [Shader.getPalette u ?a ?b] =>
      destruct (getPalette_unit u a b) as (c & -> & Hu)
  end.
  cbn [obind].
  destruct (Rlt_dec 0.5 (Shader.uVisualMode u)); [|lra].
  exists c. split; [|exact Hu].
  unfold Rltb. destruct (Rlt_dec (pz fr) 0.05); reflexivity.
Qed.

(** The point [3 + 0i] under the Mandelbrot preset: drawn, at the depth of
    an immediate escape. *)
Lemma flat_families_hide_shallow_points_witness :
  let depth := (0 - log2 (log2 (dot2 (Vec2 3 0) (Vec2 3 0))) + 4)
               / Shader.uMaxIter diveUniforms in
  exists c,
    Shader.main diveUniforms farSeed
    = Some {| Shader.targetPos :=
                Vec3 (px (Shader.position farSeed) * 4)
                     (py (Shader.position farSeed) * 3)
                     ((if Rlt_dec depth 0.05 then -20 else depth * 0.5) * 3);
              Shader.vColor := c;
              Shader.vAlpha := if Rlt_dec depth 0.05 then 0 else 0.8 |}
    /\ unitColor c.
Proof.
  intros depth.
  pose proof (flat_families_hide_shallow_points diveUniforms farSeed) as H.
  assert (E : navPoint diveUniforms farSeed = Vec2 3 0).
  { unfold navPoint, add2.
    cbn [diveUniforms mandelbrotUniforms Shader.set_uVisualMode
         Shader.set_uMode Legacy.initialUniforms Shader.uZoom Shader.uPan
         farSeed Shader.position px py vx vy].
    f_equal; lra. }
  rewrite E in H.
  change (Shader.uMode diveUniforms) with 2 in H.
  rewrite (IterateFractal_far diveUniforms (Vec2 3 0) 2) in H.
  - apply H;
      cbn [diveUniforms mandelbrotUniforms Shader.set_uVisualMode
           Shader.set_uMode Legacy.initialUniforms Shader.uVisualMode
           Shader.uZoom]; lra.
  - lra.
  - cbn [diveUniforms mandelbrotUniforms Shader.set_uVisualMode
         Shader.set_uMode Legacy.initialUniforms Shader.uMaxIter]; lra.
  - unfold dot2; cbn [vx vy]; lra.
Defined.
